(** * GeneralsBigEditor: the BIG container codec, the INI object parser and
      the relationship graph builder, embedded from [big_ui.py] and
      [enhanced_integration.py]. *)

From Stdlib Require Import ZArith NArith Lia List Bool String Ascii.
From Stdlib Require Import Strings.Byte.
From stdpp Require Import base decidable option numbers list.

(** ** Python values shared by both subsystems *)

(** A Python [str] is a sequence of code points; [bytes] is a sequence of
    octets. *)
Abbreviation str := (list N).
Abbreviation bytes := (list Byte.byte).

Definition py (s : string) : str := map N_of_ascii (list_ascii_of_string s).

(** A text given line by line: the lines joined by newlines. *)
Fixpoint text (ls : list string) : str :=
  match ls with
  | [] => []
  | [l] => py l
  | l :: ls' => py l ++ 10%N :: text ls'
  end.
Definition b_ (s : string) : bytes := list_byte_of_string s.
Arguments py : simpl never.
Arguments b_ : simpl never.

(** The exceptions the modelled code can raise. *)
Inductive exn :=
| ValueError | StructError | IOError | UnicodeEncodeError
| IndexError | AttributeError | TypeError | KeyError.

Inductive result (A : Type) :=
| Ok (a : A)
| Raise (e : exn).
Arguments Ok {A} a.
Arguments Raise {A} e.

Definition rbind {A B} (m : result A) (k : A -> result B) : result B :=
  match m with
  | Ok a => k a
  | Raise e => Raise e
  end.

Notation "x <- m ;~ k" := (rbind m (fun x => k))
  (at level 20, m at level 100, k at level 200, only parsing).
Notation "' p <- m ;~ k" := (rbind m (fun p => k))
  (at level 20, p pattern, m at level 100, k at level 200, only parsing).

#[global] Instance exn_eq_dec : EqDecision exn.
Proof. solve_decision. Defined.

#[global] Instance byte_eq_dec : EqDecision Byte.byte.
Proof.
  intros x y. destruct (Byte.eqb x y) eqn:E.
  - left. by apply Byte.byte_dec_bl.
  - right. intros ->. by rewrite Byte.byte_dec_lb in E.
Defined.

(** [s.startswith(p)], for [str] and for [bytes]. *)
Definition startswith {A} `{EqDecision A} (s p : list A) : bool :=
  bool_decide (take (length p) s = p).
Arguments startswith : simpl never.

(** ** The container codec ([big_ui.py]) *)

Module BIG.

Open Scope Z_scope.

(** [len(x)] as a Python integer. *)
Definition len {A} (l : list A) : Z := Z.of_nat (length l).

Definition Z_of_byte (b : Byte.byte) : Z := Z.of_N (Byte.to_N b).
Definition byte_of_Z (z : Z) : Byte.byte :=
  default Byte.x00 (Byte.of_N (Z.to_N (z mod 256))).

(** [struct.pack('>I', v)], [struct.pack('<I', v)]: [struct.error] outside
    the unsigned 32-bit range. *)
Definition write_uint32_be (value : Z) : result bytes :=
  if (0 <=? value) && (value <? 2 ^ 32) then
    Ok [byte_of_Z (value / 2 ^ 24); byte_of_Z (value / 2 ^ 16);
        byte_of_Z (value / 2 ^ 8); byte_of_Z value]
  else Raise StructError.

Definition write_uint32_le (value : Z) : result bytes :=
  if (0 <=? value) && (value <? 2 ^ 32) then
    Ok [byte_of_Z value; byte_of_Z (value / 2 ^ 8);
        byte_of_Z (value / 2 ^ 16); byte_of_Z (value / 2 ^ 24)]
  else Raise StructError.

(** [struct.unpack('>I', data)[0]], [struct.unpack('<I', data)[0]]:
    [struct.error] unless [data] has exactly four bytes. *)
Definition read_uint32_be (data : bytes) : result Z :=
  match data with
  | [b3; b2; b1; b0] =>
      Ok (Z_of_byte b3 * 2 ^ 24 + Z_of_byte b2 * 2 ^ 16
          + Z_of_byte b1 * 2 ^ 8 + Z_of_byte b0)
  | _ => Raise StructError
  end.

Definition read_uint32_le (data : bytes) : result Z :=
  match data with
  | [b0; b1; b2; b3] =>
      Ok (Z_of_byte b3 * 2 ^ 24 + Z_of_byte b2 * 2 ^ 16
          + Z_of_byte b1 * 2 ^ 8 + Z_of_byte b0)
  | _ => Raise StructError
  end.

(** [io.BytesIO]: a buffer and a cursor.  Reading past the end returns
    fewer bytes; seeking past the end is allowed. *)
Record BytesIO := mkBytesIO { buf : bytes; pos : nat }.

Definition bio_read (n : nat) (f : BytesIO) : bytes * BytesIO :=
  let r := take n (drop (pos f) (buf f)) in
  (r, mkBytesIO (buf f) (pos f + length r)%nat).

Definition bio_seek_cur (k : nat) (f : BytesIO) : BytesIO :=
  mkBytesIO (buf f) (pos f + k)%nat.

Definition bio_seek (o : nat) (f : BytesIO) : BytesIO :=
  mkBytesIO (buf f) o.

(** [bytes.decode('ascii', errors='ignore')]: octets above 0x7f vanish. *)
Definition decode_ascii_ignore (b : bytes) : str :=
  Byte.to_N <$> filter (fun c => (Byte.to_N c < 128)%N) b.

(** [str.encode('ascii')]: [UnicodeEncodeError] on a code point above
    0x7f. *)
Fixpoint encode_ascii (s : str) : result bytes :=
  match s with
  | [] => Ok []
  | c :: s' =>
      if (c <? 128)%N then
        r <- encode_ascii s' ;~
        Ok (default Byte.x00 (Byte.of_N c) :: r)
      else Raise UnicodeEncodeError
  end.

(** The loop of [read_string]: bytes up to a NUL or the end of the
    buffer, and how many bytes the cursor moved. *)
Fixpoint read_string_loop (rest : bytes) : bytes * nat :=
  match rest with
  | [] => ([], 0%nat)
  | c :: rest' =>
      if decide (c = Byte.x00) then ([], 1%nat)
      else let '(name, k) := read_string_loop rest' in (c :: name, S k)
  end.

Definition read_string (f : BytesIO) : str * BytesIO :=
  let '(name, k) := read_string_loop (drop (pos f) (buf f)) in
  (decode_ascii_ignore name, mkBytesIO (buf f) (pos f + k)%nat).

Definition write_string (s : str) : result bytes :=
  r <- encode_ascii s ;~ Ok (r ++ [Byte.x00]).

(** [FileEntry] objects live in a heap and are referred to by address:
    [BIGArchive.entries] is a list of references, and [remove_file] and
    [update_file] receive a reference. *)
Record FileEntry := mkFileEntry {
  offset : Z;
  size : Z;
  path : str;
  data : option bytes;
  modified : bool
}.

(** [FileEntry.__init__] *)
Definition FileEntry_init (o s : Z) (p : str) (d : option bytes) : FileEntry :=
  mkFileEntry o s p d false.

#[global] Instance FileEntry_inhabited : Inhabited FileEntry :=
  populate (FileEntry_init 0 0 [] None).

Definition set_offset (o : Z) (e : FileEntry) : FileEntry :=
  mkFileEntry o (size e) (path e) (data e) (modified e).
Definition set_size (s : Z) (e : FileEntry) : FileEntry :=
  mkFileEntry (offset e) s (path e) (data e) (modified e).
Definition set_data (d : option bytes) (e : FileEntry) : FileEntry :=
  mkFileEntry (offset e) (size e) (path e) d (modified e).
Definition set_modified (m : bool) (e : FileEntry) : FileEntry :=
  mkFileEntry (offset e) (size e) (path e) (data e) m.

Record BIGArchive := mkBIGArchive {
  header : option bytes;
  file_size : Z;
  entries : list nat;
  original_data : option bytes
}.

(** [BIGArchive.__init__] *)
Definition BIGArchive_init : BIGArchive := mkBIGArchive None 0 [] None.

(** How the destination file behaves during one [save]. *)
Inductive io_env :=
| IoOk
| IoOpenFails
| IoWriteFails (n : nat).

(** The mutable world: the object heap, the archive object, the file that
    [save] writes, and the behaviour of that file. *)
Record World := mkWorld {
  heap : list FileEntry;
  self : BIGArchive;
  disk : option bytes;
  io : io_env
}.

Definition init_world (env : io_env) : World :=
  mkWorld [] BIGArchive_init None env.

(** Statements: they transform the world and return or raise; what was
    mutated before an exception stays mutated. *)
Definition M (A : Type) : Type := World -> World * result A.

Definition ret {A} (a : A) : M A := fun w => (w, Ok a).
Definition raise {A} (e : exn) : M A := fun w => (w, Raise e).
Definition bind {A B} (m : M A) (k : A -> M B) : M B :=
  fun w => match m w with
           | (w', Ok a) => k a w'
           | (w', Raise e) => (w', Raise e)
           end.
Definition lift {A} (r : result A) : M A := fun w => (w, r).
Definition get_world : M World := fun w => (w, Ok w).

Notation "x <~ m ;~ k" := (bind m (fun x => k))
  (at level 20, m at level 100, k at level 200, only parsing).
Notation "'run' m ;~ k" := (bind m (fun _ => k))
  (at level 20, m at level 100, k at level 200, only parsing).

Definition with_self (g : BIGArchive -> BIGArchive) : M unit :=
  fun w => (mkWorld (heap w) (g (self w)) (disk w) (io w), Ok tt).
Definition with_heap (g : list FileEntry -> list FileEntry) : M unit :=
  fun w => (mkWorld (g (heap w)) (self w) (disk w) (io w), Ok tt).

Definition set_header (h : bytes) (a : BIGArchive) : BIGArchive :=
  mkBIGArchive (Some h) (file_size a) (entries a) (original_data a).
Definition set_file_size (s : Z) (a : BIGArchive) : BIGArchive :=
  mkBIGArchive (header a) s (entries a) (original_data a).
Definition set_entries (l : list nat) (a : BIGArchive) : BIGArchive :=
  mkBIGArchive (header a) (file_size a) l (original_data a).
Definition set_original_data (d : bytes) (a : BIGArchive) : BIGArchive :=
  mkBIGArchive (header a) (file_size a) (entries a) (Some d).

(** Allocate a new object and return its reference. *)
Definition alloc (e : FileEntry) : M nat :=
  fun w => (mkWorld (heap w ++ [e]) (self w) (disk w) (io w),
            Ok (length (heap w))).

(** [self.entries.append(ref)] *)
Definition entries_append (r : nat) : M unit :=
  with_self (fun a => set_entries (entries a ++ [r]) a).

(** [for x in l: body(x)] *)
Fixpoint for_each {A} (l : list A) (body : A -> M unit) : M unit :=
  match l with
  | [] => ret tt
  | x :: l' => run body x ;~ for_each l' body
  end.


(** The two metadata loops of [load]: [n] records, each optionally
    preceded by one skipped byte. *)
Fixpoint read_records (skip : nat) (n : nat) (file : BytesIO) : M BytesIO :=
  match n with
  | O => ret file
  | S n' =>
      let file := bio_seek_cur skip file in
      let '(d, file) := bio_read 4 file in
      o <~ lift (read_uint32_be d) ;~
      let '(d, file) := bio_read 4 file in
      s <~ lift (read_uint32_be d) ;~
      let '(p, file) := read_string file in
      r <~ alloc (FileEntry_init o s p None) ;~
      run entries_append r ;~
      read_records skip n' file
  end.

(** [BIGArchive.load]; [content] is what [open(filepath,'rb').read()]
    gives, [None] when the file cannot be read. *)
Definition load (content : option bytes) : M unit :=
  match content with
  | None => raise IOError
  | Some B =>
      run with_self (set_original_data B) ;~
      let file := mkBytesIO B 0 in
      let '(hd, file) := bio_read 4 file in
      run with_self (set_header hd) ;~
      if negb (startswith hd (b_ "BIG")) then raise ValueError
      else
        let '(d, file) := bio_read 4 file in
        fs <~ lift (read_uint32_le d) ;~
        run with_self (set_file_size fs) ;~
        let '(d, file) := bio_read 4 file in
        file_count <~ lift (read_uint32_be d) ;~
        file <~ (if decide (hd = b_ "BIG5") then
                   read_records 1 (Z.to_nat file_count) (bio_seek_cur 3 file)
                 else
                   read_records 0 (Z.to_nat file_count) (bio_seek_cur 4 file)) ;~
        w <~ get_world ;~
        for_each (entries (self w)) (fun r =>
          w <~ get_world ;~
          let e := heap w !!! r in
          let file := bio_seek (Z.to_nat (offset e)) file in
          let '(d, _) := bio_read (Z.to_nat (size e)) file in
          with_heap (alter (set_data (Some d)) r))
  end.

(** [open(filepath, 'wb')] and [f.write(chunk)] *)
Definition fopen_wb : M unit :=
  fun w => match io w with
           | IoOpenFails => (w, Raise IOError)
           | _ => (mkWorld (heap w) (self w) (Some []) (io w), Ok tt)
           end.

Definition fwrite (chunk : bytes) : M unit :=
  fun w => match io w with
           | IoWriteFails O => (w, Raise IOError)
           | IoWriteFails (S n) =>
               (mkWorld (heap w) (self w)
                  (Some (default [] (disk w) ++ chunk)) (IoWriteFails n), Ok tt)
           | _ =>
               (mkWorld (heap w) (self w)
                  (Some (default [] (disk w) ++ chunk)) (io w), Ok tt)
           end.

(** [f.write(x)] where [x] may be [None] *)
Definition fwrite_obj (x : option bytes) : M unit :=
  match x with
  | Some chunk => fwrite chunk
  | None => raise TypeError
  end.

Definition is_big5 (a : BIGArchive) : bool :=
  bool_decide (header a = Some (b_ "BIG5")).

(** The two size loops of [save]. *)
Definition metadata_end (a : BIGArchive) (h : list FileEntry) : Z :=
  let current_offset := 12 in
  if is_big5 a then
    fold_left (fun co r => co + 1 + 8 + (len (path (h !!! r)) + 1))
      (entries a) (current_offset + 3)
  else
    fold_left (fun co r => co + 8 + (len (path (h !!! r)) + 1))
      (entries a) (current_offset + 4).

(** The loop [entry.offset = current_offset; current_offset += entry.size] *)
Fixpoint update_offsets (es : list nat) (current_offset : Z) : M Z :=
  match es with
  | [] => ret current_offset
  | r :: es' =>
      run with_heap (alter (set_offset current_offset) r) ;~
      w <~ get_world ;~
      update_offsets es' (current_offset + size (heap w !!! r))
  end.

Definition write_record (skip : bool) (r : nat) : M unit :=
  run (if skip then fwrite [Byte.x00] else ret tt) ;~
  w <~ get_world ;~
  d <~ lift (write_uint32_be (offset (heap w !!! r))) ;~
  run fwrite d ;~
  w <~ get_world ;~
  d <~ lift (write_uint32_be (size (heap w !!! r))) ;~
  run fwrite d ;~
  w <~ get_world ;~
  d <~ lift (write_string (path (heap w !!! r))) ;~
  fwrite d.

(** [BIGArchive.save] *)
Definition save : M unit :=
  w <~ get_world ;~
  let current_offset := metadata_end (self w) (heap w) in
  total_size <~ update_offsets (entries (self w)) current_offset ;~
  run fopen_wb ;~
  run fwrite_obj (header (self w)) ;~
  d <~ lift (write_uint32_le total_size) ;~
  run fwrite d ;~
  d <~ lift (write_uint32_be (len (entries (self w)))) ;~
  run fwrite d ;~
  run (if is_big5 (self w) then
         run fwrite (replicate 3 Byte.x00) ;~
         for_each (entries (self w)) (write_record true)
       else
         run fwrite (replicate 4 Byte.x00) ;~
         for_each (entries (self w)) (write_record false)) ;~
  for_each (entries (self w)) (fun r =>
    w <~ get_world ;~
    fwrite_obj (data (heap w !!! r))).

(** [add_file], [remove_file], [update_file] *)
Definition add_file (p : str) (d : bytes) : M nat :=
  r <~ alloc (FileEntry_init 0 (len d) p (Some d)) ;~
  run with_heap (alter (set_modified true) r) ;~
  run entries_append r ;~
  ret r.

(** [list.remove(x)]: drops the first element equal to [x], [ValueError]
    when there is none.  [FileEntry] defines no [__eq__], so equality is
    identity of references. *)
Fixpoint list_remove (x : nat) (l : list nat) : result (list nat) :=
  match l with
  | [] => Raise ValueError
  | y :: l' =>
      if decide (y = x) then Ok l'
      else l'' <- list_remove x l' ;~ Ok (y :: l'')
  end.

Definition remove_file (entry : nat) : M unit :=
  w <~ get_world ;~
  l <~ lift (list_remove entry (entries (self w))) ;~
  with_self (set_entries l).

Definition update_file (entry : nat) (d : bytes) : M unit :=
  run with_heap (alter (set_data (Some d)) entry) ;~
  run with_heap (alter (set_size (len d)) entry) ;~
  with_heap (alter (set_modified true) entry).

(** *** The hex view ([BIGEditor.format_hex]) *)

(** One uppercase hexadecimal digit. *)
Definition hexd (d : N) : N := if (d <? 10)%N then (48 + d)%N else (55 + d)%N.

(** [format(n, 'X')]: the digits of [n], most significant first, at
    least one. *)
Fixpoint hex_fuel (fuel : nat) (n : N) : str :=
  match fuel with
  | O => []
  | S fuel' =>
      if (n <? 16)%N then [hexd n]
      else hex_fuel fuel' (n / 16)%N ++ [hexd (n mod 16)%N]
  end.

Definition to_hex (n : N) : str := hex_fuel (S (N.to_nat (N.log2 n))) n.

(** Zero padding on the left and space padding on the right, as the
    format specifications [0w] and [<w] do: a longer text is not cut. *)
Definition zfill (w : nat) (s : str) : str := replicate (w - length s) 48%N ++ s.
Definition ljust (w : nat) (s : str) : str := s ++ replicate (w - length s) 32%N.

(** [sep.join(l)] *)
Fixpoint join (sep : str) (l : list str) : str :=
  match l with
  | [] => []
  | x :: l' =>
      match l' with
      | [] => x
      | _ :: _ => x ++ sep ++ join sep l'
      end
  end.

(** [f'{b:02X}'] and [chr(b) if 32 <= b < 127 else '.'] *)
Definition hex2 (b : Byte.byte) : str :=
  zfill 2 (to_hex (Byte.to_N b)).
Definition ascii_char (b : Byte.byte) : N :=
  if (32 <=? Byte.to_N b)%N && (Byte.to_N b <? 127)%N then Byte.to_N b else 46%N.

(** [f'{i:08X}: {hex_part:<48} {ascii_part}'] *)
Definition fmt_line (i : N) (chunk : bytes) : str :=
  zfill 8 (to_hex i) ++ [58; 32]%N
  ++ ljust 48 (join [32%N] (hex2 <$> chunk)) ++ [32%N]
  ++ (ascii_char <$> chunk).

(** [format_hex(data, bytes_per_line)]: [range] refuses a step of zero
    and is empty for a negative one. *)
Definition format_hex (data : bytes) (bytes_per_line : Z) : result str :=
  if bytes_per_line =? 0 then Raise ValueError
  else if bytes_per_line <? 0 then Ok []
  else
    let bpl := Z.to_nat bytes_per_line in
    let count := ((length data + bpl - 1) / bpl)%nat in
    Ok (join [10%N]
          ((fun j => fmt_line (N.of_nat (j * bpl))
                      (take bpl (drop (j * bpl) data))) <$> seq 0 count)).

(** *** Notions used to state the properties of the codec *)

(** The references of an archive are distinct live objects; this holds of
    every archive built by [load], [add_file], [remove_file] and
    [update_file]. *)
Definition wf (w : World) : Prop :=
  NoDup (entries (self w)) /\
  Forall (fun r => (r < length (heap w))%nat) (entries (self w)).

(** The entry objects of the archive, in list order. *)
Definition entry_list (w : World) : list FileEntry :=
  (fun r => heap w !!! r) <$> entries (self w).

(** The offsets [save] hands out: payloads back to back from [start]. *)
Fixpoint layout (sz : nat -> Z) (es : list nat) (start : Z) : list Z :=
  match es with
  | [] => []
  | r :: es' => start :: layout sz es' (start + sz r)
  end.

Definition layout_end (sz : nat -> Z) (es : list nat) (start : Z) : Z :=
  fold_left (fun co r => co + sz r) es start.

(** The size each reference has in a heap. *)
Definition sizes (h : list FileEntry) : nat -> Z := fun r => size (h !!! r).

(** The size of the file [save] would write for this archive. *)
Definition saved_size (w : World) : Z :=
  layout_end (sizes (heap w)) (entries (self w)) (metadata_end (self w) (heap w)).

(** A well-formed archive file: [load] accepts it, every payload region
    [offset, offset+size) lies inside the file, and the archive is small
    enough for its size to fit the 32-bit size field when written again. *)
Definition well_formed (B : bytes) : bool :=
  match load (Some B) (init_world IoOk) with
  | (w, Ok _) =>
      forallb (fun e => offset e + size e <=? len B) (entry_list w)
      && (saved_size w <? 2 ^ 32)
  | (_, Raise _) => false
  end.

(** Paths, sizes and payloads of the entries, in list order. *)
Definition contents (w : World) : list (str * Z * option bytes) :=
  (fun e => (path e, size e, data e)) <$> entry_list w.

(** A two-entry archive file whose payloads are stored out of order and
    with a gap. *)
Definition sample_archive : bytes :=
  b_ "BIGF" ++ [Byte.x30; Byte.x00; Byte.x00; Byte.x00]
  ++ [Byte.x00; Byte.x00; Byte.x00; Byte.x02] ++ replicate 4 Byte.x00
  ++ [Byte.x00; Byte.x00; Byte.x00; Byte.x2c] ++ [Byte.x00; Byte.x00; Byte.x00; Byte.x03]
  ++ b_ "a.ini" ++ [Byte.x00]
  ++ [Byte.x00; Byte.x00; Byte.x00; Byte.x28] ++ [Byte.x00; Byte.x00; Byte.x00; Byte.x02]
  ++ b_ "b" ++ [Byte.x00]
  ++ b_ "XY" ++ b_ ".." ++ b_ "abc".

(** A one-entry archive built in memory, and the same with a destination
    that cannot be opened. *)
Definition one_entry_world (env : io_env) : World :=
  fst (add_file (py "a.ini") (b_ "xy") (init_world env)).

(** A new archive object, as [open_archive] makes one before it loads,
    next to a file on disk that holds [old] ([None]: there is no such
    file) and behaves as [env] says when written. *)
Definition fresh_world (old : option bytes) (env : io_env) : World :=
  mkWorld [] BIGArchive_init old env.

(** The same world next to another content of the file on disk. *)
Definition set_disk (d : option bytes) (w : World) : World :=
  mkWorld (heap w) (self w) d (io w).

(** Statements that neither read nor write the file on disk. *)
Definition disk_blind {A} (m : M A) : Prop :=
  forall w d, m (set_disk d w) = (set_disk d (fst (m w)), snd (m w)).

(** The sample archive opened from a file that cannot be opened for
    writing afterwards. *)
Definition unwritable_world : World :=
  fst (load (Some sample_archive)
         (fresh_world (Some sample_archive) IoOpenFails)).

(** An archive whose magic has the prefix the loader tests but is none of
    the three documented ones. *)
Definition bigx_archive : bytes :=
  b_ "BIGX" ++ [Byte.x10; Byte.x00; Byte.x00; Byte.x00]
            ++ replicate 4 Byte.x00 ++ replicate 4 Byte.x00.

(** The four octets of an unsigned 32-bit integer. *)
Definition be32 (v : Z) : bytes :=
  [byte_of_Z (v / 2 ^ 24); byte_of_Z (v / 2 ^ 16);
   byte_of_Z (v / 2 ^ 8); byte_of_Z v].

(** The same, least significant octet first. *)
Definition le32 (v : Z) : bytes :=
  [byte_of_Z v; byte_of_Z (v / 2 ^ 8);
   byte_of_Z (v / 2 ^ 16); byte_of_Z (v / 2 ^ 24)].

(** Paths as [load] produces them: ASCII without NUL. *)
Definition path_ok (p : str) : Prop := Forall (fun c => (0 < c < 128)%N) p.

(** The octets of an ASCII path. *)
Definition encb (p : str) : bytes :=
  (fun c => default Byte.x00 (Byte.of_N c)) <$> p.

(** Offset and size fit 32 bits and the path is ASCII without NUL. *)
Definition meta_ok (e : FileEntry) : Prop :=
  0 <= offset e < 2 ^ 32 /\ 0 <= size e < 2 ^ 32 /\ path_ok (path e).

(** The payload loop of [load]. *)
Definition fill (B : bytes) (e : FileEntry) : FileEntry :=
  set_data (Some (take (Z.to_nat (size e)) (drop (Z.to_nat (offset e)) B))) e.

(** Offsets assigned back to back, as a function on the entry list. *)
Fixpoint relayout (es : list FileEntry) (start : Z) : list FileEntry :=
  match es with
  | [] => []
  | e :: es' => set_offset start e :: relayout es' (start + size e)
  end.

(** The offset after the last payload. *)
Definition total_from (es : list FileEntry) (start : Z) : Z :=
  fold_left (fun co e => co + size e) es start.

(** One metadata record on the wire. *)
Definition enc_record (skip : bool) (e : FileEntry) : bytes :=
  (if skip then [Byte.x00] else []) ++
  be32 (offset e) ++ be32 (size e) ++ encb (path e) ++ [Byte.x00].

(** The payload of an entry, empty when none was read. *)
Definition payload (e : FileEntry) : bytes := default [] (data e).

(** The whole file: header, metadata records, payloads. *)
Definition serialize (skip : bool) (hd : bytes) (total : Z)
    (es : list FileEntry) : bytes :=
  hd ++ le32 total ++ be32 (len es) ++
  replicate (if skip then 3 else 4)%nat Byte.x00 ++
  flat_map (enc_record skip) es ++ flat_map payload es.

(** Where the payload region starts, as a function on the entry list. *)
Definition meta_end (skip : bool) (es : list FileEntry) : Z :=
  fold_left (fun co e => co + (if skip then 1 else 0) + 8 + (len (path e) + 1))
    es (12 + (if skip then 3 else 4)).

(** The bytes from the cursor on. *)
Definition remaining (f : BytesIO) : bytes := drop (pos f) (buf f).

(** The entry object [load] allocates for a metadata record. *)
Definition as_read (e : FileEntry) : FileEntry :=
  FileEntry_init (offset e) (size e) (path e) None.

(** Every exception the statement can raise satisfies [P]. *)
Definition raises_only {A} (P : exn -> Prop) (m : M A) : Prop :=
  forall w e, snd (m w) = Raise e -> P e.

(** Statements that touch neither the heap nor the archive object. *)
Definition keeps {A} (m : M A) : Prop :=
  forall w, heap (fst (m w)) = heap w /\ self (fst (m w)) = self w.

(** Everything [save] does after the offset loop. *)
Definition save_write (w0 : World) (total_size : Z) : M unit :=
  run fopen_wb ;~
  run fwrite_obj (header (self w0)) ;~
  d <~ lift (write_uint32_le total_size) ;~
  run fwrite d ;~
  d <~ lift (write_uint32_be (len (entries (self w0)))) ;~
  run fwrite d ;~
  run (if is_big5 (self w0) then
         run fwrite (replicate 3 Byte.x00) ;~
         for_each (entries (self w0)) (write_record true)
       else
         run fwrite (replicate 4 Byte.x00) ;~
         for_each (entries (self w0)) (write_record false)) ;~
  for_each (entries (self w0)) (fun r =>
    w <~ get_world ;~
    fwrite_obj (data (heap w !!! r))).

(** *** Notions used for further properties of the codec *)

(** An entry that [save] can write and [load] can read back: its size fits
    32 bits, its path is ASCII without NUL, and its payload is present and
    as long as its size says. *)
Definition entry_ok (e : FileEntry) : Prop :=
  0 <= size e < 2 ^ 32 /\ path_ok (path e) /\
  exists d, data e = Some d /\ len d = size e.

(** An archive in memory that can be written: a loaded header, a
    destination that works, listed entries that are [entry_ok], and a
    total size that fits the 32-bit size field. *)
Definition storable (w : World) : Prop :=
  wf w /\
  (exists hd, header (self w) = Some hd /\ length hd = 4%nat /\
              startswith hd (b_ "BIG") = true) /\
  io w = IoOk /\
  Forall entry_ok (entry_list w) /\
  saved_size w < 2 ^ 32.

(** [w'] lists the entries of [w] followed by fresh objects only. *)
Definition appends (w w' : World) : Prop :=
  exists k, entries (self w') = entries (self w) ++ seq (length (heap w)) k /\
            length (heap w') = (length (heap w) + k)%nat.

(** A one-entry archive file whose record announces ten payload bytes
    where the file has three. *)
Definition short_archive : bytes :=
  b_ "BIGF" ++ [Byte.x1d; Byte.x00; Byte.x00; Byte.x00]
  ++ [Byte.x00; Byte.x00; Byte.x00; Byte.x01] ++ replicate 4 Byte.x00
  ++ [Byte.x00; Byte.x00; Byte.x00; Byte.x1a] ++ [Byte.x00; Byte.x00; Byte.x00; Byte.x0a]
  ++ b_ "a" ++ [Byte.x00]
  ++ b_ "xyz".

(** Statements that leave a destination that exists in existence. *)
Definition disk_stays {A} (m : M A) : Prop :=
  forall w, is_Some (disk w) -> is_Some (disk (fst (m w))).

(** The sample archive after one update, one removal and one addition. *)
Definition edited_world : World :=
  let w := fst (load (Some sample_archive) (init_world IoOk)) in
  let w := fst (update_file 0%nat (b_ "hello") w) in
  let w := fst (remove_file 1%nat w) in
  fst (add_file (py "new.txt") (b_ "data") w).

End BIG.

(** ** The config object parser and the relationship graph builder
       ([enhanced_integration.py]) *)

Module INI.

(** *** Python string operations *)

(** The code points [str.strip()] and [str.split()] treat as whitespace. *)
Definition is_space (c : N) : bool :=
  ((9 <=? c) && (c <=? 13) || (28 <=? c) && (c <=? 32)
   || (c =? 133) || (c =? 160) || (c =? 5760)
   || (8192 <=? c) && (c <=? 8202)
   || (c =? 8232) || (c =? 8233) || (c =? 8239) || (c =? 8287)
   || (c =? 12288))%N.

Fixpoint lstrip (s : str) : str :=
  match s with
  | c :: s' => if is_space c then lstrip s' else s
  | [] => []
  end.

Definition rstrip (s : str) : str := rev (lstrip (rev s)).

(** [s.strip()] *)
Definition strip (s : str) : str := rstrip (lstrip s).

(** [s.split(sep)] for a one-character separator: never empty. *)
Fixpoint split_on (sep : N) (s : str) : list str :=
  match s with
  | [] => [[]]
  | c :: s' =>
      if (c =? sep)%N then [] :: split_on sep s'
      else match split_on sep s' with
           | w :: ws => (c :: w) :: ws
           | [] => [[c]]
           end
  end.

(** [s.split(sep, 1)] *)
Fixpoint split_on1 (sep : N) (s : str) : list str :=
  match s with
  | [] => [[]]
  | c :: s' =>
      if (c =? sep)%N then [[]; s']
      else match split_on1 sep s' with
           | w :: ws => (c :: w) :: ws
           | [] => [[c]]
           end
  end.

(** [s.split()]: the maximal runs of non-whitespace. *)
Fixpoint split_ws (s : str) : list str :=
  match s with
  | [] => []
  | c :: s' =>
      if is_space c then split_ws s'
      else match s' with
           | [] => [[c]]
           | c' :: _ =>
               if is_space c' then [c] :: split_ws s'
               else match split_ws s' with
                    | w :: ws => (c :: w) :: ws
                    | [] => [[c]]
                    end
           end
  end.

(** The first run of non-whitespace of [s], and what follows it. *)
Fixpoint first_token (s : str) : str * str :=
  match s with
  | [] => ([], [])
  | c :: s' =>
      if is_space c then ([], s)
      else let '(w, rest) := first_token s' in (c :: w, rest)
  end.

(** [s.split(None, 1)]: the first token and the remainder with its
    leading whitespace removed (trailing whitespace stays). *)
Definition split_ws1 (s : str) : list str :=
  match lstrip s with
  | [] => []
  | s1 =>
      let '(w, rest) := first_token s1 in
      match lstrip rest with
      | [] => [w]
      | rest' => [w; rest']
      end
  end.

(** [sub in s] *)
Fixpoint contains (sub s : str) : bool :=
  startswith s sub ||
  match s with
  | [] => false
  | _ :: s' => contains sub s'
  end.

(** [s.replace(c, '')] for a one-character [c] *)
Definition remove_char (c : N) (s : str) : str :=
  filter (fun x => x <> c) s.

(** [l[i]] and [l[-1]], with their [IndexError] *)
Definition index {A} (l : list A) (i : nat) : result A :=
  match l !! i with
  | Some x => Ok x
  | None => Raise IndexError
  end.

Definition index_last {A} (l : list A) : result A :=
  match last l with
  | Some x => Ok x
  | None => Raise IndexError
  end.

Definition nonempty {A} (l : list A) : bool :=
  match l with [] => false | _ => true end.

Definition EQ : N := 61.
Definition SPACE : N := 32.
Definition NEWLINE : N := 10.
Definition BACKSLASH : N := 92.

(** *** Python dictionaries: insertion ordered, keys unique *)

Fixpoint dict_get {K V} `{EqDecision K} (k : K) (d : list (K * V)) : option V :=
  match d with
  | [] => None
  | (k', v) :: d' => if decide (k' = k) then Some v else dict_get k d'
  end.

(** [d[k] = v]: in place when the key exists, else at the end. *)
Fixpoint dict_set {K V} `{EqDecision K} (k : K) (v : V) (d : list (K * V))
    : list (K * V) :=
  match d with
  | [] => [(k, v)]
  | (k', v') :: d' =>
      if decide (k' = k) then (k, v) :: d' else (k', v') :: dict_set k v d'
  end.

Definition dict_mem {K V} `{EqDecision K} (k : K) (d : list (K * V)) : bool :=
  match dict_get k d with Some _ => true | None => false end.

(** *** Parsed data *)

(** One entry of a [weapons] list: [{'slot': ..., 'weapon': ...}]. *)
Record weapon_info := mkWeapon { slot : str; weapon : str }.

(** An element of a Python list in a property map: a string or a weapon
    entry. *)
Inductive item :=
| IStr (s : str)
| IWeapon (w : weapon_info).

(** What a property map holds: [None], a string, or a list. *)
Inductive value :=
| VNone
| VStr (s : str)
| VList (l : list item).

#[global] Instance weapon_info_eq_dec : EqDecision weapon_info.
Proof. solve_decision. Defined.
#[global] Instance item_eq_dec : EqDecision item.
Proof. solve_decision. Defined.
#[global] Instance value_eq_dec : EqDecision value.
Proof. solve_decision. Defined.

(** A section dict; [tag] and [subsections] exist for module sections
    only. *)
Record section := mkSection {
  s_type : str;
  s_tag : option str;
  s_properties : list (str * value);
  s_subsections : option (list (str * value))
}.

(** An object dict as the parser builds it: sections are references into
    the section heap. *)
Record object := mkObject {
  o_type : str;
  o_name : str;
  o_source_file : str;
  o_properties : list (str * value);
  o_sections : list (str * nat);
  o_line_number : nat
}.

(** An object dict with its sections read out of the heap: what the
    caller of [parse_ini_content] sees. *)
Record definition := mkDefinition {
  d_type : str;
  d_name : str;
  d_source_file : str;
  d_properties : list (str * value);
  d_sections : list (str * section);
  d_line_number : nat
}.

#[global] Instance section_inhabited : Inhabited section :=
  populate (mkSection [] None [] None).
#[global] Instance object_inhabited : Inhabited object :=
  populate (mkObject [] [] [] [] [] 0).

Definition set_s_properties (p : list (str * value)) (s : section) : section :=
  mkSection (s_type s) (s_tag s) p (s_subsections s).
Definition set_o_properties (p : list (str * value)) (o : object) : object :=
  mkObject (o_type o) (o_name o) (o_source_file o) p (o_sections o) (o_line_number o).
Definition set_o_sections (p : list (str * nat)) (o : object) : object :=
  mkObject (o_type o) (o_name o) (o_source_file o) (o_properties o) p (o_line_number o).

(** *** [SmartINIParser] *)

Definition keywords : list str :=
  [py "Object"; py "Weapon"; py "Armor"; py "Science"; py "Upgrade";
   py "Locomotor"; py "CommandSet"; py "CommandButton"; py "FXList";
   py "ParticleSystem"; py "ObjectCreationList"; py "SpecialPower"].

Definition _is_object_definition (line : str) : bool :=
  existsb (fun kw => startswith line (kw ++ py " ")) keywords.

(** Returns [(parts[0], parts[1])] or [(None, None)]. *)
Definition _parse_object_definition (line : str) : option str * option str :=
  match split_ws1 line with
  | p0 :: p1 :: _ => (Some p0, Some p1)
  | _ => (None, None)
  end.

Definition multi_valued : list str := [py "ShowSubObject"; py "HideSubObject"].

(** [_parse_property(line, obj, None)] acting on [obj['properties']]. *)
Definition _parse_property (line : str) (props : list (str * value))
    : result (list (str * value)) :=
  if contains (py "=") line then
    let parts := split_on1 EQ line in
    key <- index parts 0 ;~
    let key := strip key in
    let value := match parts !! 1%nat with Some v => strip v | None => [] end in
    Ok (dict_set key (VStr value) props)
  else
    let parts := split_ws1 line in
    match parts with
    | [] => Ok props
    | key :: _ =>
        let value := match parts !! 1%nat with Some v => v | None => [] end in
        if bool_decide (key ∈ multi_valued) then
          let props := if dict_mem key props then props
                       else dict_set key (VList []) props in
          match dict_get key props with
          | Some (VList l) => Ok (dict_set key (VList (l ++ [IStr value])) props)
          | Some _ => Raise AttributeError
          | None => Raise KeyError
          end
        else Ok (dict_set key (VStr value) props)
    end.

(** [section['properties'][k].append(x)] *)
Definition props_append (k : str) (x : item) (props : list (str * value))
    : result (list (str * value)) :=
  match dict_get k props with
  | Some (VList l) => Ok (dict_set k (VList (l ++ [x])) props)
  | Some _ => Raise AttributeError
  | None => Raise KeyError
  end.

(** [prop.split('=', 1)[1].strip()] *)
Definition after_eq (prop : str) : result str :=
  v <- index (split_on1 EQ prop) 1 ;~ Ok (strip v).

(** The [Conditions] branch shared by the WeaponSet and ArmorSet loops. *)
Definition conditions_of (prop : str) : result value :=
  if contains (py "=") prop then v <- after_eq prop ;~ Ok (VStr v)
  else Ok (VStr (py "None")).

(** The loop of the WeaponSet branch; the state is [(weapons, conditions)]. *)
Fixpoint weaponset_loop (properties : list str) (weapons : list item)
    (conditions : value) : result (list item * value) :=
  match properties with
  | [] => Ok (weapons, conditions)
  | prop :: rest =>
      if startswith prop (py "Conditions") then
        c <- conditions_of prop ;~ weaponset_loop rest weapons c
      else if startswith prop (py "Weapon") && contains (py "=") prop then
        v <- after_eq prop ;~
        match split_ws v with
        | slot :: weapon_name :: _ =>
            if contains (py "FX") weapon_name then
              weaponset_loop rest weapons conditions
            else
              weaponset_loop rest
                (weapons ++ [IWeapon (mkWeapon slot weapon_name)]) conditions
        | _ => weaponset_loop rest weapons conditions
        end
      else weaponset_loop rest weapons conditions
  end.

(** The loop of the ArmorSet branch; [DamageFX] is stored as it is met. *)
Fixpoint armorset_loop (properties : list str) (props : list (str * value))
    (armors : list item) (conditions : value)
    : result (list (str * value) * list item * value) :=
  match properties with
  | [] => Ok (props, armors, conditions)
  | prop :: rest =>
      if startswith prop (py "Conditions") then
        c <- conditions_of prop ;~ armorset_loop rest props armors c
      else if startswith prop (py "Armor") && contains (py "=") prop then
        v <- after_eq prop ;~
        armorset_loop rest props (armors ++ [IStr v]) conditions
      else if startswith prop (py "DamageFX") && contains (py "=") prop then
        v <- after_eq prop ;~
        armorset_loop rest (dict_set (py "DamageFX") (VStr v) props)
          armors conditions
      else armorset_loop rest props armors conditions
  end.

Fixpoint prerequisites_loop (properties : list str) (prerequisites : list item)
    : result (list item) :=
  match properties with
  | [] => Ok prerequisites
  | prop :: rest =>
      if startswith prop (py "Object") && contains (py "=") prop then
        v <- after_eq prop ;~
        prerequisites_loop rest (prerequisites ++ [IStr v])
      else prerequisites_loop rest prerequisites
  end.

Fixpoint generic_loop (properties : list str) (props : list (str * value))
    : result (list (str * value)) :=
  match properties with
  | [] => Ok props
  | prop :: rest =>
      if contains (py "=") prop then
        match split_on1 EQ prop with
        | [key; value] =>
            generic_loop rest (dict_set (strip key) (VStr (strip value)) props)
        | _ => Raise ValueError
        end
      else
        let props := if dict_mem (py "_lines") props then props
                     else dict_set (py "_lines") (VList []) props in
        props <- props_append (py "_lines") (IStr prop) props ;~
        generic_loop rest props
  end.

(** [_process_section_properties(section, properties)]: the new value of
    [section['properties']]. *)
Definition _process_section_properties (sec : section) (properties : list str)
    : result section :=
  let props := s_properties sec in
  if decide (s_type sec = py "WeaponSet") then
    '(weapons, conditions) <- weaponset_loop properties [] VNone ;~
    Ok (set_s_properties
          (dict_set (py "conditions") conditions
             (dict_set (py "weapons") (VList weapons) props)) sec)
  else if decide (s_type sec = py "ArmorSet") then
    '(props, armors, conditions) <- armorset_loop properties props [] VNone ;~
    Ok (set_s_properties
          (dict_set (py "conditions") conditions
             (dict_set (py "armors") (VList armors) props)) sec)
  else if decide (s_type sec = py "Prerequisites") then
    prerequisites <- prerequisites_loop properties [] ;~
    Ok (set_s_properties
          (dict_set (py "prerequisites") (VList prerequisites) props) sec)
  else
    props <- generic_loop properties props ;~
    Ok (set_s_properties props sec).

(** The local variables of [parse_ini_content], with the heaps of the
    object and section dicts it creates.  [objects], [current_object],
    [current_section] and [section_stack] hold references. *)
Record pstate := mkPstate {
  oheap : list object;
  sheap : list section;
  objects : list (str * nat);
  current_object : option nat;
  current_section : option nat;
  section_stack : list nat;
  in_section : bool;
  section_properties : list str
}.

Definition pstate_init : pstate :=
  mkPstate [] [] [] None None [] false [].

Definition typed_sections : list str :=
  [py "WeaponSet"; py "ArmorSet"; py "Prerequisites"; py "Conditions"].

(** The object-definition branch. *)
Definition define_object (source_file : str) (line_num : nat)
    (line_stripped : str) (st : pstate) : result pstate :=
  match _parse_object_definition line_stripped with
  | (Some obj_type, Some obj_name) =>
      if nonempty obj_type && nonempty obj_name then
        let obj_name :=
          if contains (py "=") obj_name then remove_char EQ obj_name
          else obj_name in
        obj_name <- (if startswith obj_name (py " ")
                     then index (split_on SPACE obj_name) 1
                     else Ok obj_name) ;~
        let new_object := mkObject obj_type obj_name source_file [] [] line_num in
        Ok (mkPstate (oheap st ++ [new_object]) (sheap st)
              (dict_set obj_name (length (oheap st)) (objects st))
              (Some (length (oheap st))) (current_section st)
              [] false (section_properties st))
      else Ok st
  | _ => Ok st
  end.

(** The [End] branch. *)
Definition end_statement (st : pstate) : result pstate :=
  match in_section st, current_section st with
  | true, Some cs =>
      '(sh, sp) <-
        (if nonempty (section_properties st) then
           let sec := sheap st !!! cs in
           let sec := set_s_properties
                        (dict_set (py "_raw")
                           (VList (IStr <$> section_properties st))
                           (s_properties sec)) sec in
           sec <- _process_section_properties sec (section_properties st) ;~
           Ok (<[cs := sec]> (sheap st), [])
         else Ok (sheap st, section_properties st)) ;~
      if nonempty (section_stack st) then
        let stack := removelast (section_stack st) in
        Ok (mkPstate (oheap st) sh (objects st) (current_object st)
              (if nonempty stack then last stack else None)
              stack (nonempty stack) sp)
      else
        Ok (mkPstate (oheap st) sh (objects st) (current_object st)
              None (section_stack st) false sp)
  | _, _ =>
      Ok (mkPstate (oheap st) (sheap st) (objects st) None
            (current_section st) (section_stack st) (in_section st)
            (section_properties st))
  end.

(** Opening a section of the current object: the new section dict is
    stored under [key] in [current_object['sections']], becomes the
    current section and is pushed on the stack. *)
Definition open_section (co : nat) (key : str) (sec : section) (st : pstate)
    : pstate :=
  let r := length (sheap st) in
  mkPstate
    (alter (fun o => set_o_sections (dict_set key r (o_sections o)) o) co (oheap st))
    (sheap st ++ [sec]) (objects st) (current_object st)
    (Some r) (section_stack st ++ [r]) true [].

(** The branch for a line inside an object and outside every section. *)
Definition object_line (co : nat) (line_stripped : str) (st : pstate)
    : result pstate :=
  if bool_decide (line_stripped ∈ typed_sections) then
    Ok (open_section co line_stripped
          (mkSection line_stripped None [] None) st)
  else if contains (py "=") line_stripped
          && contains (py "ModuleTag_") line_stripped then
    let parts := split_on EQ line_stripped in
    p0 <- index parts 0 ;~
    section_type <- index (split_ws (strip p0)) 0 ;~
    module_tag <- index_last (split_ws (strip p0)) ;~
    Ok (open_section co module_tag
          (mkSection section_type (Some module_tag) [] (Some [])) st)
  else
    props <- _parse_property line_stripped (o_properties (oheap st !!! co)) ;~
    Ok (mkPstate (alter (set_o_properties props) co (oheap st))
          (sheap st) (objects st) (current_object st) (current_section st)
          (section_stack st) (in_section st) (section_properties st)).

(** One iteration of the loop over the lines. *)
Definition parse_line (source_file : str) (st : pstate) (line_num : nat)
    (line : str) : result pstate :=
  let line_stripped := strip line in
  if negb (nonempty line_stripped) || startswith line_stripped (py ";") then
    Ok st
  else if _is_object_definition line_stripped then
    define_object source_file line_num line_stripped st
  else if decide (line_stripped = py "End") then
    end_statement st
  else
    match current_object st, in_section st, current_section st with
    | Some co, false, _ => object_line co line_stripped st
    | Some co, true, Some cs =>
        Ok (mkPstate (oheap st) (sheap st) (objects st) (current_object st)
              (current_section st) (section_stack st) (in_section st)
              (section_properties st ++ [line_stripped]))
    | _, _, _ => Ok st
    end.

(** [for line_num, line in enumerate(lines)], from line number [n]. *)
Fixpoint parse_lines (source_file : str) (lines : list str) (n : nat)
    (st : pstate) : result pstate :=
  match lines with
  | [] => Ok st
  | line :: rest =>
      st' <- parse_line source_file st n line ;~
      parse_lines source_file rest (S n) st'
  end.

(** Reading the returned [objects] dict through the heaps. *)
Definition resolve_object (st : pstate) (r : nat) : definition :=
  let o := oheap st !!! r in
  mkDefinition (o_type o) (o_name o) (o_source_file o) (o_properties o)
    ((fun '(k, sr) => (k, sheap st !!! sr)) <$> o_sections o)
    (o_line_number o).

Definition resolve (st : pstate) : list (str * definition) :=
  (fun '(k, r) => (k, resolve_object st r)) <$> objects st.

(** [parse_ini_content(content, source_file)] *)
Definition parse_ini_content (content : str) (source_file : str)
    : result (list (str * definition)) :=
  st <- parse_lines source_file (split_on NEWLINE content) 0 pstate_init ;~
  Ok (resolve st).

(** *** [_build_relationships] *)

Record relationships := mkRel {
  unit_weapons : list (str * list str);
  weapon_units : list (str * list str);
  unit_armor : list (str * item);
  unit_locomotor : list (str * str);
  unit_general : list (str * str);
  general_units : list (str * list str);
  upgrade_units : list (value * list str);
  unit_upgrades : list (str * list value);
  prerequisites : list (str * value);
  enables : list (str * list str)
}.

Definition relationships_init : relationships :=
  mkRel [] [] [] [] [] [] [] [] [] [].

(** [for x in v]: a string yields its characters, [None] is not
    iterable. *)
Definition iter (v : value) : result (list item) :=
  match v with
  | VNone => Raise TypeError
  | VStr s => Ok ((fun c => IStr [c]) <$> s)
  | VList l => Ok l
  end.

(** [if v:] *)
Definition truthy (v : value) : bool :=
  match v with
  | VNone => false
  | VStr s => nonempty s
  | VList l => nonempty l
  end.

(** [if k not in d: d[k] = []] followed by [d[k].append(x)] *)
Definition dict_append {K V} `{EqDecision K} (k : K) (x : V)
    (d : list (K * list V)) : list (K * list V) :=
  dict_set k (default [] (dict_get k d) ++ [x]) d.

(** [d.get(k, [])] on a property map *)
Definition get_or_empty (k : str) (props : list (str * value)) : value :=
  default (VList []) (dict_get k props).

(** The loop over [weapons]; the state is [(weapon_names, weapon_units)]. *)
Fixpoint weapons_loop (obj_name : str) (weapons : list item)
    (weapon_names : list str) (wu : list (str * list str))
    : result (list str * list (str * list str)) :=
  match weapons with
  | [] => Ok (weapon_names, wu)
  | weapon_info :: rest =>
      match weapon_info with
      | IStr _ => Raise AttributeError
      | IWeapon w =>
          let weapon_name := weapon w in
          if nonempty weapon_name then
            weapons_loop obj_name rest (weapon_names ++ [weapon_name])
              (dict_append weapon_name obj_name wu)
          else weapons_loop obj_name rest weapon_names wu
      end
  end.

(** The loop over [prereqs]: a weapon entry cannot be a dictionary key. *)
Fixpoint prereqs_loop (obj_name : str) (prereqs : list item)
    (en : list (str * list str)) : result (list (str * list str)) :=
  match prereqs with
  | [] => Ok en
  | IStr prereq :: rest =>
      prereqs_loop obj_name rest (dict_append prereq obj_name en)
  | IWeapon _ :: _ => Raise TypeError
  end.

Definition general_mapping : list (str * str) :=
  [(py "AmericaInfantry.ini", py "America");
   (py "AmericaVehicle.ini", py "America");
   (py "AmericaAir.ini", py "America");
   (py "ChinaInfantry.ini", py "China");
   (py "ChinaVehicle.ini", py "China");
   (py "ChinaAir.ini", py "China");
   (py "GLAInfantry.ini", py "GLA");
   (py "GLAVehicle.ini", py "GLA");
   (py "AirforceGeneral.ini", py "AirforceGeneral");
   (py "LaserGeneral.ini", py "LaserGeneral");
   (py "SuperweaponGeneral.ini", py "SuperweaponGeneral");
   (py "InfantryGeneral.ini", py "InfantryGeneral");
   (py "TankGeneral.ini", py "TankGeneral");
   (py "DemoGeneral.ini", py "DemoGeneral");
   (py "ChemicalGeneral.ini", py "ChemicalGeneral");
   (py "StealthGeneral.ini", py "StealthGeneral");
   (py "BossGeneral.ini", py "BossGeneral")].

Definition _extract_general_from_path (path : str) : option str :=
  match last (split_on BACKSLASH path) with
  | Some filename => dict_get filename general_mapping
  | None => None
  end.

(** The loop over [sections.items()] for upgrade edges; the state is
    [(unit_upgrades, upgrade_units)].  A list is not hashable. *)
Fixpoint upgrades_loop (obj_name : str) (sections : list (str * section))
    (uu : list (str * list value)) (upu : list (value * list str))
    : result (list (str * list value) * list (value * list str)) :=
  match sections with
  | [] => Ok (uu, upu)
  | (section_name, section_data) :: rest =>
      if decide (s_type section_data = py "ObjectCreationUpgrade") then
        match dict_get (py "TriggeredBy") (s_properties section_data) with
        | Some upgrade_name =>
            let uu := dict_append obj_name upgrade_name uu in
            match upgrade_name with
            | VList _ => Raise TypeError
            | _ =>
                upgrades_loop obj_name rest uu
                  (dict_append upgrade_name obj_name upu)
            end
        | None => upgrades_loop obj_name rest uu upu
        end
      else upgrades_loop obj_name rest uu upu
  end.

(** The blocks of the body of the loop over [all_objects.items()], in
    source order. *)

(** Weapon relationships from the WeaponSet section:
    [(unit_weapons, weapon_units)]. *)
Definition weapons_block (obj_name : str) (obj_data : definition)
    (r : relationships) : result (list (str * list str) * list (str * list str)) :=
  match dict_get (py "WeaponSet") (d_sections obj_data) with
  | Some weapon_set =>
      weapons <- iter (get_or_empty (py "weapons") (s_properties weapon_set)) ;~
      ' (weapon_names, wu) <- weapons_loop obj_name weapons [] (weapon_units r) ;~
      if nonempty weapon_names
      then Ok (dict_set obj_name weapon_names (unit_weapons r), wu)
      else Ok (unit_weapons r, wu)
  | None => Ok (unit_weapons r, weapon_units r)
  end.

(** Armor from the ArmorSet section: the first armor only. *)
Definition armor_block (obj_name : str) (obj_data : definition)
    (r : relationships) : list (str * item) :=
  match dict_get (py "ArmorSet") (d_sections obj_data) with
  | Some armor_set =>
      match get_or_empty (py "armors") (s_properties armor_set) with
      | VStr (c :: _) => dict_set obj_name (IStr [c]) (unit_armor r)
      | VList (x :: _) => dict_set obj_name x (unit_armor r)
      | _ => unit_armor r
      end
  | None => unit_armor r
  end.

(** Locomotor from the properties: the last token of a string value with
    a space and at least two tokens. *)
Definition locomotor_block (obj_name : str) (obj_data : definition)
    (r : relationships) : list (str * str) :=
  match dict_get (py "Locomotor") (d_properties obj_data) with
  | Some (VStr loco_value) =>
      if contains (py " ") loco_value then
        let parts := split_ws loco_value in
        if (2 <=? length parts)%nat then
          match last parts with
          | Some locomotor_name =>
              dict_set obj_name locomotor_name (unit_locomotor r)
          | None => unit_locomotor r
          end
        else unit_locomotor r
      else unit_locomotor r
  | _ => unit_locomotor r
  end.

(** Prerequisites from the Prerequisites section:
    [(prerequisites, enables)]. *)
Definition prerequisites_block (obj_name : str) (obj_data : definition)
    (r : relationships) : result (list (str * value) * list (str * list str)) :=
  match dict_get (py "Prerequisites") (d_sections obj_data) with
  | Some prereq_section =>
      let prereqs :=
        get_or_empty (py "prerequisites") (s_properties prereq_section) in
      if truthy prereqs then
        items <- iter prereqs ;~
        en <- prereqs_loop obj_name items (enables r) ;~
        Ok (dict_set obj_name prereqs (prerequisites r), en)
      else Ok (prerequisites r, enables r)
  | None => Ok (prerequisites r, enables r)
  end.

(** General from the source file: [(unit_general, general_units)]. *)
Definition general_block (obj_name : str) (obj_data : definition)
    (r : relationships) : list (str * str) * list (str * list str) :=
  if startswith (d_source_file obj_data) (py "Object") then
    match _extract_general_from_path (d_source_file obj_data) with
    | Some general =>
        if nonempty general then
          (dict_set obj_name general (unit_general r),
           dict_append general obj_name (general_units r))
        else (unit_general r, general_units r)
    | None => (unit_general r, general_units r)
    end
  else (unit_general r, general_units r).

Definition build_one (obj_name : str) (obj_data : definition)
    (r : relationships) : result relationships :=
  ' (uw, wu) <- weapons_block obj_name obj_data r ;~
  let ua := armor_block obj_name obj_data r in
  let ul := locomotor_block obj_name obj_data r in
  ' (pr, en) <- prerequisites_block obj_name obj_data r ;~
  let '(ug, gu) := general_block obj_name obj_data r in
  ' (uu, upu) <- upgrades_loop obj_name (d_sections obj_data)
                   (unit_upgrades r) (upgrade_units r) ;~
  Ok (mkRel uw wu ua ul ug gu upu uu pr en).

Fixpoint build_loop (items : list (str * definition)) (r : relationships)
    : result relationships :=
  match items with
  | [] => Ok r
  | (obj_name, obj_data) :: rest =>
      r' <- build_one obj_name obj_data r ;~ build_loop rest r'
  end.

(** [_build_relationships(all_objects)]: the value of
    [self.relationships] when the call returns. *)
Definition _build_relationships (all_objects : list (str * definition))
    : result relationships :=
  build_loop all_objects relationships_init.

(** *** [parse_all_ini_files] *)

(** [s.endswith(suf)] *)
Definition endswith {A} `{EqDecision A} (s suf : list A) : bool :=
  bool_decide (drop (length s - length suf) s = suf).
Arguments endswith : simpl never.

(** [all_objects.update(objects)] *)
Definition dict_update {K V} `{EqDecision K} (d new : list (K * V)) : list (K * V) :=
  fold_left (fun acc kv => dict_set kv.1 kv.2 acc) new d.

Section ParseAll.

(** [str.lower] and [bytes.decode('utf-8', errors='ignore')] belong to the
    language; the parser is modelled for any two such functions. *)
Variable lower : str -> str.
Variable decode_utf8_ignore : bytes -> str.

(** The body of the [try]: decoding an entry without payload is an
    [AttributeError]. *)
Definition parse_entry (entry : BIG.FileEntry) : result (list (str * definition)) :=
  match BIG.data entry with
  | None => Raise AttributeError
  | Some d => parse_ini_content (decode_utf8_ignore d) (BIG.path entry)
  end.

(** The loop over the entries; [except: pass] drops a file that raised. *)
Fixpoint collect (entries : list BIG.FileEntry)
    (all_objects : list (str * definition)) : list (str * definition) :=
  match entries with
  | [] => all_objects
  | entry :: rest =>
      if endswith (lower (BIG.path entry)) (py ".ini") then
        match parse_entry entry with
        | Ok objects => collect rest (dict_update all_objects objects)
        | Raise _ => collect rest all_objects
        end
      else collect rest all_objects
  end.

(** [parse_all_ini_files(big_editor)] on the entries of the archive: the
    returned map and the value of [self.relationships]. *)
Definition parse_all_ini_files (entries : list BIG.FileEntry)
    : result (list (str * definition) * relationships) :=
  let all_objects := collect entries [] in
  r <- _build_relationships all_objects ;~
  Ok (all_objects, r).

End ParseAll.

(** *** Notions and inputs used to state the properties of the parser *)

(** A unit whose WeaponSet lists a gun and its muzzle effect. *)
Definition unit_text : str :=
  text ["Object Tank"%string;
        "  WeaponSet"%string;
        "    Weapon = PRIMARY CrusaderTankGun"%string;
        "    Weapon = SECONDARY CrusaderTankGunFX"%string;
        "  End"%string;
        "End"%string].

(** A module header whose left side is empty. *)
Definition empty_module_head_text : str :=
  text ["Object Foo"%string;
        "= ModuleTag_01"%string;
        "End"%string].

(** A multi-valued key repeated in the [key = value] form, in the
    [key value] form, and in both. *)
Definition show_eq_text : str :=
  text ["Object T"%string;
        "  ShowSubObject = A"%string;
        "  ShowSubObject = B"%string;
        "End"%string].

Definition show_plain_text : str :=
  text ["Object T"%string;
        "  ShowSubObject A"%string;
        "  ShowSubObject B"%string;
        "End"%string].

Definition show_mixed_text : str :=
  text ["Object T"%string;
        "  ShowSubObject = A"%string;
        "  ShowSubObject B"%string;
        "End"%string].

(** A unit whose open WeaponSet meets a module header that begins with
    an object keyword. *)
Definition keyword_module_text : str :=
  text ["Object Tank"%string;
        "  WeaponSet"%string;
        "    Conditions = None"%string;
        "    Upgrade = Foo ModuleTag_01"%string;
        "  End"%string;
        "End"%string].

(** Two units: the WeaponSet of Tank names a gun that no definition
    provides; Jeep has a module whose tag is the word WeaponSet, so its
    section is stored under that key with [weapons] as a plain string. *)
Definition string_weapons_text : str :=
  text ["Object Tank"%string; "  WeaponSet"%string]
  ++ [10%N] ++ py "    Weapon" ++ [9%N] ++ py "= PRIMARY Gun" ++ [10%N]
  ++ text ["  End"%string;
           "End"%string;
           "Object Jeep"%string;
           "  Foo WeaponSet = ModuleTag_01"%string;
           "    weapons = abc"%string;
           "  End"%string;
           "End"%string].

(** The line [Weapon = <SLOT> <name>]. *)
Definition weapon_line (slot name : str) : str :=
  py "Weapon = " ++ slot ++ py " " ++ name.

(** A token: a non-empty string without whitespace. *)
Definition token (t : str) : Prop :=
  t <> [] /\ Forall (fun c => is_space c = false) t.

(** The [weapons] list a section ends up with. *)
Definition weapons_of (sec : section) : option value :=
  dict_get (py "weapons") (s_properties sec).

(** The lines the parser takes for module headers when no section is
    open: not a comment, not an object definition, with [=] and the
    marker. *)
Definition is_module_line (l : str) : bool :=
  negb (startswith l (py ";")) && negb (_is_object_definition l)
  && contains (py "=") l && contains (py "ModuleTag_") l.

(** What the loop maintains about the open-section bookkeeping. *)
Definition stack_inv (st : pstate) : Prop :=
  in_section st = nonempty (section_stack st) /\
  (length (section_stack st) <= 1)%nat /\
  (in_section st = true ->
   is_Some (current_section st) /\ is_Some (current_object st)).

(** Appending a line to the buffer of the open section. *)
Definition buffer_line (l : str) (st : pstate) : pstate :=
  mkPstate (oheap st) (sheap st) (objects st) (current_object st)
    (current_section st) (section_stack st) (in_section st)
    (section_properties st ++ [l]).

(** Every forward edge has its reverse edge. *)
Definition symmetric (r : relationships) : Prop :=
  (forall u ws w,
     dict_get u (unit_weapons r) = Some ws -> w ∈ ws ->
     exists us, dict_get w (weapon_units r) = Some us /\ u ∈ us) /\
  (forall o v items p,
     dict_get o (prerequisites r) = Some v -> iter v = Ok items ->
     IStr p ∈ items ->
     exists os, dict_get p (enables r) = Some os /\ o ∈ os).

Definition is_weapon (x : item) : bool :=
  match x with IWeapon _ => true | IStr _ => false end.
Definition is_str (x : item) : bool :=
  match x with IStr _ => true | IWeapon _ => false end.

(** A definition shaped as the typed post-processing leaves it: the
    [weapons] of its WeaponSet is a list of weapon entries, the
    [prerequisites] of its Prerequisites section holds no weapon entry,
    and no [TriggeredBy] is a list. *)
Definition def_ok (d : definition) : bool :=
  match dict_get (py "WeaponSet") (d_sections d) with
  | Some sec =>
      match get_or_empty (py "weapons") (s_properties sec) with
      | VList l => forallb is_weapon l
      | VStr s => negb (nonempty s)
      | VNone => false
      end
  | None => true
  end
  && match dict_get (py "Prerequisites") (d_sections d) with
     | Some sec =>
         match get_or_empty (py "prerequisites") (s_properties sec) with
         | VList l => forallb is_str l
         | _ => true
         end
     | None => true
     end
  && forallb (fun ks =>
       match dict_get (py "TriggeredBy") (s_properties ks.2) with
       | Some (VList _) => false
       | _ => true
       end) (d_sections d).

(** The name has no entry in any of the maps keyed by the referring
    definition. *)
Definition absent (k : str) (r : relationships) : Prop :=
  dict_get k (unit_weapons r) = None /\
  dict_get k (unit_armor r) = None /\
  dict_get k (unit_locomotor r) = None /\
  dict_get k (unit_general r) = None /\
  dict_get k (unit_upgrades r) = None /\
  dict_get k (prerequisites r) = None.

(** A tank whose WeaponSet names a gun that no definition provides. *)
Definition dangling_objects : list (str * definition) :=
  [(py "Tank",
    mkDefinition (py "Object") (py "Tank") (py "a.ini") []
      [(py "WeaponSet",
        mkSection (py "WeaponSet") None
          [(py "weapons", VList [IWeapon (mkWeapon (py "PRIMARY") (py "Gun"))]);
           (py "conditions", VNone)] None);
       (py "Prerequisites",
        mkSection (py "Prerequisites") None
          [(py "prerequisites", VList [IStr (py "Factory")])] None)] 0)].

(** What one [Weapon = <SLOT> <name>] line adds to the list. *)
Definition weapon_entry (slot name : str) : list item :=
  if contains (py "FX") name then [] else [IWeapon (mkWeapon slot name)].

(** Lists stored in a map only grow. *)
Definition grows (d d' : list (str * list str)) : Prop :=
  forall k l, dict_get k d = Some l ->
    exists l', dict_get k d' = Some l' /\ forall x, x ∈ l -> x ∈ l'.

(** The maps keyed by the referring definition agree at [k]. *)
Definition same_at (k : str) (r r' : relationships) : Prop :=
  dict_get k (unit_weapons r') = dict_get k (unit_weapons r) /\
  dict_get k (unit_armor r') = dict_get k (unit_armor r) /\
  dict_get k (unit_locomotor r') = dict_get k (unit_locomotor r) /\
  dict_get k (unit_general r') = dict_get k (unit_general r) /\
  dict_get k (unit_upgrades r') = dict_get k (unit_upgrades r) /\
  dict_get k (prerequisites r') = dict_get k (prerequisites r).

(** *** Notions used for further properties of the parser *)

(** An object dict stored under [k]: it carries that name, one of the
    keywords as its type and the source label, and the name has no [=]. *)
Definition named_ok (src k : str) (o : object) : Prop :=
  o_name o = k /\ o_type o ∈ keywords /\ o_source_file o = src /\ EQ ∉ k.

(** What the loop maintains about the map of objects: distinct keys, each
    a live reference to an object dict that is [named_ok]. *)
Definition objs_inv (src : str) (st : pstate) : Prop :=
  NoDup (objects st).*1 /\
  Forall (fun kr => (kr.2 < length (oheap st))%nat /\
                    named_ok src kr.1 (oheap st !!! kr.2)) (objects st).

(** The same for an entry of the returned map. *)
Definition def_named (src : str) (kd : str * definition) : Prop :=
  d_name kd.2 = kd.1 /\ d_type kd.2 ∈ keywords /\
  d_source_file kd.2 = src /\ EQ ∉ kd.1.

(** The general edges and the upgrade edges have their reverse edges,
    and generals come from the file-name table. *)
Definition symmetric_more (r : relationships) : Prop :=
  (forall u g, dict_get u (unit_general r) = Some g ->
     g ∈ general_mapping.*2 /\
     exists us, dict_get g (general_units r) = Some us /\ u ∈ us) /\
  (forall u ups v, dict_get u (unit_upgrades r) = Some ups -> v ∈ ups ->
     exists us, dict_get v (upgrade_units r) = Some us /\ u ∈ us).

(** A soldier defined in a file of the table, with an upgrade module. *)
Definition general_objects : list (str * definition) :=
  [(py "Ranger",
    mkDefinition (py "Object") (py "Ranger") (py "Object\AmericaInfantry.ini") []
      [(py "Up",
        mkSection (py "ObjectCreationUpgrade") (Some (py "Up"))
          [(py "TriggeredBy", VStr (py "Upgrade_Flash"))] (Some []))] 0)].

(** [str.lower] on ASCII text, and three archive entries: a config file,
    a config file that makes the parser raise, and a config file that
    defines the same name as the first. *)
Definition ascii_lower (s : str) : str :=
  (fun c => if (65 <=? c)%N && (c <=? 90)%N then (c + 32)%N else c) <$> s.

Definition ini_entries : list BIG.FileEntry :=
  [BIG.mkFileEntry 0 0 (py "Data\A.INI")
     (Some (b_ "Object Tank" ++ [Byte.x0a] ++ b_ "  Speed = 1" ++ [Byte.x0a]
            ++ b_ "End")) false;
   BIG.mkFileEntry 0 0 (py "Data\b.ini")
     (Some (b_ "Object Jeep" ++ [Byte.x0a] ++ b_ "= ModuleTag_01" ++ [Byte.x0a]
            ++ b_ "End")) false;
   BIG.mkFileEntry 0 0 (py "Data\c.ini")
     (Some (b_ "Object Tank" ++ [Byte.x0a] ++ b_ "  Speed = 2" ++ [Byte.x0a]
            ++ b_ "End")) false].

(** Every reverse edge has its forward edge, and the members of the
    reverse lists are among the names [S]. *)
Definition reverse_sound (S : list str) (r : relationships) : Prop :=
  (forall w us u,
     dict_get w (weapon_units r) = Some us -> u ∈ us ->
     u ∈ S /\ exists ws, dict_get u (unit_weapons r) = Some ws /\ w ∈ ws) /\
  (forall p os o,
     dict_get p (enables r) = Some os -> o ∈ os ->
     o ∈ S /\ exists v items, dict_get o (prerequisites r) = Some v /\
                              iter v = Ok items /\ IStr p ∈ items) /\
  (forall g us u,
     dict_get g (general_units r) = Some us -> u ∈ us ->
     u ∈ S /\ dict_get u (unit_general r) = Some g) /\
  (forall v us u,
     dict_get v (upgrade_units r) = Some us -> u ∈ us ->
     u ∈ S /\ exists ups, dict_get u (unit_upgrades r) = Some ups /\ v ∈ ups).

(** The two kinds of line at which the parser can raise: a module header
    whose part before the first [=] is blank, and a line that appends to
    a key ([End], which post-processes the buffer, or a line without [=]
    that starts with an accumulating key). *)
Definition blank_module_head (l : str) : Prop :=
  contains (py "=") l = true /\ contains (py "ModuleTag_") l = true /\
  exists p0 rest, split_on EQ l = p0 :: rest /\ split_ws (strip p0) = [].

Definition appends_to_key (l : str) : Prop :=
  l = py "End" \/
  (contains (py "=") l = false /\
   exists key rest, split_ws1 l = key :: rest /\ key ∈ multi_valued).

End INI.

(** * Properties of the container codec *)

Module BIGFacts.
Import BIG.
Open Scope Z_scope.

(** ** Which exceptions a statement can raise *)

Lemma raises_only_ret {A} P (a : A) : raises_only P (ret a).
Proof. intros w e H. discriminate. Qed.

Lemma raises_only_bind {A B} P (m : M A) (k : A -> M B) :
  raises_only P m -> (forall a, raises_only P (k a)) -> raises_only P (bind m k).
Proof.
  intros Hm Hk w e. unfold bind. specialize (Hm w).
  destruct (m w) as [w' [a|e']]; simpl in *.
  - apply Hk.
  - intros [= <-]. by apply Hm.
Qed.

Lemma raises_only_lift {A} (P : exn -> Prop) (r : result A) :
  (forall e, r = Raise e -> P e) -> raises_only P (lift r).
Proof. intros H w e. simpl. apply H. Qed.

Lemma raises_only_with_self P g : raises_only P (with_self g).
Proof. intros w e H. discriminate. Qed.

Lemma raises_only_with_heap P g : raises_only P (with_heap g).
Proof. intros w e H. discriminate. Qed.

Lemma raises_only_get_world P : raises_only P get_world.
Proof. intros w e H. discriminate. Qed.

Lemma raises_only_alloc P x : raises_only P (alloc x).
Proof. intros w e H. discriminate. Qed.

Lemma raises_only_for_each {A} P (l : list A) body :
  (forall x, raises_only P (body x)) -> raises_only P (for_each l body).
Proof.
  intros Hb. induction l as [|x l IH]; simpl.
  - apply raises_only_ret.
  - apply raises_only_bind; auto.
Qed.

Lemma read_uint32_be_raises d e : read_uint32_be d = Raise e -> e = StructError.
Proof. destruct d as [|? [|? [|? [|? [|? ?]]]]]; simpl; congruence. Qed.

Lemma read_uint32_le_raises d e : read_uint32_le d = Raise e -> e = StructError.
Proof. destruct d as [|? [|? [|? [|? [|? ?]]]]]; simpl; congruence. Qed.

Lemma read_records_raises skip n file :
  raises_only (fun e => e = StructError) (read_records skip n file).
Proof.
  revert file. induction n as [|n IH]; intros file; simpl.
  - apply raises_only_ret.
  - apply raises_only_bind; [apply raises_only_lift, read_uint32_be_raises|].
    intros o. apply raises_only_bind; [apply raises_only_lift, read_uint32_be_raises|].
    intros sz. destruct (read_string _) as [p file'].
    apply raises_only_bind; [apply raises_only_alloc|]. intros r.
    apply raises_only_bind; [apply raises_only_with_self|]. intros _. apply IH.
Qed.

(** The part of [load] after the magic test can only fail on a short
    read. *)
Lemma load_body_raises (hd : bytes) (file : BytesIO) :
  raises_only (fun e => e = StructError)
    (let '(d, file) := bio_read 4 file in
     fs <~ lift (read_uint32_le d) ;~
     run with_self (set_file_size fs) ;~
     let '(d, file) := bio_read 4 file in
     file_count <~ lift (read_uint32_be d) ;~
     file <~ (if decide (hd = b_ "BIG5") then
                read_records 1 (Z.to_nat file_count) (bio_seek_cur 3 file)
              else
                read_records 0 (Z.to_nat file_count) (bio_seek_cur 4 file)) ;~
     w <~ get_world ;~
     for_each (entries (self w)) (fun r =>
       w <~ get_world ;~
       let e := heap w !!! r in
       let file := bio_seek (Z.to_nat (offset e)) file in
       let '(d, _) := bio_read (Z.to_nat (size e)) file in
       with_heap (alter (set_data (Some d)) r))).
Proof.
  destruct (bio_read 4 file) as [d file1].
  apply raises_only_bind; [apply raises_only_lift, read_uint32_le_raises|].
  intros fs. apply raises_only_bind; [apply raises_only_with_self|]. intros _.
  destruct (bio_read 4 file1) as [d' file2].
  apply raises_only_bind; [apply raises_only_lift, read_uint32_be_raises|].
  intros n. apply raises_only_bind.
  { destruct (decide _); apply read_records_raises. }
  intros file3. apply raises_only_bind; [apply raises_only_get_world|].
  intros w. apply raises_only_for_each. intros r.
  apply raises_only_bind; [apply raises_only_get_world|]. intros w'.
  cbv zeta. destruct (bio_read _ _). apply raises_only_with_heap.
Qed.

Lemma load_unfold (B : bytes) (w : World) :
  load (Some B) w =
  let w1 := mkWorld (heap w) (set_header (take 4 B) (set_original_data B (self w)))
              (disk w) (io w) in
  if startswith (take 4 B) (b_ "BIG") then
    (let '(d, file) := bio_read 4 (mkBytesIO B (length (take 4 B))) in
     fs <~ lift (read_uint32_le d) ;~
     run with_self (set_file_size fs) ;~
     let '(d, file) := bio_read 4 file in
     file_count <~ lift (read_uint32_be d) ;~
     file <~ (if decide (take 4 B = b_ "BIG5") then
                read_records 1 (Z.to_nat file_count) (bio_seek_cur 3 file)
              else
                read_records 0 (Z.to_nat file_count) (bio_seek_cur 4 file)) ;~
     w <~ get_world ;~
     for_each (entries (self w)) (fun r =>
       w <~ get_world ;~
       let e := heap w !!! r in
       let file := bio_seek (Z.to_nat (offset e)) file in
       let '(d, _) := bio_read (Z.to_nat (size e)) file in
       with_heap (alter (set_data (Some d)) r))) w1
  else (w1, Raise ValueError).
Proof.
  unfold load. cbn [bio_read buf pos]. rewrite drop_0.
  unfold bind at 1. cbn [with_self]. unfold bind at 1. cbn [with_self].
  cbn [heap self disk io]. destruct (startswith _ _); reflexivity.
Qed.

Lemma load_rejects_iff (B : bytes) (w : World) :
  snd (load (Some B) w) = Raise ValueError <->
  startswith (take 4 B) (b_ "BIG") = false.
Proof.
  rewrite load_unfold. cbv zeta. destruct (startswith _ _) eqn:E.
  - split; [|done]. intros H. by apply load_body_raises in H.
  - done.
Qed.

(** ** Magic check of [load] *)

(** What the guard of [load] tests: [ValueError] is raised exactly when
    the first four bytes do not begin with the three bytes "BIG"; in that
    case no entry object is created and the entry list is untouched.  The
    three documented magics pass the test. *)
Lemma load_magic_prefix (B : bytes) (w : World) :
  (snd (load (Some B) w) = Raise ValueError <->
   startswith (take 4 B) (b_ "BIG") = false)
  /\ (startswith (take 4 B) (b_ "BIG") = false ->
      heap (fst (load (Some B) w)) = heap w /\
      entries (self (fst (load (Some B) w))) = entries (self w))
  /\ (take 4 B = b_ "BIG4" \/ take 4 B = b_ "BIGF" \/ take 4 B = b_ "BIG5" ->
      snd (load (Some B) w) <> Raise ValueError).
Proof.
  split; [apply load_rejects_iff|]. split.
  - intros H. rewrite load_unfold. cbv zeta. rewrite H. done.
  - intros H E. apply load_rejects_iff in E.
    destruct H as [H|[H|H]]; rewrite H in E; vm_compute in E; discriminate.
Qed.

Lemma load_magic_prefix_witness :
  snd (load (Some (b_ "BAG4....")) (init_world IoOk)) = Raise ValueError /\
  entries (self (fst (load (Some (b_ "BAG4....")) (init_world IoOk)))) = [] /\
  snd (load (Some (b_ "BIG4")) (init_world IoOk)) <> Raise ValueError.
Proof.
  pose proof (load_magic_prefix (b_ "BAG4....") (init_world IoOk)) as (H1 & H2 & _).
  pose proof (load_magic_prefix (b_ "BIG4") (init_world IoOk)) as (_ & _ & H3).
  split; [apply H1; reflexivity|]. split; [apply H2; reflexivity|].
  apply H3. left. reflexivity.
Defined.

(** C3 fails on the code: the magic "BIGX" is none of the three
    recognized ones, yet [load] does not reject the archive: it returns
    normally. *)
Theorem load_accepts_unrecognized_magic :
  take 4 bigx_archive <> b_ "BIG4" /\
  take 4 bigx_archive <> b_ "BIGF" /\
  take 4 bigx_archive <> b_ "BIG5" /\
  snd (load (Some bigx_archive) (init_world IoOk)) = Ok tt.
Proof. vm_compute. repeat split; discriminate. Qed.

(** ** The reference invariant *)

Lemma wf_init env : wf (init_world env).
Proof. split; simpl; constructor. Qed.

Lemma filter_ne_id (x : nat) (l : list nat) :
  x ∉ l -> filter (fun r => r <> x) l = l.
Proof.
  induction l as [|y l IH]; intros Hx; [done|].
  apply not_elem_of_cons in Hx as [Hxy Hx].
  rewrite filter_cons_True by congruence. by rewrite IH.
Qed.

Lemma list_remove_spec (x : nat) (l : list nat) :
  x ∈ l -> NoDup l ->
  list_remove x l = Ok (filter (fun r => r <> x) l).
Proof.
  induction l as [|y l IH]; intros Hin Hnd.
  - by apply elem_of_nil in Hin.
  - apply NoDup_cons in Hnd as [Hy Hnd]. simpl.
    destruct (decide (y = x)) as [->|Hne].
    + rewrite filter_cons_False by naive_solver. by rewrite filter_ne_id.
    + apply elem_of_cons in Hin as [->|Hin]; [done|].
      rewrite IH by done. simpl. by rewrite filter_cons_True.
Qed.

Lemma add_file_run (p : str) (d : bytes) (w : World) :
  add_file p d w =
  (mkWorld (heap w ++ [mkFileEntry 0 (len d) p (Some d) true])
     (set_entries (entries (self w) ++ [length (heap w)]) (self w))
     (disk w) (io w),
   Ok (length (heap w))).
Proof.
  unfold add_file, bind, alloc, with_heap, entries_append, with_self, ret.
  cbn [heap self disk io]. repeat f_equal.
  rewrite alter_app_r_alt by lia. rewrite Nat.sub_diag. reflexivity.
Qed.

Lemma update_file_run (e : nat) (d : bytes) (w : World) :
  update_file e d w =
  (mkWorld
     (alter (fun x => mkFileEntry (offset x) (len d) (path x) (Some d) true) e (heap w))
     (self w) (disk w) (io w),
   Ok tt).
Proof.
  unfold update_file, bind, with_heap. cbn [heap self disk io].
  rewrite !list_alter_alter_eq. reflexivity.
Qed.

Lemma remove_file_run (e : nat) (w : World) :
  e ∈ entries (self w) -> NoDup (entries (self w)) ->
  remove_file e w =
  (mkWorld (heap w)
     (set_entries (filter (fun r => r <> e) (entries (self w))) (self w))
     (disk w) (io w),
   Ok tt).
Proof.
  intros Hin Hnd. unfold remove_file, bind, get_world, lift, with_self.
  rewrite list_remove_spec by done. reflexivity.
Qed.

(** The mutations keep the invariant. *)
Lemma wf_add_file p d w : wf w -> wf (fst (add_file p d w)).
Proof.
  intros [Hnd Hlt]. rewrite add_file_run. split; simpl.
  - apply NoDup_app. split; [done|]. split; [|apply NoDup_singleton].
    intros x Hx ->%list_elem_of_singleton.
    rewrite Forall_forall in Hlt. apply Hlt in Hx. lia.
  - rewrite length_app. simpl. apply Forall_app. split.
    + eapply Forall_impl; [exact Hlt|]. simpl. intros; lia.
    + repeat constructor. lia.
Qed.

Lemma wf_remove_file e w : e ∈ entries (self w) -> wf w -> wf (fst (remove_file e w)).
Proof.
  intros Hin [Hnd Hlt]. rewrite remove_file_run by done. split; simpl.
  - by apply NoDup_filter.
  - apply Forall_forall. intros x [_ Hx]%list_elem_of_filter.
    rewrite Forall_forall in Hlt. by apply Hlt.
Qed.

Lemma wf_update_file e d w : wf w -> wf (fst (update_file e d w)).
Proof.
  intros [Hnd Hlt]. rewrite update_file_run. split; simpl; [done|].
  by rewrite length_alter.
Qed.

(** ** Mutation operations *)

(** C5: [add_file] appends exactly one fresh entry with the given path,
    payload, size and a set modified flag; [remove_file] of a listed entry
    takes that entry (and only it) out of the list; [update_file] replaces
    payload and size and sets the modified flag; every other entry object
    is left as it was. *)
Theorem crud_postconditions (w : World) :
  wf w ->
  (forall p d, exists w',
      add_file p d w = (w', Ok (length (heap w))) /\
      entries (self w') = entries (self w) ++ [length (heap w)] /\
      (length (heap w) ∉ entries (self w)) /\
      heap w' !! length (heap w) = Some (mkFileEntry 0 (len d) p (Some d) true) /\
      (forall r, r <> length (heap w) -> heap w' !! r = heap w !! r))
  /\ (forall e, e ∈ entries (self w) -> exists w',
      remove_file e w = (w', Ok tt) /\
      (e ∉ entries (self w')) /\
      entries (self w') = filter (fun r => r <> e) (entries (self w)) /\
      heap w' = heap w)
  /\ (forall e d2, e ∈ entries (self w) -> exists w' old,
      update_file e d2 w = (w', Ok tt) /\
      heap w !! e = Some old /\
      heap w' !! e = Some (mkFileEntry (offset old) (len d2) (path old) (Some d2) true) /\
      (forall r, r <> e -> heap w' !! r = heap w !! r) /\
      entries (self w') = entries (self w)).
Proof.
  intros [Hnd Hlt]. rewrite Forall_forall in Hlt. split; [|split].
  - intros p d. eexists. split; [apply add_file_run|]. simpl.
    split; [done|]. split; [intros Hx; apply Hlt in Hx; lia|]. split.
    + rewrite lookup_app_r by lia. by rewrite Nat.sub_diag.
    + intros r Hr. destruct (decide (r < length (heap w))%nat).
      * by rewrite lookup_app_l.
      * rewrite !lookup_ge_None_2; [done|lia|rewrite length_app; simpl; lia].
  - intros e He. eexists. split; [by apply remove_file_run|]. simpl.
    split; [|done]. rewrite list_elem_of_filter. intros [Hne _]. by apply Hne.
  - intros e d2 He. destruct (lookup_lt_is_Some_2 (heap w) e) as [old Hold].
    { by apply Hlt. }
    eexists _, old. split; [apply update_file_run|]. simpl.
    split; [done|]. split.
    + by rewrite list_lookup_alter_eq, Hold.
    + split; [|done]. intros r Hr. by rewrite list_lookup_alter_ne.
Qed.

Lemma crud_postconditions_witness :
  exists w', remove_file 0%nat (one_entry_world IoOk) = (w', Ok tt) /\
             0%nat ∉ entries (self w').
Proof.
  destruct (crud_postconditions (one_entry_world IoOk)) as (_ & Hrm & _).
  { split; vm_compute; [apply NoDup_singleton|repeat constructor]. }
  destruct (Hrm 0%nat) as (w' & H1 & H2 & _).
  { vm_compute. left. }
  exists w'. split; assumption.
Defined.

(** ** What [save] does to the offsets *)

Lemma lookup_total_alt (h : list FileEntry) r : h !!! r = default inhabitant (h !! r).
Proof. apply list_lookup_total_alt. Qed.

Lemma sizes_alter_set_offset h r o r' :
  sizes (alter (set_offset o) r h) r' = sizes h r'.
Proof.
  unfold sizes. rewrite !lookup_total_alt, list_lookup_alter.
  destruct (decide (r = r')) as [->|]; [|done]. destruct (h !! r'); reflexivity.
Qed.

Lemma layout_ext sz sz' es start :
  (forall r, sz r = sz' r) -> layout sz es start = layout sz' es start.
Proof.
  intros H. revert start. induction es as [|r es IH]; intros start; simpl; [done|].
  by rewrite IH, H.
Qed.

Lemma layout_end_ext sz sz' es start :
  (forall r, sz r = sz' r) -> layout_end sz es start = layout_end sz' es start.
Proof.
  intros H. unfold layout_end. revert start.
  induction es as [|r es IH]; intros start; simpl; [done|]. by rewrite IH, H.
Qed.

Lemma update_offsets_spec es : forall start w,
  exists h',
    update_offsets es start w =
      (mkWorld h' (self w) (disk w) (io w),
       Ok (layout_end (sizes (heap w)) es start)) /\
    length h' = length (heap w) /\
    (forall r, exists o, h' !! r = set_offset o <$> heap w !! r) /\
    (forall r, r ∉ es -> h' !! r = heap w !! r) /\
    (NoDup es -> forall i r, es !! i = Some r -> (r < length (heap w))%nat ->
       offset <$> h' !! r = layout (sizes (heap w)) es start !! i).
Proof.
  induction es as [|r es IH]; intros start w.
  - exists (heap w). split; [by destruct w|]. split; [done|]. split.
    { intros r. exists (offset (heap w !!! r)). rewrite lookup_total_alt.
      destruct (heap w !! r) as [[]|]; done. }
    split; [done|]. intros _ i r Hi. by rewrite lookup_nil in Hi.
  - simpl. unfold bind at 1. cbn [with_heap]. unfold bind at 1. cbn [get_world heap].
    destruct (IH (start + size (alter (set_offset start) r (heap w) !!! r))
                (mkWorld (alter (set_offset start) r (heap w)) (self w) (disk w) (io w)))
      as (h' & Hrun & Hlen & Hfr & Hout & Hoff).
    cbn [heap self disk io] in *.
    fold (sizes (alter (set_offset start) r (heap w)) r) in *.
    rewrite sizes_alter_set_offset in *.
    rewrite (layout_end_ext _ (sizes (heap w))) in Hrun
      by apply sizes_alter_set_offset.
    rewrite length_alter in *.
    exists h'. split; [exact Hrun|]. split; [done|]. split.
    { intros r'. destruct (Hfr r') as [o Ho].
      rewrite list_lookup_alter in Ho. destruct (decide (r = r')) as [->|].
      - exists o. rewrite Ho. by destruct (heap w !! r').
      - by exists o. }
    split.
    { intros r' [Hne Hr']%not_elem_of_cons. rewrite Hout by done.
      by rewrite list_lookup_alter_ne. }
    intros [Hr Hnd]%NoDup_cons [|i] r' Hi Hlt; simpl in Hi.
    + injection Hi as <-. rewrite Hout by done.
      rewrite list_lookup_alter_eq.
      destruct (lookup_lt_is_Some_2 (heap w) r Hlt) as [e He]. by rewrite He.
    + simpl. rewrite (Hoff Hnd i r' Hi) by lia.
      f_equal. apply layout_ext, sizes_alter_set_offset.
Qed.

Lemma keeps_bind {A B} (m : M A) (k : A -> M B) :
  keeps m -> (forall a, keeps (k a)) -> keeps (bind m k).
Proof.
  intros Hm Hk w. unfold bind. specialize (Hm w).
  destruct (m w) as [w' [a|e]]; simpl in *; [|done].
  destruct (Hk a w') as [H1 H2]. destruct Hm as [H3 H4]. split; congruence.
Qed.

Lemma keeps_ret {A} (a : A) : keeps (ret a).
Proof. done. Qed.
Lemma keeps_lift {A} (r : result A) : keeps (lift r).
Proof. done. Qed.
Lemma keeps_get_world : keeps get_world.
Proof. done. Qed.
Lemma keeps_fopen_wb : keeps fopen_wb.
Proof. intros w. unfold fopen_wb. by destruct (io w). Qed.
Lemma keeps_fwrite c : keeps (fwrite c).
Proof. intros w. unfold fwrite. by destruct (io w) as [| |[|n]]. Qed.
Lemma keeps_fwrite_obj c : keeps (fwrite_obj c).
Proof. destruct c; [apply keeps_fwrite|done]. Qed.
Lemma keeps_for_each {A} (l : list A) body :
  (forall x, keeps (body x)) -> keeps (for_each l body).
Proof.
  intros Hb. induction l as [|x l IH]; simpl; [apply keeps_ret|].
  apply keeps_bind; auto.
Qed.
Lemma keeps_write_record skip r : keeps (write_record skip r).
Proof.
  unfold write_record.
  repeat (first [ apply keeps_bind; [|intros ?] | apply keeps_fwrite
                | apply keeps_lift | apply keeps_get_world
                | apply keeps_ret | destruct skip ]).
Qed.

Lemma keeps_save_write w0 total : keeps (save_write w0 total).
Proof.
  unfold save_write.
  apply keeps_bind; [apply keeps_fopen_wb|intros _].
  apply keeps_bind; [apply keeps_fwrite_obj|intros _].
  apply keeps_bind; [apply keeps_lift|intros d].
  apply keeps_bind; [apply keeps_fwrite|intros _].
  apply keeps_bind; [apply keeps_lift|intros d'].
  apply keeps_bind; [apply keeps_fwrite|intros _].
  apply keeps_bind.
  { destruct (is_big5 _); (apply keeps_bind; [apply keeps_fwrite|intros _]);
      apply keeps_for_each, keeps_write_record. }
  intros _. apply keeps_for_each. intros r.
  apply keeps_bind; [apply keeps_get_world|intros w]. apply keeps_fwrite_obj.
Qed.

Lemma save_unfold (w : World) :
  save w =
  bind (update_offsets (entries (self w)) (metadata_end (self w) (heap w)))
       (save_write w) w.
Proof. reflexivity. Qed.

(** C2, as the code has it: [save] assigns every entry its new offset
    before the destination is opened, so when [save] fails every listed
    entry already carries its recomputed offset (payload start plus the
    sizes of the entries before it); nothing but offsets has changed in
    the heap, and the archive object is as before. *)
Theorem save_failure_offsets (w : World) (e : exn) :
  wf w -> snd (save w) = Raise e ->
  self (fst (save w)) = self w /\
  (forall r, exists o, heap (fst (save w)) !! r = set_offset o <$> heap w !! r) /\
  (forall i r, entries (self w) !! i = Some r ->
     offset <$> heap (fst (save w)) !! r =
     layout (sizes (heap w)) (entries (self w))
            (metadata_end (self w) (heap w)) !! i).
Proof.
  intros [Hnd Hlt] _. rewrite save_unfold. unfold bind.
  destruct (update_offsets_spec (entries (self w))
              (metadata_end (self w) (heap w)) w)
    as (h' & Hrun & Hlen & Hfr & Hout & Hoff).
  rewrite Hrun.
  destruct (keeps_save_write w
              (layout_end (sizes (heap w)) (entries (self w))
                 (metadata_end (self w) (heap w)))
              (mkWorld h' (self w) (disk w) (io w))) as [Hh Hs].
  rewrite Hh, Hs. cbn [heap self]. split; [done|]. split; [done|].
  intros i r Hi. apply Hoff; [done|done|].
  rewrite Forall_forall in Hlt. apply Hlt. by eapply list_elem_of_lookup_2.
Qed.

Lemma save_failure_offsets_witness :
  offset <$> heap (fst (save unwritable_world)) !! 0%nat = Some 40 /\
  offset <$> heap (fst (save unwritable_world)) !! 1%nat = Some 43.
Proof.
  destruct (save_failure_offsets unwritable_world IOError) as (_ & _ & H).
  - split; vm_compute; [|repeat constructor].
    apply NoDup_cons. split; [|apply NoDup_singleton].
    intros H. apply list_elem_of_singleton in H. discriminate.
  - reflexivity.
  - split; [exact (H 0%nat 0%nat eq_refl)|exact (H 1%nat 1%nat eq_refl)].
Defined.

(** C2 as stated fails on a loaded archive: the sample archive is loaded
    with its payloads at 44 and 40; saved to a destination that cannot be
    opened, [save] raises [IOError], the file on disk is as it was, and
    the two entries carry the offsets 40 and 43 all the same. *)
Lemma save_failure_rewrites_offsets :
  load (Some sample_archive) (fresh_world (Some sample_archive) IoOpenFails)
  = (unwritable_world, Ok tt) /\
  offset <$> entry_list unwritable_world = [44; 40] /\
  snd (save unwritable_world) = Raise IOError /\
  disk (fst (save unwritable_world)) = Some sample_archive /\
  offset <$> entry_list (fst (save unwritable_world)) = [40; 43].
Proof. vm_compute. repeat split. Qed.

(** ** Integers and strings on the wire *)

Lemma Z_of_byte_range b : 0 <= Z_of_byte b < 256.
Proof.
  unfold Z_of_byte. pose proof (Byte.to_N_bounded b). lia.
Qed.

Lemma Z_of_byte_of_Z z : Z_of_byte (byte_of_Z z) = z mod 256.
Proof.
  unfold Z_of_byte, byte_of_Z.
  pose proof (Z.mod_pos_bound z 256 eq_refl) as Hm.
  destruct (Byte.of_N (Z.to_N (z mod 256))) as [b|] eqn:E; simpl.
  - apply Byte.to_of_N in E. rewrite E. lia.
  - apply Byte.of_N_None_iff in E. lia.
Qed.

Lemma write_uint32_be_ok v : 0 <= v < 2 ^ 32 -> write_uint32_be v = Ok (be32 v).
Proof.
  intros H. unfold write_uint32_be.
  destruct (Z.leb_spec 0 v); [|lia]. destruct (Z.ltb_spec v (2 ^ 32)); [|lia]. done.
Qed.

Lemma write_uint32_le_ok v : 0 <= v < 2 ^ 32 -> write_uint32_le v = Ok (le32 v).
Proof.
  intros H. unfold write_uint32_le.
  destruct (Z.leb_spec 0 v); [|lia]. destruct (Z.ltb_spec v (2 ^ 32)); [|lia]. done.
Qed.

Lemma u32_digits v :
  0 <= v < 2 ^ 32 ->
  (v / 2 ^ 24) mod 256 * 2 ^ 24 + (v / 2 ^ 16) mod 256 * 2 ^ 16
  + (v / 2 ^ 8) mod 256 * 2 ^ 8 + v mod 256 = v.
Proof.
  intros H.
  change (2 ^ 24) with (256 * (256 * 256)). change (2 ^ 16) with (256 * 256).
  change (2 ^ 8) with 256. change (2 ^ 32) with (256 * (256 * (256 * 256))) in H.
  rewrite <- !Z.div_div by lia.
  pose proof (Z.div_mod v 256). pose proof (Z.mod_pos_bound v 256).
  pose proof (Z.div_mod (v / 256) 256). pose proof (Z.mod_pos_bound (v / 256) 256).
  pose proof (Z.div_mod (v / 256 / 256) 256).
  pose proof (Z.mod_pos_bound (v / 256 / 256) 256).
  pose proof (Z.div_mod (v / 256 / 256 / 256) 256).
  pose proof (Z.mod_pos_bound (v / 256 / 256 / 256) 256).
  assert (v / 256 / 256 / 256 / 256 = 0).
  { rewrite !Z.div_div by lia. apply Z.div_small. lia. }
  lia.
Qed.

Lemma read_uint32_be_be32 v : 0 <= v < 2 ^ 32 -> read_uint32_be (be32 v) = Ok v.
Proof.
  intros H. unfold be32, read_uint32_be. rewrite !Z_of_byte_of_Z.
  f_equal. by apply u32_digits.
Qed.

Lemma read_uint32_le_le32 v : 0 <= v < 2 ^ 32 -> read_uint32_le (le32 v) = Ok v.
Proof.
  intros H. unfold le32, read_uint32_le. rewrite !Z_of_byte_of_Z.
  f_equal. by apply u32_digits.
Qed.

Lemma read_uint32_be_range d v :
  read_uint32_be d = Ok v -> 0 <= v < 2 ^ 32 /\ length d = 4%nat.
Proof.
  destruct d as [|b3 [|b2 [|b1 [|b0 [|? ?]]]]]; simpl; try discriminate.
  intros [= <-]. split; [|done].
  pose proof (Z_of_byte_range b3). pose proof (Z_of_byte_range b2).
  pose proof (Z_of_byte_range b1). pose proof (Z_of_byte_range b0). lia.
Qed.

Lemma read_uint32_le_range d v :
  read_uint32_le d = Ok v -> 0 <= v < 2 ^ 32 /\ length d = 4%nat.
Proof.
  destruct d as [|b3 [|b2 [|b1 [|b0 [|? ?]]]]]; simpl; try discriminate.
  intros [= <-]. split; [|done].
  pose proof (Z_of_byte_range b3). pose proof (Z_of_byte_range b2).
  pose proof (Z_of_byte_range b1). pose proof (Z_of_byte_range b0). lia.
Qed.

Lemma byte_to_N_inj (x y : Byte.byte) : Byte.to_N x = Byte.to_N y -> x = y.
Proof.
  intros H. assert (Some x = Some y) as E; [|by inversion E].
  by rewrite <- (Byte.of_to_N x), <- (Byte.of_to_N y), H.
Qed.

Lemma read_string_loop_nonul rest :
  Forall (fun c => c <> Byte.x00) (read_string_loop rest).1.
Proof.
  induction rest as [|c rest IH]; simpl; [constructor|].
  destruct (decide (c = Byte.x00)); [constructor|].
  destruct (read_string_loop rest) as [name k]; simpl in *. by constructor.
Qed.

Lemma decode_path_ok name :
  Forall (fun c => c <> Byte.x00) name -> path_ok (decode_ascii_ignore name).
Proof.
  intros H. unfold path_ok, decode_ascii_ignore. apply Forall_fmap, Forall_forall.
  intros c [Hc Hin]%list_elem_of_filter. simpl.
  rewrite Forall_forall in H. specialize (H c Hin). split; [|done].
  assert (Byte.to_N c <> 0%N); [|lia].
  intros E. apply H, byte_to_N_inj. by rewrite E.
Qed.

Lemma encode_ascii_ok p : path_ok p -> encode_ascii p = Ok (encb p).
Proof.
  induction 1 as [|c p Hc Hp IH]; simpl; [done|].
  destruct (N.ltb_spec c 128); [|lia]. by rewrite IH.
Qed.

Lemma encb_byte c :
  (0 < c < 128)%N ->
  default Byte.x00 (Byte.of_N c) <> Byte.x00 /\
  Byte.to_N (default Byte.x00 (Byte.of_N c)) = c.
Proof.
  intros Hc. destruct (Byte.of_N c) as [b|] eqn:E; simpl.
  - apply Byte.to_of_N in E. split; [|done]. intros ->. simpl in E. lia.
  - apply Byte.of_N_None_iff in E. lia.
Qed.

Lemma encb_nonul p : path_ok p -> Forall (fun c => c <> Byte.x00) (encb p).
Proof.
  intros H. apply Forall_fmap. eapply Forall_impl; [exact H|].
  intros c Hc. by apply encb_byte.
Qed.

Lemma decode_encb p : path_ok p -> decode_ascii_ignore (encb p) = p.
Proof.
  induction 1 as [|c p Hc Hp IH]; [done|].
  unfold decode_ascii_ignore, encb in *. rewrite fmap_cons.
  destruct (encb_byte c Hc) as [_ E].
  rewrite filter_cons_True by (rewrite E; lia).
  rewrite fmap_cons, E. by rewrite IH.
Qed.

Lemma length_encb p : length (encb p) = length p.
Proof. apply length_fmap. Qed.

Lemma read_string_loop_app bs rest :
  Forall (fun c => c <> Byte.x00) bs ->
  read_string_loop (bs ++ Byte.x00 :: rest) = (bs, S (length bs)).
Proof.
  induction 1 as [|c bs Hc Hbs IH]; simpl.
  - by destruct (decide (Byte.x00 = Byte.x00)).
  - destruct (decide (c = Byte.x00)); [done|]. by rewrite IH.
Qed.

(** ** Inverting successful statements *)

Lemma bind_ok_inv {A B} (m : M A) (k : A -> M B) w w' (b : B) :
  bind m k w = (w', Ok b) ->
  exists w1 a, m w = (w1, Ok a) /\ k a w1 = (w', Ok b).
Proof.
  unfold bind. destruct (m w) as [w1 [a|e]]; [|discriminate]. by exists w1, a.
Qed.

Lemma lift_ok_inv {A} (r : result A) w w' (a : A) :
  lift r w = (w', Ok a) -> w' = w /\ r = Ok a.
Proof. unfold lift. by intros [= <- ->]. Qed.

(** ** The shape of a freshly loaded archive *)

Lemma read_records_shape skip n : forall file w w' file',
  read_records skip n file w = (w', Ok file') ->
  exists new,
    length new = n /\
    w' = mkWorld (heap w ++ new)
           (set_entries (entries (self w) ++ seq (length (heap w)) n) (self w))
           (disk w) (io w) /\
    buf file' = buf file /\
    Forall (fun e => meta_ok e /\ data e = None /\ modified e = false) new.
Proof.
  induction n as [|n IH]; intros file w w' file' H.
  - injection H as <- <-. exists []. rewrite !app_nil_r.
    split; [done|]. split; [by destruct w as [? [] ? ?]|]. by split.
  - simpl in H.
    apply bind_ok_inv in H as (w1 & o & [-> Ho]%lift_ok_inv & H).
    apply bind_ok_inv in H as (w1 & sz & [-> Hsz]%lift_ok_inv & H).
    destruct (read_string _) as [p file1] eqn:Hp.
    apply bind_ok_inv in H as (w1 & r & Hr & H). injection Hr as <- <-.
    apply bind_ok_inv in H as (w1 & [] & Hr & H). injection Hr as <-.
    apply IH in H as (new & Hlen & -> & Hbuf & Hnew).
    cbn [heap self disk io set_entries entries header file_size original_data] in *.
    exists (FileEntry_init o sz p None :: new). split; [by simpl; f_equal|].
    split.
    { rewrite <- !app_assoc, length_app. simpl.
      by replace (length (heap w) + 1)%nat with (S (length (heap w))) by lia. }
    split.
    { rewrite Hbuf. unfold read_string in Hp.
      destruct (read_string_loop _) in Hp. by injection Hp as <- <-. }
    constructor; [|done]. split; [|done]. unfold meta_ok. simpl.
    apply read_uint32_be_range in Ho as [Ho _].
    apply read_uint32_be_range in Hsz as [Hsz _].
    split; [done|]. split; [done|].
    unfold read_string in Hp.
    destruct (read_string_loop _) as [name k] eqn:Hn. injection Hp as <- <-.
    apply decode_path_ok. pose proof (read_string_loop_nonul
      (drop (pos (bio_read 4 (bio_read 4 (bio_seek_cur skip file)).2).2)
            (buf (bio_read 4 (bio_read 4 (bio_seek_cur skip file)).2).2))) as Hnn.
    simpl in Hnn. simpl in Hn. by rewrite Hn in Hnn.
Qed.

Lemma fill_fill B e : fill B (fill B e) = fill B e.
Proof. reflexivity. Qed.

Lemma load_data_loop (file : BytesIO) (l : list nat) : forall w,
  exists h',
    for_each l (fun r =>
      w <~ get_world ;~
      let e := heap w !!! r in
      let file := bio_seek (Z.to_nat (offset e)) file in
      let '(d, _) := bio_read (Z.to_nat (size e)) file in
      with_heap (alter (set_data (Some d)) r)) w
    = (mkWorld h' (self w) (disk w) (io w), Ok tt) /\
    forall i, h' !! i =
      if decide (i ∈ l) then fill (buf file) <$> heap w !! i else heap w !! i.
Proof.
  induction l as [|r l IH]; intros w.
  - exists (heap w). split; [by destruct w|]. intros i.
    destruct (decide (i ∈ [])) as [H|]; [by apply elem_of_nil in H|done].
  - cbn [for_each]. unfold bind at 1. unfold bind at 1.
    cbn [get_world bio_read bio_seek buf pos with_heap heap self disk io].
    destruct (IH (mkWorld
      (alter (set_data (Some (take (Z.to_nat (size (heap w !!! r)))
                (drop (Z.to_nat (offset (heap w !!! r))) (buf file))))) r (heap w))
      (self w) (disk w) (io w))) as (h' & Hrun & Hh).
    cbn [heap self disk io] in *. exists h'. split; [exact Hrun|].
    intros i. rewrite Hh, list_lookup_alter.
    destruct (decide (r = i)) as [->|Hne].
    + rewrite (decide_True (P := i ∈ i :: l)) by left.
      rewrite lookup_total_alt.
      destruct (heap w !! i) as [e|]; simpl; [|by destruct (decide _)].
      by destruct (decide _).
    + destruct (decide (i ∈ l)) as [Hi|Hi].
      * by rewrite decide_True by by right.
      * rewrite decide_False; [done|]. intros [?|?]%elem_of_cons; congruence.
Qed.

Lemma seq_covers {A} (h h' : list A) (f : A -> A) :
  (forall i, h' !! i =
     if decide (i ∈ seq 0 (length h)) then f <$> h !! i else h !! i) ->
  h' = f <$> h.
Proof.
  intros H. apply list_eq. intros i. rewrite H, list_lookup_fmap.
  destruct (decide _) as [|Hn]; [done|].
  rewrite lookup_ge_None_2; [done|].
  destruct (decide (i < length h)%nat); [|lia].
  exfalso. apply Hn. apply elem_of_seq. lia.
Qed.

(** A successful load into a new archive object: the magic has four bytes,
    the heap holds exactly the listed entries in order, every entry has
    in-range numbers and a NUL-free ASCII path, and its payload is the
    slice of the file that its offset and size denote. *)
Lemma load_fresh_shape (B : bytes) (env : io_env) (w1 : World) :
  load (Some B) (init_world env) = (w1, Ok tt) ->
  exists metas,
    header (self w1) = Some (take 4 B) /\
    length (take 4 B) = 4%nat /\
    heap w1 = fill B <$> metas /\
    entries (self w1) = seq 0 (length metas) /\
    Forall (fun e => meta_ok e /\ data e = None /\ modified e = false) metas /\
    disk w1 = None /\ io w1 = env.
Proof.
  rewrite load_unfold. cbv zeta. destruct (startswith _ _); [|discriminate].
  cbn [bio_read buf pos]. intros H.
  apply bind_ok_inv in H as (w & fs & [-> Hfs]%lift_ok_inv & H).
  apply bind_ok_inv in H as (w & [] & Hw & H). injection Hw as <-.
  apply bind_ok_inv in H as (w & n & [-> Hn]%lift_ok_inv & H).
  apply bind_ok_inv in H as (w & file & Hrec & H).
  assert (exists skip k, read_records skip (Z.to_nat n) (bio_seek_cur k
    {| buf := B;
       pos := length (take 4 B) + length (take 4 (drop (length (take 4 B)) B))
              + length (take 4 (drop (length (take 4 B)
                     + length (take 4 (drop (length (take 4 B)) B))) B)) |})
    {| heap := []; self := set_file_size fs (set_header (take 4 B)
         (set_original_data B BIGArchive_init)); disk := None; io := env |}
    = (w, Ok file)) as (skip & k & Hrec').
  { destruct (decide _); eauto. }
  clear Hrec. apply read_records_shape in Hrec' as (metas & Hlen & -> & Hbuf & Hm).
  apply bind_ok_inv in H as (w & w0 & Hw & H). injection Hw as <- <-.
  cbn [heap self disk io entries set_entries] in H.
  destruct (load_data_loop file (seq 0 (Z.to_nat n))
    {| heap := [] ++ metas;
       self := set_entries ([] ++ seq 0 (Z.to_nat n))
         (set_file_size fs (set_header (take 4 B) (set_original_data B BIGArchive_init)));
       disk := None; io := env |}) as (h' & Hrun & Hh).
  cbn [heap self disk io entries set_entries app] in *.
  pose proof (eq_trans (eq_sym Hrun) H) as Heq. clear H Hrun.
  injection Heq as <-. cbn [heap self disk io header set_entries entries].
  exists metas. split; [done|]. split.
  { apply read_uint32_le_range in Hfs as [_ Hfs].
    rewrite length_take, length_drop in Hfs. rewrite length_take in *. lia. }
  split.
  { rewrite Hbuf in Hh. cbn [bio_seek_cur buf] in Hh.
    apply seq_covers. by rewrite Hlen. }
  by rewrite Hlen.
Qed.

(** ** What [save] writes *)

Lemma seq_lookup_total (h : list FileEntry) :
  (fun r => h !!! r) <$> seq 0 (length h) = h.
Proof.
  apply list_eq. intros i. rewrite list_lookup_fmap.
  destruct (decide (i < length h)%nat) as [Hi|Hi].
  - rewrite lookup_seq_lt by done. simpl.
    destruct (lookup_lt_is_Some_2 h i Hi) as [e He].
    by rewrite He, (list_lookup_total_correct _ _ _ He).
  - rewrite lookup_seq_ge by lia. simpl. by rewrite lookup_ge_None_2 by lia.
Qed.

Lemma fold_left_fmap {A B C} (f : C -> B -> C) (g : A -> B) (l : list A) (a : C) :
  fold_left f (g <$> l) a = fold_left (fun a x => f a (g x)) l a.
Proof. revert a. induction l as [|x l IH]; intros a; simpl; [done|]. apply IH. Qed.

Lemma fold_left_ext {A B} (f g : B -> A -> B) (l : list A) (a : B) :
  (forall a x, f a x = g a x) -> fold_left f l a = fold_left g l a.
Proof.
  intros H. revert a. induction l as [|x l IH]; intros a; simpl; [done|].
  by rewrite H, IH.
Qed.

Lemma flat_map_fmap {A B C} (f : B -> list C) (g : A -> B) (l : list A) :
  flat_map f (g <$> l) = flat_map (fun x => f (g x)) l.
Proof. induction l as [|x l IH]; simpl; [done|]. f_equal. exact IH. Qed.

Lemma length_relayout es start : length (relayout es start) = length es.
Proof. revert start. induction es as [|e es IH]; intros; simpl; [done|]. by rewrite IH. Qed.

Lemma update_offsets_canonical es : forall pre start w,
  heap w = pre ++ es ->
  update_offsets (seq (length pre) (length es)) start w =
  (mkWorld (pre ++ relayout es start) (self w) (disk w) (io w),
   Ok (total_from es start)).
Proof.
  induction es as [|e es IH]; intros pre start w Hw.
  - simpl. unfold ret. destruct w; simpl in *. by subst.
  - cbn [length seq update_offsets]. unfold bind at 1. cbn [with_heap].
    unfold bind at 1. cbn [get_world heap].
    rewrite Hw, alter_app_r_alt, Nat.sub_diag by lia. cbn [alter list_alter].
    rewrite lookup_total_app_r, Nat.sub_diag by lia. cbn [lookup_total list_lookup_total].
    specialize (IH (pre ++ [set_offset start e]) (start + size e)
                  (mkWorld (pre ++ set_offset start e :: es) (self w) (disk w) (io w))).
    rewrite length_app in IH. cbn [length] in IH.
    replace (length pre + 1)%nat with (S (length pre)) in IH by lia.
    cbn [set_offset size] in *. rewrite IH by (by rewrite <- app_assoc).
    cbn [heap self disk io relayout total_from fold_left]. by rewrite <- app_assoc.
Qed.

Lemma write_record_run skip r w d0 :
  io w = IoOk -> disk w = Some d0 -> meta_ok (heap w !!! r) ->
  write_record skip r w =
  (mkWorld (heap w) (self w) (Some (d0 ++ enc_record skip (heap w !!! r))) IoOk,
   Ok tt).
Proof.
  intros Hio Hd (Ho & Hs & Hp). destruct w as [h a d i]. simpl in *. subst.
  unfold write_record, enc_record, bind, fwrite, get_world, lift, ret, write_string.
  destruct skip; cbn [io heap self disk];
    rewrite !write_uint32_be_ok, encode_ascii_ok by done;
    cbn [rbind default from_option id app]; by rewrite <- ?app_assoc.
Qed.

Lemma write_records_run skip l : forall w d0,
  io w = IoOk -> disk w = Some d0 ->
  Forall (fun r => meta_ok (heap w !!! r)) l ->
  for_each l (write_record skip) w =
  (mkWorld (heap w) (self w)
     (Some (d0 ++ flat_map (fun r => enc_record skip (heap w !!! r)) l)) IoOk,
   Ok tt).
Proof.
  induction l as [|r l IH]; intros w d0 Hio Hd Hl.
  - simpl. unfold ret. destruct w; simpl in *. subst. by rewrite app_nil_r.
  - apply Forall_cons in Hl as [Hr Hl]. cbn [for_each flat_map]. unfold bind.
    rewrite (write_record_run skip r w d0) by done.
    rewrite (IH _ (d0 ++ enc_record skip (heap w !!! r))) by done.
    cbn [heap self]. by rewrite <- app_assoc.
Qed.

Lemma write_payloads_run l : forall w d0,
  io w = IoOk -> disk w = Some d0 ->
  Forall (fun r => is_Some (data (heap w !!! r))) l ->
  for_each l (fun r => w <~ get_world ;~ fwrite_obj (data (heap w !!! r))) w =
  (mkWorld (heap w) (self w)
     (Some (d0 ++ flat_map (fun r => payload (heap w !!! r)) l)) IoOk,
   Ok tt).
Proof.
  induction l as [|r l IH]; intros w d0 Hio Hd Hl.
  - simpl. unfold ret. destruct w; simpl in *. subst. by rewrite app_nil_r.
  - apply Forall_cons in Hl as [[d Hr] Hl]. cbn [for_each flat_map].
    unfold bind at 1. unfold bind at 1. cbn [get_world]. rewrite Hr.
    cbn [fwrite_obj]. unfold fwrite at 1. rewrite Hio, Hd. cbn [default].
    rewrite (IH _ (d0 ++ d)) by done.
    cbn [heap self]. unfold payload at 2. rewrite Hr. cbn [default].
    by rewrite <- app_assoc.
Qed.

Lemma metadata_end_canonical w :
  entries (self w) = seq 0 (length (heap w)) ->
  metadata_end (self w) (heap w) = meta_end (is_big5 (self w)) (heap w).
Proof.
  intros He. unfold metadata_end, meta_end. rewrite He.
  destruct (is_big5 (self w)).
  - transitivity (fold_left (fun co e => co + 1 + 8 + (len (path e) + 1))
                    ((fun r => heap w !!! r) <$> seq 0 (length (heap w))) (12 + 3)).
    + by rewrite fold_left_fmap.
    + by rewrite seq_lookup_total.
  - transitivity (fold_left (fun co e => co + 8 + (len (path e) + 1))
                    ((fun r => heap w !!! r) <$> seq 0 (length (heap w))) (12 + 4)).
    + by rewrite fold_left_fmap.
    + rewrite seq_lookup_total. apply fold_left_ext. intros; lia.
Qed.

Lemma fold_left_add_ge {A} (f : A -> Z) (c : Z) (l : list A) (a : Z) :
  (forall x, c <= f x) ->
  a + c * len l <= fold_left (fun co x => co + f x) l a.
Proof.
  intros Hf. revert a. induction l as [|x l IH]; intros a; unfold len in *; simpl.
  - lia.
  - specialize (IH (a + f x)). specialize (Hf x). lia.
Qed.

Lemma meta_end_lower skip es : 15 + 9 * len es <= meta_end skip es.
Proof.
  unfold meta_end.
  pose proof (fold_left_add_ge
    (fun e => (if skip then 1 else 0) + 8 + (len (path e) + 1)) 9 es
    (12 + (if skip then 3 else 4))) as H.
  etransitivity; [|etransitivity; [apply H|]].
  - destruct skip; lia.
  - intros e. unfold len. destruct skip; lia.
  - apply Z.eq_le_incl. apply fold_left_ext. intros; lia.
Qed.

Lemma length_enc_records skip es a :
  a + len (flat_map (enc_record skip) es) =
  fold_left (fun co e => co + (if skip then 1 else 0) + 8 + (len (path e) + 1)) es a.
Proof.
  revert a. induction es as [|e es IH]; intros a; simpl.
  - unfold len. simpl. lia.
  - rewrite <- IH. unfold len, enc_record.
    rewrite !length_app, length_encb. destruct skip; simpl; lia.
Qed.

Lemma enc_records_relayout skip es start :
  len (flat_map (enc_record skip) (relayout es start)) =
  len (flat_map (enc_record skip) es).
Proof.
  revert start. induction es as [|e es IH]; intros start; [done|].
  unfold len in *. simpl. rewrite !length_app. specialize (IH (start + size e)).
  unfold enc_record at 1 3. rewrite !length_app. simpl. lia.
Qed.

Lemma payload_relayout es start :
  flat_map payload (relayout es start) = flat_map payload es.
Proof.
  revert start. induction es as [|e es IH]; intros start; [done|].
  simpl. by rewrite IH.
Qed.

(** The offsets handed out stay between the start and the total, and the
    regions follow one another. *)
Lemma relayout_bounds es : forall start,
  Forall (fun e => 0 <= size e) es ->
  start <= total_from es start /\
  Forall (fun e => start <= offset e /\ offset e + size e <= total_from es start)
    (relayout es start).
Proof.
  induction es as [|e es IH]; intros start Hs.
  - split; [|constructor]. unfold total_from. simpl. lia.
  - apply Forall_cons in Hs as [He Hs].
    destruct (IH (start + size e) Hs) as [H1 H2].
    unfold total_from in *. simpl. split; [lia|]. constructor.
    + simpl. lia.
    + eapply Forall_impl; [exact H2|]. simpl. intros; lia.
Qed.

Lemma relayout_disjoint es : forall start i j ei ej,
  Forall (fun e => 0 <= size e) es ->
  (i < j)%nat ->
  relayout es start !! i = Some ei -> relayout es start !! j = Some ej ->
  offset ei + size ei <= offset ej.
Proof.
  induction es as [|e es IH]; intros start i j ei ej Hs Hij Hi Hj; [done|].
  apply Forall_cons in Hs as [He Hs].
  destruct j as [|j]; [lia|]. destruct i as [|i]; simpl in *.
  - injection Hi as <-. simpl.
    destruct (relayout_bounds es (start + size e) Hs) as [_ H].
    rewrite Forall_forall in H.
    apply list_elem_of_lookup_2 in Hj. apply H in Hj. lia.
  - eapply (IH (start + size e) i j); eauto. lia.
Qed.

Lemma relayout_fields es start :
  (fun e => (path e, size e, data e)) <$> relayout es start =
  (fun e => (path e, size e, data e)) <$> es.
Proof.
  revert start. induction es as [|e es IH]; intros start; [done|].
  cbn [relayout]. rewrite !fmap_cons. by rewrite IH.
Qed.

Lemma relayout_Forall (P : FileEntry -> Prop) es start :
  (forall e o, P e -> P (set_offset o e)) ->
  Forall P es -> Forall P (relayout es start).
Proof.
  intros HP H. revert start. induction H; intros start; simpl; constructor; auto.
Qed.

Lemma save_canonical (w : World) (hd : bytes) :
  entries (self w) = seq 0 (length (heap w)) ->
  header (self w) = Some hd ->
  io w = IoOk ->
  Forall (fun e => meta_ok e /\ is_Some (data e)) (heap w) ->
  total_from (heap w) (meta_end (is_big5 (self w)) (heap w)) < 2 ^ 32 ->
  save w =
  (mkWorld (relayout (heap w) (meta_end (is_big5 (self w)) (heap w))) (self w)
     (Some (serialize (is_big5 (self w)) hd
              (total_from (heap w) (meta_end (is_big5 (self w)) (heap w)))
              (relayout (heap w) (meta_end (is_big5 (self w)) (heap w)))))
     IoOk,
   Ok tt).
Proof.
  intros He Hhd Hio Hes Htot.
  set (start := meta_end (is_big5 (self w)) (heap w)) in *.
  set (total := total_from (heap w) start) in *.
  assert (Forall (fun e => 0 <= size e) (heap w)) as Hsz.
  { eapply Forall_impl; [exact Hes|]. by intros e [(_ & [? _] & _) _]. }
  pose proof (meta_end_lower (is_big5 (self w)) (heap w)) as Hlow. fold start in Hlow.
  destruct (relayout_bounds (heap w) start Hsz) as [Hst Hoff]. fold total in Hst, Hoff.
  assert (0 <= len (heap w)) as Hn by (unfold len; lia).
  rewrite save_unfold. unfold bind at 1.
  rewrite metadata_end_canonical by done. fold start. rewrite He.
  pose proof (update_offsets_canonical (heap w) [] start w eq_refl) as Hupd.
  cbn [length app] in Hupd. rewrite Hupd.
  fold total. cbn [app]. unfold save_write.
  unfold bind at 1. unfold fopen_wb at 1. cbn [io heap self disk]. rewrite Hio.
  unfold bind at 1. rewrite Hhd. cbn [fwrite_obj]. unfold fwrite at 1. cbn [io heap self disk default].
  unfold bind at 1. cbn [lift]. rewrite write_uint32_le_ok by lia.
  unfold bind at 1. unfold fwrite at 1. cbn [io heap self disk default].
  unfold bind at 1. cbn [lift]. rewrite He.
  replace (len (seq 0 (length (heap w)))) with (len (heap w))
    by (unfold len; by rewrite length_seq).
  rewrite write_uint32_be_ok by lia.
  unfold bind at 1. unfold fwrite at 1. cbn [io heap self disk default].
  unfold bind at 1.
  assert (Forall (fun r => meta_ok (relayout (heap w) start !!! r))
            (seq 0 (length (heap w)))) as Hrec.
  { pose proof (seq_lookup_total (relayout (heap w) start)) as Hseq.
    rewrite length_relayout in Hseq.
    apply (Forall_fmap (fun r => relayout (heap w) start !!! r) meta_ok).
    rewrite Hseq. clear Hseq.
    assert (Forall (fun e => path_ok (path e) /\ 0 <= size e < 2 ^ 32)
              (relayout (heap w) start)) as Hp.
    { apply relayout_Forall; [by intros [] o|].
      eapply Forall_impl; [exact Hes|]. by intros e [(_ & ? & ?) _]. }
    rewrite Forall_forall in Hoff, Hp. apply Forall_forall. intros e' Hin.
    destruct (Hoff e' Hin), (Hp e' Hin) as [? ?]. unfold meta_ok. repeat split; try done; lia. }
  assert (Forall (fun r => is_Some (data (relayout (heap w) start !!! r)))
            (seq 0 (length (heap w)))) as Hdat.
  { pose proof (seq_lookup_total (relayout (heap w) start)) as Hseq.
    rewrite length_relayout in Hseq.
    apply (Forall_fmap (fun r => relayout (heap w) start !!! r)
                       (fun e => is_Some (data e))).
    rewrite Hseq. apply relayout_Forall; [by intros [] o|].
    eapply Forall_impl; [exact Hes|]. by intros e [_ ?]. }
  pose proof (seq_lookup_total (relayout (heap w) start)) as Hseq.
  rewrite length_relayout in Hseq.
  destruct (is_big5 (self w)) eqn:Hb5.
  - unfold bind at 1. unfold fwrite at 1. cbn [io heap self disk default].
    erewrite write_records_run; [|done|reflexivity|exact Hrec].
    cbn [heap self disk io].
    erewrite write_payloads_run; [|done|reflexivity|exact Hdat].
    cbn [heap self disk io]. unfold serialize.
    rewrite <- !(flat_map_fmap _ (fun r => relayout (heap w) start !!! r)), Hseq.
    unfold len. rewrite length_relayout. cbn [id app].
    by rewrite <- !app_assoc.
  - unfold bind at 1. unfold fwrite at 1. cbn [io heap self disk default].
    erewrite write_records_run; [|done|reflexivity|exact Hrec].
    cbn [heap self disk io].
    erewrite write_payloads_run; [|done|reflexivity|exact Hdat].
    cbn [heap self disk io]. unfold serialize.
    rewrite <- !(flat_map_fmap _ (fun r => relayout (heap w) start !!! r)), Hseq.
    unfold len. rewrite length_relayout. cbn [id app].
    by rewrite <- !app_assoc.
Qed.

(** ** Reading back what [save] wrote *)

Lemma remaining_advance f n x rest :
  remaining f = x ++ rest -> length x = n ->
  remaining (mkBytesIO (buf f) (pos f + n)) = rest.
Proof.
  unfold remaining. simpl. intros H Hn.
  by rewrite <- drop_drop, H, drop_app_length'.
Qed.

Lemma bio_read_rem n f x rest :
  remaining f = x ++ rest -> length x = n ->
  bio_read n f = (x, mkBytesIO (buf f) (pos f + n)).
Proof.
  unfold remaining, bio_read. intros H Hn.
  by rewrite H, take_app_length', Hn.
Qed.

Lemma read_string_rem f bs rest :
  remaining f = bs ++ Byte.x00 :: rest ->
  Forall (fun c => c <> Byte.x00) bs ->
  read_string f =
  (decode_ascii_ignore bs, mkBytesIO (buf f) (pos f + S (length bs))).
Proof.
  unfold remaining, read_string. intros H Hbs.
  by rewrite H, read_string_loop_app.
Qed.

Lemma length_be32 v : length (be32 v) = 4%nat.
Proof. reflexivity. Qed.
Lemma length_le32 v : length (le32 v) = 4%nat.
Proof. reflexivity. Qed.

Lemma read_records_enc (skip : bool) es : forall f w post,
  Forall meta_ok es ->
  remaining f = flat_map (enc_record skip) es ++ post ->
  exists f',
    read_records (if skip then 1 else 0)%nat (length es) f w =
    (mkWorld (heap w ++ (as_read <$> es))
       (set_entries (entries (self w) ++ seq (length (heap w)) (length es)) (self w))
       (disk w) (io w),
     Ok f') /\
    buf f' = buf f /\ remaining f' = post.
Proof.
  induction es as [|e es IH]; intros f w post Hes Hrem.
  - exists f. simpl. unfold ret. rewrite !app_nil_r.
    split; [by destruct w as [? [] ? ?]|done].
  - apply Forall_cons in Hes as [(Ho & Hs & Hp) Hes].
    cbn [flat_map] in Hrem. unfold enc_record at 1 in Hrem.
    rewrite <- !app_assoc in Hrem.
    set (k := (if skip then 1 else 0)%nat) in *.
    assert (length (if skip then [Byte.x00] else []) = k) as Hk by by destruct skip.
    cbn [length read_records].
    pose proof (remaining_advance _ _ _ _ Hrem Hk) as Hrem1.
    change (mkBytesIO (buf f) (pos f + k)) with (bio_seek_cur k f) in Hrem1.
    rewrite (bio_read_rem 4 _ _ _ Hrem1 (length_be32 _)).
    pose proof (remaining_advance _ _ _ _ Hrem1 (length_be32 _)) as Hrem2.
    unfold bind at 1. cbn [lift]. rewrite read_uint32_be_be32 by done.
    rewrite (bio_read_rem 4 _ _ _ Hrem2 (length_be32 _)).
    pose proof (remaining_advance _ _ _ _ Hrem2 (length_be32 _)) as Hrem3.
    unfold bind at 1. cbn [lift]. rewrite read_uint32_be_be32 by done.
    rewrite (read_string_rem _ _ _ Hrem3 (encb_nonul _ Hp)), decode_encb by done.
    assert (length (encb (path e) ++ [Byte.x00]) = S (length (encb (path e)))) as Hl.
    { rewrite length_app. simpl. lia. }
    rewrite (app_assoc (encb (path e)) [Byte.x00]) in Hrem3.
    pose proof (remaining_advance _ _ _ _ Hrem3 Hl) as Hrem4.
    unfold bind at 1. unfold alloc at 1. unfold bind at 1.
    unfold entries_append, with_self. cbn [heap self disk io].
    match goal with |- context [read_records _ _ ?f4 ?w1] =>
      destruct (IH f4 w1 post Hes Hrem4) as (f' & Hrun & Hbuf & Hpost) end.
    exists f'. rewrite Hrun. cbn [heap self disk io set_entries entries header
      file_size original_data buf bio_seek_cur] in *.
    split; [|done]. rewrite fmap_cons, <- !app_assoc, length_app. cbn [length app seq].
    by replace (length (heap w) + 1)%nat with (S (length (heap w))) by lia.
Qed.

Lemma load_serialized (skip : bool) hd total es env :
  length hd = 4%nat -> startswith hd (b_ "BIG") = true ->
  skip = bool_decide (hd = b_ "BIG5") ->
  0 <= total < 2 ^ 32 -> len es < 2 ^ 32 -> Forall meta_ok es ->
  load (Some (serialize skip hd total es)) (init_world env) =
  (mkWorld (fill (serialize skip hd total es) <$> (as_read <$> es))
     (mkBIGArchive (Some hd) total (seq 0 (length es))
        (Some (serialize skip hd total es)))
     None env,
   Ok tt).
Proof.
  intros Hhd Hmagic Hskip Htot Hn Hes.
  set (out := serialize skip hd total es).
  assert (take 4 out = hd) as Hhd4 by (by apply take_app_length').
  rewrite load_unfold. cbv zeta. rewrite Hhd4, Hmagic, Hhd.
  set (f0 := mkBytesIO out 4).
  assert (remaining f0 = le32 total ++ be32 (len es) ++
            replicate (if skip then 3 else 4)%nat Byte.x00 ++
            flat_map (enc_record skip) es ++ flat_map payload es) as Hrem0.
  { unfold remaining, f0, out, serialize. simpl. by rewrite drop_app_length'. }
  rewrite (bio_read_rem 4 _ _ _ Hrem0 (length_le32 _)).
  pose proof (remaining_advance _ _ _ _ Hrem0 (length_le32 _)) as Hrem1.
  unfold bind at 1. cbn [lift]. rewrite read_uint32_le_le32 by done.
  unfold bind at 1. cbn [with_self heap self disk io].
  rewrite (bio_read_rem 4 _ _ _ Hrem1 (length_be32 _)).
  pose proof (remaining_advance _ _ _ _ Hrem1 (length_be32 _)) as Hrem2.
  unfold bind at 1. cbn [lift]. rewrite read_uint32_be_be32 by (unfold len in *; lia).
  assert (Z.to_nat (len es) = length es) as -> by (unfold len; lia).
  set (f2 := mkBytesIO _ _) in Hrem2 |- *.
  set (w0 := mkWorld _ _ _ _).
  assert (exists f',
    (if decide (hd = b_ "BIG5")
     then read_records 1 (length es) (bio_seek_cur 3 f2)
     else read_records 0 (length es) (bio_seek_cur 4 f2)) w0 =
    (mkWorld (heap w0 ++ (as_read <$> es))
       (set_entries (entries (self w0) ++ seq (length (heap w0)) (length es)) (self w0))
       (disk w0) (io w0), Ok f') /\ buf f' = out) as (f' & Hrun & Hbuf).
  { assert (length (replicate (if skip then 3 else 4)%nat Byte.x00)
            = (if skip then 3 else 4)%nat) as Hz by apply length_replicate.
    pose proof (remaining_advance _ _ _ _ Hrem2 Hz) as Hrem3.
    destruct (decide (hd = b_ "BIG5")) as [E|E].
    - rewrite bool_decide_eq_true_2 in Hskip by done. subst skip.
      destruct (read_records_enc true es _ w0 _ Hes Hrem3) as (f' & H1 & H2 & _).
      exists f'. split; [exact H1|exact H2].
    - rewrite bool_decide_eq_false_2 in Hskip by done. subst skip.
      destruct (read_records_enc false es _ w0 _ Hes Hrem3) as (f' & H1 & H2 & _).
      exists f'. split; [exact H1|exact H2]. }
  unfold bind at 1. rewrite Hrun. unfold bind at 1. cbn [get_world].
  unfold w0. cbn [heap self disk io entries set_entries app length].
  match goal with |- for_each ?l ?body ?w = _ =>
    destruct (load_data_loop f' l w) as (h' & Hloop & Hh) end.
  etransitivity; [exact Hloop|]. cbn [heap self disk io] in *.
  f_equal. f_equal.
  rewrite Hbuf in Hh. apply seq_covers. by rewrite length_fmap.
Qed.

Lemma payload_slices es : forall start H,
  Z.of_nat (length H) = start ->
  Forall (fun e => exists d, data e = Some d /\ len d = size e) es ->
  Forall (fun e' =>
            take (Z.to_nat (size e'))
                 (drop (Z.to_nat (offset e')) (H ++ flat_map payload es))
            = payload e')
    (relayout es start).
Proof.
  induction es as [|e es IH]; intros start H HH Hes; [constructor|].
  apply Forall_cons in Hes as [(d & Hd & Hlen) Hes]. cbn [relayout flat_map].
  assert (payload e = d) as Hp by (unfold payload; by rewrite Hd).
  rewrite Hp. constructor.
  - cbn [size offset set_offset]. unfold payload. cbn [data set_offset].
    rewrite Hd. cbn [default from_option id].
    rewrite drop_app_length' by lia.
    apply take_app_length'. unfold len in Hlen. lia.
  - rewrite app_assoc. apply IH; [|done].
    rewrite length_app. unfold len in Hlen. lia.
Qed.

Lemma total_payload es : forall start,
  Forall (fun e => exists d, data e = Some d /\ len d = size e) es ->
  start + Z.of_nat (length (flat_map payload es)) = total_from es start.
Proof.
  induction es as [|e es IH]; intros start Hes; unfold total_from in *; simpl.
  - lia.
  - apply Forall_cons in Hes as [(d & Hd & Hlen) Hes].
    rewrite <- (IH (start + size e) Hes). rewrite length_app.
    unfold payload at 1. rewrite Hd. simpl. unfold len in Hlen. lia.
Qed.

Lemma layout_end_canonical (h : list FileEntry) start :
  layout_end (sizes h) (seq 0 (length h)) start = total_from h start.
Proof.
  unfold layout_end, total_from, sizes.
  transitivity (fold_left (fun co e => co + size e)
                  ((fun r => h !!! r) <$> seq 0 (length h)) start).
  - by rewrite fold_left_fmap.
  - by rewrite seq_lookup_total.
Qed.

(** ** The file on disk *)

Lemma disk_blind_ret {A} (a : A) : disk_blind (ret a).
Proof. by intros w d. Qed.
Lemma disk_blind_raise {A} e : disk_blind (@raise A e).
Proof. by intros w d. Qed.
Lemma disk_blind_lift {A} (r : result A) : disk_blind (lift r).
Proof. by intros w d. Qed.
Lemma disk_blind_with_self g : disk_blind (with_self g).
Proof. by intros w d. Qed.
Lemma disk_blind_with_heap g : disk_blind (with_heap g).
Proof. by intros w d. Qed.
Lemma disk_blind_alloc e : disk_blind (alloc e).
Proof. by intros w d. Qed.

Lemma disk_blind_bind {A B} (m : M A) (k : A -> M B) :
  disk_blind m -> (forall a, disk_blind (k a)) -> disk_blind (bind m k).
Proof.
  intros Hm Hk w d. unfold bind. rewrite Hm.
  destruct (m w) as [w' [a|e]]; cbn [fst snd]; [apply Hk|done].
Qed.

(** A statement that looks at the world it runs in, but not at the file. *)
Lemma disk_blind_get_world {B} (k : World -> M B) :
  (forall w d, k (set_disk d w) = k w) -> (forall w, disk_blind (k w)) ->
  disk_blind (bind get_world k).
Proof.
  intros Hk1 Hk2 w d. unfold bind, get_world. rewrite Hk1. apply Hk2.
Qed.

Lemma disk_blind_for_each {A} (l : list A) body :
  (forall x, disk_blind (body x)) -> disk_blind (for_each l body).
Proof.
  intros Hb. induction l as [|x l IH]; simpl; [apply disk_blind_ret|].
  apply disk_blind_bind; auto.
Qed.

Lemma disk_blind_read_records skip n : forall file,
  disk_blind (read_records skip n file).
Proof.
  induction n as [|n IH]; intros file; simpl; [apply disk_blind_ret|].
  apply disk_blind_bind; [apply disk_blind_lift|intros o].
  apply disk_blind_bind; [apply disk_blind_lift|intros sz].
  destruct (read_string _) as [p file'].
  apply disk_blind_bind; [apply disk_blind_alloc|intros r].
  apply disk_blind_bind; [apply disk_blind_with_self|intros _]. apply IH.
Qed.

(** [load] reads the content it is handed and nothing else: the file on
    disk plays no part and is left as it is. *)
Lemma load_disk_blind (content : option bytes) : disk_blind (load content).
Proof.
  destruct content as [B|]; [|apply disk_blind_raise]. unfold load.
  apply disk_blind_bind; [apply disk_blind_with_self|intros _]. cbv zeta.
  destruct (bio_read 4 _) as [hd file].
  apply disk_blind_bind; [apply disk_blind_with_self|intros _].
  destruct (negb _); [apply disk_blind_raise|].
  destruct (bio_read 4 file) as [d1 file1].
  apply disk_blind_bind; [apply disk_blind_lift|intros fs].
  apply disk_blind_bind; [apply disk_blind_with_self|intros _].
  destruct (bio_read 4 file1) as [d2 file2].
  apply disk_blind_bind; [apply disk_blind_lift|intros n].
  apply disk_blind_bind.
  { destruct (decide _); apply disk_blind_read_records. }
  intros file3. apply disk_blind_get_world; [done|]. intros w0.
  apply disk_blind_for_each. intros r.
  apply disk_blind_get_world; [done|]. intros w1. cbv zeta.
  destruct (bio_read _ _). apply disk_blind_with_heap.
Qed.

Lemma update_offsets_disk es : forall start w x,
  update_offsets es start (mkWorld (heap w) (self w) x (io w)) =
  (mkWorld (heap (fst (update_offsets es start w))) (self w) x (io w),
   snd (update_offsets es start w)).
Proof.
  induction es as [|r es IH]; intros start w x; [done|].
  cbn [update_offsets]. unfold bind at 1 3 5. cbn [with_heap].
  unfold bind at 1 2 3. cbn [get_world heap self disk io].
  exact (IH _ (mkWorld (alter (set_offset start) r (heap w)) (self w) (disk w) (io w)) x).
Qed.

Lemma bind_fopen_wb {B} (k : unit -> M B) w :
  io w <> IoOpenFails ->
  bind fopen_wb k w = k tt (mkWorld (heap w) (self w) (Some []) (io w)).
Proof. intros H. unfold bind, fopen_wb. by destruct (io w). Qed.

(** Once the destination can be opened, what it held before has no
    influence on [save]. *)
Lemma save_old_disk (w : World) (old : option bytes) :
  io w <> IoOpenFails -> save (set_disk old w) = save w.
Proof.
  intros Hio. rewrite !save_unfold. unfold bind, set_disk.
  cbn [heap self]. rewrite update_offsets_disk.
  destruct (update_offsets_spec (entries (self w)) (metadata_end (self w) (heap w)) w)
    as (h' & -> & _). cbn [fst snd heap self disk io].
  unfold save_write. by rewrite !bind_fopen_wb.
Qed.

(** ** Round trip *)

(** The round trip when the destination does not exist beforehand. *)
Lemma round_trip_fresh (B : bytes) :
  well_formed B = true ->
  exists w1 w2 B' w3,
    load (Some B) (init_world IoOk) = (w1, Ok tt) /\
    save w1 = (w2, Ok tt) /\
    disk w2 = Some B' /\
    load (Some B') (init_world IoOk) = (w3, Ok tt) /\
    contents w3 = contents w1 /\
    offset <$> entry_list w3 = offset <$> entry_list w2 /\
    Forall (fun e => 0 <= offset e /\ offset e + size e <= len B') (entry_list w3) /\
    (forall i j ei ej, (i < j)%nat ->
       entry_list w3 !! i = Some ei -> entry_list w3 !! j = Some ej ->
       offset ei + size ei <= offset ej).
Proof.
  unfold well_formed. intros Hwf.
  destruct (load (Some B) (init_world IoOk)) as [w1 [[]|]] eqn:Hload; [|discriminate].
  apply andb_prop in Hwf as [Hin Hfit].
  apply Z.ltb_lt in Hfit. rewrite forallb_forall in Hin.
  assert (startswith (take 4 B) (b_ "BIG") = true) as Hmagic.
  { destruct (startswith (take 4 B) (b_ "BIG")) eqn:E; [done|].
    apply load_rejects_iff with (w := init_world IoOk) in E.
    rewrite Hload in E. discriminate. }
  destruct (load_fresh_shape B IoOk w1 Hload)
    as (metas & Hhd & Hhd4 & Hheap & Hent & Hmetas & Hdisk & Hio).
  assert (entries (self w1) = seq 0 (length (heap w1))) as Hcan.
  { by rewrite Hheap, length_fmap. }
  assert (entry_list w1 = heap w1) as Hel1.
  { unfold entry_list. rewrite Hcan. apply seq_lookup_total. }
  assert (Forall (fun e => meta_ok e /\ modified e = false /\
            exists d, data e = Some d /\ len d = size e) (heap w1)) as Hes.
  { apply Forall_forall. intros e He.
    assert (offset e + size e <= len B) as Hb.
    { apply Z.leb_le, Hin. rewrite Hel1. by apply list_elem_of_In. }
    rewrite Hheap in He. apply list_elem_of_fmap in He as (m & -> & Hm).
    rewrite Forall_forall in Hmetas. destruct (Hmetas m Hm) as (Hok & _ & Hmod).
    split; [exact Hok|]. split; [exact Hmod|]. eexists. split; [reflexivity|].
    destruct Hok as (Ho & Hs & _). cbn [fill set_data size offset] in *.
    unfold len in *. rewrite length_take, length_drop. lia. }
  set (skip := is_big5 (self w1)).
  set (start := meta_end skip (heap w1)).
  set (total := total_from (heap w1) start).
  assert (total < 2 ^ 32) as Htot.
  { unfold saved_size in Hfit. rewrite metadata_end_canonical in Hfit by done.
    rewrite Hcan in Hfit. by rewrite layout_end_canonical in Hfit. }
  assert (Forall (fun e => 0 <= size e) (heap w1)) as Hsz.
  { eapply Forall_impl; [exact Hes|]. by intros e ((_ & [? _] & _) & _). }
  destruct (relayout_bounds (heap w1) start Hsz) as [Hst Hoff]. fold total in Hst, Hoff.
  pose proof (meta_end_lower skip (heap w1)) as Hlow. fold start in Hlow.
  assert (0 <= len (heap w1)) as Hn by (unfold len; lia).
  set (es' := relayout (heap w1) start) in *.
  set (out := serialize skip (take 4 B) total es').
  assert (save w1 = (mkWorld es' (self w1) (Some out) IoOk, Ok tt)) as Hsave.
  { apply save_canonical; try done.
    eapply Forall_impl; [exact Hes|]. intros e (? & _ & d & -> & _). by split. }
  assert (Forall meta_ok es') as Hmeta'.
  { assert (Forall (fun e => path_ok (path e) /\ 0 <= size e < 2 ^ 32) es') as Hp.
    { apply relayout_Forall; [by intros [] o|].
      eapply Forall_impl; [exact Hes|]. by intros e ((_ & ? & ?) & _). }
    rewrite Forall_forall in Hoff, Hp. apply Forall_forall. intros e' He'.
    destruct (Hoff e' He'), (Hp e' He') as [? ?].
    unfold meta_ok. repeat split; try done; lia. }
  set (H := take 4 B ++ le32 total ++ be32 (len es') ++
            replicate (if skip then 3 else 4)%nat Byte.x00 ++
            flat_map (enc_record skip) es').
  assert (out = H ++ flat_map payload (heap w1)) as Hout.
  { unfold out, serialize, H, es'. rewrite payload_relayout.
    by rewrite <- !app_assoc. }
  assert (Z.of_nat (length H) = start) as HlenH.
  { unfold H. rewrite !length_app, Hhd4, length_le32, length_be32, length_replicate.
    pose proof (enc_records_relayout skip (heap w1) start) as E1.
    pose proof (length_enc_records skip (heap w1) (12 + (if skip then 3 else 4))) as E2.
    fold es' in E1. unfold start, meta_end. unfold len in *. destruct skip; lia. }
  assert (Forall (fun e => exists d, data e = Some d /\ len d = size e) (heap w1)) as Hdat.
  { eapply Forall_impl; [exact Hes|]. by intros e (_ & _ & ?). }
  assert (len out = total) as Hlen_out.
  { rewrite Hout. unfold len. rewrite length_app, Nat2Z.inj_add, HlenH.
    apply total_payload. exact Hdat. }
  assert (load (Some out) (init_world IoOk) =
          (mkWorld es' (mkBIGArchive (Some (take 4 B)) total (seq 0 (length es'))
                          (Some out)) None IoOk, Ok tt)) as Hreload.
  { unfold out at 1. rewrite load_serialized; try done.
    - fold out. f_equal. f_equal.
      transitivity ((fun e => e) <$> es'); [|apply list_fmap_id].
      rewrite <- list_fmap_compose. apply Forall_fmap_ext_1.
      pose proof (payload_slices (heap w1) start H HlenH Hdat) as Hsl.
      fold es' in Hsl. rewrite <- Hout in Hsl.
      assert (Forall (fun e => modified e = false /\ is_Some (data e)) es') as Hmd.
      { apply relayout_Forall; [by intros [] o|].
        eapply Forall_impl; [exact Hes|]. intros e (_ & ? & d & -> & _). by split. }
      rewrite Forall_forall in Hsl, Hmd. apply Forall_forall. intros e' He'.
      specialize (Hsl e' He'). destruct (Hmd e' He') as [Hm [d Hd]].
      destruct e' as [o sz p dd m]. cbn in *. subst.
      unfold fill, as_read, FileEntry_init, set_data. cbn. rewrite Hsl. reflexivity.
    - unfold skip, is_big5. rewrite Hhd. apply bool_decide_ext. split; congruence.
    - lia.
    - unfold es', len. rewrite length_relayout. unfold len in *. lia. }
  assert (entry_list (mkWorld es' (self w1) (Some out) IoOk) = es') as Hel2.
  { unfold entry_list. cbn [heap self]. rewrite Hcan.
    replace (length (heap w1)) with (length es') by apply length_relayout.
    apply seq_lookup_total. }
  exists w1, (mkWorld es' (self w1) (Some out) IoOk), out,
    (mkWorld es' (mkBIGArchive (Some (take 4 B)) total (seq 0 (length es'))
                    (Some out)) None IoOk).
  assert (entry_list (mkWorld es' (mkBIGArchive (Some (take 4 B)) total
            (seq 0 (length es')) (Some out)) None IoOk) = es') as Hel3.
  { unfold entry_list. cbn [heap self entries]. apply seq_lookup_total. }
  split; [done|]. split; [exact Hsave|]. split; [done|]. split; [exact Hreload|].
  unfold contents. rewrite Hel3, Hel2, Hel1. split; [apply relayout_fields|].
  split; [done|]. split.
  - eapply Forall_impl; [exact Hoff|]. simpl. intros e' [? ?]. lia.
  - intros i j ei ej Hij Hi Hj. by eapply (relayout_disjoint (heap w1) start i j).
Qed.

(** C1: loading a well-formed archive file, saving at once and loading
    the written file gives the same paths, sizes and payloads in the same
    order; the reloaded offsets are the ones [save] assigned, every region
    lies inside the written file and the regions do not overlap.  The
    destination may hold anything beforehand, in particular the very file
    that was loaded ([save_archive] saves over it): [save] replaces it,
    and the file it writes is the same whatever was there. *)
Theorem round_trip (B : bytes) :
  well_formed B = true ->
  exists B', forall old : option bytes, exists w1 w2 w3,
    load (Some B) (fresh_world old IoOk) = (w1, Ok tt) /\
    disk w1 = old /\
    save w1 = (w2, Ok tt) /\
    disk w2 = Some B' /\
    load (Some B') (fresh_world (Some B') IoOk) = (w3, Ok tt) /\
    contents w3 = contents w1 /\
    offset <$> entry_list w3 = offset <$> entry_list w2 /\
    Forall (fun e => 0 <= offset e /\ offset e + size e <= len B') (entry_list w3) /\
    (forall i j ei ej, (i < j)%nat ->
       entry_list w3 !! i = Some ei -> entry_list w3 !! j = Some ej ->
       offset ei + size ei <= offset ej).
Proof.
  intros Hwf.
  destruct (round_trip_fresh B Hwf)
    as (w1 & w2 & B' & w3 & H1 & H2 & H3 & H4 & H5 & H6 & H7 & H8).
  destruct (load_fresh_shape B IoOk w1 H1) as (_ & _ & _ & _ & _ & _ & _ & Hio).
  exists B'. intros old. exists (set_disk old w1), w2, (set_disk (Some B') w3).
  split.
  { change (fresh_world old IoOk) with (set_disk old (init_world IoOk)).
    by rewrite load_disk_blind, H1. }
  split; [done|]. split.
  { rewrite save_old_disk; [exact H2|]. rewrite Hio. discriminate. }
  split; [exact H3|]. split.
  { change (fresh_world (Some B') IoOk) with (set_disk (Some B') (init_world IoOk)).
    by rewrite load_disk_blind, H4. }
  split; [exact H5|]. split; [exact H6|]. split; [exact H7|exact H8].
Qed.

Lemma round_trip_witness :
  exists w1 w2 w3,
    load (Some sample_archive) (fresh_world (Some sample_archive) IoOk)
    = (w1, Ok tt) /\
    contents w1 = [(py "a.ini", 3, Some (b_ "abc")); (py "b", 2, Some (b_ "XY"))] /\
    save w1 = (w2, Ok tt) /\
    len <$> disk w2 = Some 45 /\
    contents w3 = contents w1 /\
    offset <$> entry_list w3 = [40; 43].
Proof.
  destruct (round_trip sample_archive) as [B' H].
  { vm_compute. reflexivity. }
  destruct (H (Some sample_archive))
    as (w1 & w2 & w3 & H1 & _ & H2 & H3 & _ & H5 & H6 & _).
  exists w1, w2, w3. split; [exact H1|].
  assert (w1 = fst (load (Some sample_archive)
                      (fresh_world (Some sample_archive) IoOk))) as Hw1
    by (by rewrite H1).
  assert (w2 = fst (save w1)) as Hw2 by (by rewrite H2).
  split; [rewrite Hw1; vm_compute; reflexivity|].
  split; [exact H2|]. split; [rewrite Hw2, Hw1; vm_compute; reflexivity|].
  split; [exact H5|]. rewrite H6, Hw2, Hw1. vm_compute. reflexivity.
Defined.

(** ** Integers on the wire, both directions *)

Lemma read_uint32_be_short d : length d <> 4%nat -> read_uint32_be d = Raise StructError.
Proof. destruct d as [|? [|? [|? [|? [|? ?]]]]]; simpl; intros H; done || lia. Qed.

Lemma read_uint32_le_short d : length d <> 4%nat -> read_uint32_le d = Raise StructError.
Proof. destruct d as [|? [|? [|? [|? [|? ?]]]]]; simpl; intros H; done || lia. Qed.

Lemma byte_of_Z_of_byte b : byte_of_Z (Z_of_byte b) = b.
Proof.
  unfold byte_of_Z, Z_of_byte. pose proof (Byte.to_N_bounded b).
  rewrite Z.mod_small by lia. rewrite N2Z.id, Byte.of_to_N. done.
Qed.

Lemma byte_of_Z_eq x b : x mod 256 = Z_of_byte b -> byte_of_Z x = b.
Proof.
  intros H. rewrite <- (byte_of_Z_of_byte b). unfold byte_of_Z.
  rewrite H. pose proof (Z_of_byte_range b). by rewrite (Z.mod_small (Z_of_byte b)) by lia.
Qed.

Lemma be32_of_bytes b3 b2 b1 b0 :
  be32 (Z_of_byte b3 * 2 ^ 24 + Z_of_byte b2 * 2 ^ 16
        + Z_of_byte b1 * 2 ^ 8 + Z_of_byte b0) = [b3; b2; b1; b0].
Proof.
  pose proof (Z_of_byte_range b3). pose proof (Z_of_byte_range b2).
  pose proof (Z_of_byte_range b1). pose proof (Z_of_byte_range b0).
  unfold be32.
  set (v := Z_of_byte b3 * 2 ^ 24 + Z_of_byte b2 * 2 ^ 16
            + Z_of_byte b1 * 2 ^ 8 + Z_of_byte b0).
  assert (E3 : v / 2 ^ 24 = Z_of_byte b3).
  { symmetry. apply Z.div_unique with
      (r := Z_of_byte b2 * 2 ^ 16 + Z_of_byte b1 * 2 ^ 8 + Z_of_byte b0);
      subst v; lia. }
  assert (E2 : v / 2 ^ 16 = Z_of_byte b3 * 256 + Z_of_byte b2).
  { symmetry. apply Z.div_unique with
      (r := Z_of_byte b1 * 2 ^ 8 + Z_of_byte b0); subst v; lia. }
  assert (E1 : v / 2 ^ 8 = Z_of_byte b3 * 2 ^ 16 + Z_of_byte b2 * 2 ^ 8 + Z_of_byte b1).
  { symmetry. apply Z.div_unique with (r := Z_of_byte b0); subst v; lia. }
  rewrite E3, E2, E1.
  f_equal; [|f_equal; [|f_equal; [|f_equal]]]; apply byte_of_Z_eq.
  - apply Z.mod_small; lia.
  - symmetry. apply Z.mod_unique with (q := Z_of_byte b3); lia.
  - symmetry. apply Z.mod_unique with (q := Z_of_byte b3 * 2 ^ 8 + Z_of_byte b2); lia.
  - symmetry. apply Z.mod_unique with
      (q := Z_of_byte b3 * 2 ^ 16 + Z_of_byte b2 * 2 ^ 8 + Z_of_byte b1); subst v; lia.
Qed.

(** X1: the 32-bit codecs are inverse to each other.  Packing succeeds
    exactly on 0..2^32-1 and gives four bytes that unpack to the same
    number; unpacking succeeds exactly on four bytes and gives a number
    that packs to the same bytes; everything else is [struct.error]. *)
Theorem uint32_codec (v : Z) (d : bytes) :
  (0 <= v < 2 ^ 32 ->
   exists bs ls, write_uint32_be v = Ok bs /\ read_uint32_be bs = Ok v /\
                 write_uint32_le v = Ok ls /\ read_uint32_le ls = Ok v /\
                 ls = reverse bs /\ length bs = 4%nat) /\
  (~ (0 <= v < 2 ^ 32) ->
   write_uint32_be v = Raise StructError /\ write_uint32_le v = Raise StructError) /\
  (length d = 4%nat ->
   exists x y, read_uint32_be d = Ok x /\ write_uint32_be x = Ok d /\
               read_uint32_le d = Ok y /\ write_uint32_le y = Ok d) /\
  (length d <> 4%nat ->
   read_uint32_be d = Raise StructError /\ read_uint32_le d = Raise StructError).
Proof.
  split; [|split; [|split]].
  - intros Hv. exists (be32 v), (le32 v).
    rewrite write_uint32_be_ok, write_uint32_le_ok, read_uint32_be_be32,
      read_uint32_le_le32 by done. done.
  - intros Hv. unfold write_uint32_be, write_uint32_le.
    destruct (Z.leb_spec 0 v); [|done]. destruct (Z.ltb_spec v (2 ^ 32)); [lia|done].
  - intros Hd. destruct d as [|b3 [|b2 [|b1 [|b0 [|? ?]]]]]; try done.
    eexists _, _. split; [reflexivity|]. split.
    + pose proof (Z_of_byte_range b3). pose proof (Z_of_byte_range b2).
      pose proof (Z_of_byte_range b1). pose proof (Z_of_byte_range b0).
      rewrite write_uint32_be_ok by lia. f_equal. apply be32_of_bytes.
    + split; [reflexivity|].
      pose proof (Z_of_byte_range b3). pose proof (Z_of_byte_range b2).
      pose proof (Z_of_byte_range b1). pose proof (Z_of_byte_range b0).
      rewrite write_uint32_le_ok by lia. f_equal.
      pose proof (be32_of_bytes b0 b1 b2 b3) as E. unfold be32 in E.
      unfold le32. by injection E as -> -> -> ->.
  - intros Hd. by rewrite read_uint32_be_short, read_uint32_le_short.
Qed.

Lemma uint32_codec_witness :
  read_uint32_be [Byte.x00; Byte.x00; Byte.x01; Byte.x02] = Ok 258 /\
  write_uint32_be 258 = Ok [Byte.x00; Byte.x00; Byte.x01; Byte.x02] /\
  write_uint32_be (2 ^ 32) = Raise StructError.
Proof.
  destruct (uint32_codec (2 ^ 32) [Byte.x00; Byte.x00; Byte.x01; Byte.x02])
    as (_ & Hbad & Hrd & _).
  destruct (Hrd eq_refl) as (x & y & H1 & H2 & _).
  destruct (Hbad ltac:(lia)) as [H3 _].
  pose proof H1 as H1'. vm_compute in H1'. injection H1' as <-.
  split; [exact H1|]. split; [exact H2|exact H3].
Defined.

(** ** Saving an archive whose entries are listed in any order *)

Lemma relayout_lookup (h : list FileEntry) es : forall start i r,
  es !! i = Some r ->
  exists o, layout (sizes h) es start !! i = Some o /\
            relayout ((fun r => h !!! r) <$> es) start !! i
            = Some (set_offset o (h !!! r)).
Proof.
  induction es as [|r0 es IH]; intros start i r Hi; [done|].
  destruct i as [|i]; simpl in *.
  - injection Hi as ->. by exists start.
  - apply (IH (start + sizes h r0) i r Hi).
Qed.

Lemma entry_list_relayout (h h' : list FileEntry) es start :
  Forall (fun r => (r < length h)%nat) es ->
  (forall r, exists o, h' !! r = set_offset o <$> h !! r) ->
  (forall i r, es !! i = Some r -> (r < length h)%nat ->
     offset <$> h' !! r = layout (sizes h) es start !! i) ->
  (fun r => h' !!! r) <$> es = relayout ((fun r => h !!! r) <$> es) start.
Proof.
  intros Hlt Hfr Hoff. apply list_eq. intros i. rewrite list_lookup_fmap.
  destruct (es !! i) as [r|] eqn:Hi; simpl.
  - destruct (relayout_lookup h es start i r Hi) as (o & Hlay & ->).
    rewrite Forall_forall in Hlt.
    pose proof (Hlt r (list_elem_of_lookup_2 _ _ _ Hi)) as Hr.
    specialize (Hoff i r Hi Hr). rewrite Hlay in Hoff.
    destruct (Hfr r) as [o' Ho'].
    destruct (lookup_lt_is_Some_2 h r Hr) as [e He].
    rewrite He in Ho'. simpl in Ho'. rewrite Ho' in Hoff. simpl in Hoff.
    injection Hoff as ->.
    by rewrite (list_lookup_total_correct _ _ _ Ho'),
      (list_lookup_total_correct _ _ _ He).
  - symmetry. apply lookup_ge_None_2.
    rewrite length_relayout, length_fmap. by apply lookup_ge_None_1.
Qed.

Lemma metadata_end_entry_list w :
  metadata_end (self w) (heap w) = meta_end (is_big5 (self w)) (entry_list w).
Proof.
  unfold metadata_end, meta_end, entry_list. rewrite fold_left_fmap.
  destruct (is_big5 (self w)); [done|]. apply fold_left_ext. intros; lia.
Qed.

Lemma saved_size_entry_list w :
  saved_size w =
  total_from (entry_list w) (meta_end (is_big5 (self w)) (entry_list w)).
Proof.
  unfold saved_size. rewrite metadata_end_entry_list.
  unfold layout_end, total_from, entry_list, sizes. by rewrite fold_left_fmap.
Qed.

Lemma save_general (w : World) (hd : bytes) :
  wf w -> header (self w) = Some hd -> io w = IoOk ->
  Forall (fun e => 0 <= size e < 2 ^ 32 /\ path_ok (path e) /\ is_Some (data e))
    (entry_list w) ->
  saved_size w < 2 ^ 32 ->
  exists h',
    save w =
    (mkWorld h' (self w)
       (Some (serialize (is_big5 (self w)) hd (saved_size w)
                (relayout (entry_list w)
                   (meta_end (is_big5 (self w)) (entry_list w)))))
       IoOk, Ok tt) /\
    length h' = length (heap w) /\
    (forall r, exists o, h' !! r = set_offset o <$> heap w !! r) /\
    (forall r, r ∉ entries (self w) -> h' !! r = heap w !! r) /\
    (fun r => h' !!! r) <$> entries (self w) =
      relayout (entry_list w) (meta_end (is_big5 (self w)) (entry_list w)).
Proof.
  intros [Hnd Hlt] Hhd Hio Hes Htot.
  rewrite saved_size_entry_list in *.
  set (skip := is_big5 (self w)) in *.
  set (start := meta_end skip (entry_list w)) in *.
  set (total := total_from (entry_list w) start) in *.
  set (es' := relayout (entry_list w) start) in *.
  assert (Forall (fun e => 0 <= size e) (entry_list w)) as Hsz.
  { eapply Forall_impl; [exact Hes|]. by intros e ([? _] & _). }
  pose proof (meta_end_lower skip (entry_list w)) as Hlow. fold start in Hlow.
  destruct (relayout_bounds (entry_list w) start Hsz) as [Hst Hoff].
  fold total es' in Hst, Hoff.
  assert (0 <= len (entry_list w)) as Hn by (unfold len; lia).
  destruct (update_offsets_spec (entries (self w)) start w)
    as (h' & Hupd & Hlen & Hfr & Hout & Hlay).
  assert ((fun r => h' !!! r) <$> entries (self w) = es') as Hel.
  { apply entry_list_relayout; [done|done|]. by apply Hlay. }
  assert (layout_end (sizes (heap w)) (entries (self w)) start = total) as Htotal.
  { unfold layout_end, total, total_from, entry_list, sizes. by rewrite fold_left_fmap. }
  rewrite Htotal in Hupd.
  exists h'. split; [|done].
  rewrite save_unfold. unfold bind at 1.
  rewrite metadata_end_entry_list. fold skip start. rewrite Hupd.
  unfold save_write.
  unfold bind at 1. unfold fopen_wb at 1. cbn [io heap self disk]. rewrite Hio.
  unfold bind at 1. rewrite Hhd. cbn [fwrite_obj]. unfold fwrite at 1.
  cbn [io heap self disk default].
  unfold bind at 1. cbn [lift]. rewrite write_uint32_le_ok by lia.
  unfold bind at 1. unfold fwrite at 1. cbn [io heap self disk default].
  unfold bind at 1. cbn [lift].
  assert (len (entries (self w)) = len es') as Hcount.
  { unfold len, es', entry_list. by rewrite length_relayout, length_fmap. }
  assert (len es' < 2 ^ 32) as Hcnt.
  { unfold es', len. rewrite length_relayout. unfold len in *. lia. }
  rewrite Hcount, write_uint32_be_ok by (unfold len in *; lia).
  unfold bind at 1. unfold fwrite at 1. cbn [io heap self disk default].
  unfold bind at 1.
  assert (Forall (fun r => meta_ok (h' !!! r)) (entries (self w))) as Hrec.
  { apply (Forall_fmap (fun r => h' !!! r) meta_ok). rewrite Hel.
    assert (Forall (fun e => path_ok (path e) /\ 0 <= size e < 2 ^ 32) es') as Hp.
    { apply relayout_Forall; [by intros [] o|].
      eapply Forall_impl; [exact Hes|]. by intros e (? & ? & _). }
    rewrite Forall_forall in Hoff, Hp. apply Forall_forall. intros e' Hin.
    destruct (Hoff e' Hin), (Hp e' Hin) as [? ?].
    unfold meta_ok. repeat split; try done; lia. }
  assert (Forall (fun r => is_Some (data (h' !!! r))) (entries (self w))) as Hdat.
  { apply (Forall_fmap (fun r => h' !!! r) (fun e => is_Some (data e))).
    rewrite Hel. apply relayout_Forall; [by intros [] o|].
    eapply Forall_impl; [exact Hes|]. by intros e (_ & _ & ?). }
  fold skip. destruct skip eqn:Hb5.
  - unfold bind at 1. unfold fwrite at 1. cbn [io heap self disk default].
    erewrite write_records_run; [|done|reflexivity|exact Hrec].
    cbn [heap self disk io].
    erewrite write_payloads_run; [|done|reflexivity|exact Hdat].
    cbn [heap self disk io]. unfold serialize.
    rewrite <- !(flat_map_fmap _ (fun r => h' !!! r)), Hel.
    cbn [id app]. by rewrite <- !app_assoc.
  - unfold bind at 1. unfold fwrite at 1. cbn [io heap self disk default].
    erewrite write_records_run; [|done|reflexivity|exact Hrec].
    cbn [heap self disk io].
    erewrite write_payloads_run; [|done|reflexivity|exact Hdat].
    cbn [heap self disk io]. unfold serialize.
    rewrite <- !(flat_map_fmap _ (fun r => h' !!! r)), Hel.
    cbn [id app]. by rewrite <- !app_assoc.
Qed.

Lemma meta_end_paths skip es1 es2 :
  path <$> es1 = path <$> es2 -> meta_end skip es1 = meta_end skip es2.
Proof.
  intros H. unfold meta_end.
  pose proof (fold_left_fmap
    (fun co p => co + (if skip then 1 else 0) + 8 + (len p + 1)) path) as E.
  rewrite <- (E es1), <- (E es2). by rewrite H.
Qed.

Lemma total_from_sizes es1 es2 start :
  size <$> es1 = size <$> es2 -> total_from es1 start = total_from es2 start.
Proof.
  intros H. unfold total_from.
  pose proof (fold_left_fmap (fun co s => co + s) size) as E.
  rewrite <- (E es1), <- (E es2). by rewrite H.
Qed.

Lemma relayout_sizes es1 : forall es2 start,
  size <$> es1 = size <$> es2 ->
  (forall i e1 e2, es1 !! i = Some e1 -> es2 !! i = Some e2 ->
     set_offset 0 e1 = set_offset 0 e2) ->
  relayout es1 start = relayout es2 start.
Proof.
  induction es1 as [|e1 es1 IH]; intros [|e2 es2] start Hs Hf; try done.
  injection Hs as Hs1 Hs. cbn [relayout]. f_equal.
  - pose proof (Hf 0%nat e1 e2 eq_refl eq_refl) as E.
    destruct e1, e2. cbn in *. by injection E as -> -> -> ->.
  - rewrite Hs1. apply IH; [done|]. intros i. apply (Hf (S i)).
Qed.

Lemma relayout_relayout es start start' :
  relayout (relayout es start) start' = relayout es start'.
Proof.
  apply relayout_sizes.
  - pose proof (relayout_fields es start) as E.
    apply (f_equal (fmap (fun x : str * Z * option bytes => x.1.2))) in E.
    by rewrite <- !list_fmap_compose in E.
  - revert start. induction es as [|e es IH]; intros start i e1 e2 H1 H2; [done|].
    destruct i as [|i]; simpl in *.
    + injection H1 as <-. injection H2 as <-. by destruct e.
    + by apply (IH (start + size e) i).
Qed.

Lemma relayout_path es start : path <$> relayout es start = path <$> es.
Proof.
  pose proof (relayout_fields es start) as E.
  apply (f_equal (fmap (fun x : str * Z * option bytes => x.1.1))) in E.
  by rewrite <- !list_fmap_compose in E.
Qed.

Lemma relayout_size es start : size <$> relayout es start = size <$> es.
Proof.
  pose proof (relayout_fields es start) as E.
  apply (f_equal (fmap (fun x : str * Z * option bytes => x.1.2))) in E.
  by rewrite <- !list_fmap_compose in E.
Qed.

(** What [save] does to a storable archive, and what [load] makes of the
    file it wrote. *)
Lemma storable_save_load (w : World) :
  storable w ->
  exists hd h',
    let skip := is_big5 (self w) in
    let es' := relayout (entry_list w) (meta_end skip (entry_list w)) in
    let out := serialize skip hd (saved_size w) es' in
    header (self w) = Some hd /\ length hd = 4%nat /\
    save w = (mkWorld h' (self w) (Some out) IoOk, Ok tt) /\
    length h' = length (heap w) /\
    (forall r, r ∉ entries (self w) -> h' !! r = heap w !! r) /\
    (fun r => h' !!! r) <$> entries (self w) = es' /\
    len out = saved_size w /\
    Forall (fun e => meta_end skip (entry_list w) <= offset e /\
                     offset e + size e <= len out) es' /\
    load (Some out) (init_world IoOk) =
    (mkWorld (set_modified false <$> es')
       (mkBIGArchive (Some hd) (saved_size w) (seq 0 (length es')) (Some out))
       None IoOk, Ok tt).
Proof.
  intros (Hwf & (hd & Hhd & Hhd4 & Hmagic) & Hio & Hes & Htot).
  destruct (save_general w hd) as (h' & Hsave & Hlen & _ & Hout & Hel); try done.
  { eapply Forall_impl; [exact Hes|]. intros e (? & ? & d & Hd & _).
    rewrite Hd. split; [done|]. split; [done|]. by eexists. }
  exists hd, h'. cbv zeta.
  rewrite saved_size_entry_list in *.
  set (skip := is_big5 (self w)) in *.
  set (start := meta_end skip (entry_list w)) in *.
  set (total := total_from (entry_list w) start) in *.
  set (es' := relayout (entry_list w) start) in *.
  set (out := serialize skip hd total es') in *.
  assert (Forall (fun e => 0 <= size e) (entry_list w)) as Hsz.
  { eapply Forall_impl; [exact Hes|]. by intros e ([? _] & _). }
  pose proof (meta_end_lower skip (entry_list w)) as Hlow. fold start in Hlow.
  destruct (relayout_bounds (entry_list w) start Hsz) as [Hst Hoff].
  fold total es' in Hst, Hoff.
  assert (0 <= len (entry_list w)) as Hn by (unfold len; lia).
  assert (Forall meta_ok es') as Hmeta'.
  { assert (Forall (fun e => path_ok (path e) /\ 0 <= size e < 2 ^ 32) es') as Hp.
    { apply relayout_Forall; [by intros [] o|].
      eapply Forall_impl; [exact Hes|]. by intros e (? & ? & _). }
    rewrite Forall_forall in Hoff, Hp. apply Forall_forall. intros e' He'.
    destruct (Hoff e' He'), (Hp e' He') as [? ?].
    unfold meta_ok. repeat split; try done; lia. }
  set (H := hd ++ le32 total ++ be32 (len es') ++
            replicate (if skip then 3 else 4)%nat Byte.x00 ++
            flat_map (enc_record skip) es').
  assert (out = H ++ flat_map payload (entry_list w)) as Hout'.
  { unfold out, serialize, H, es'. rewrite payload_relayout.
    by rewrite <- !app_assoc. }
  assert (Z.of_nat (length H) = start) as HlenH.
  { unfold H. rewrite !length_app, Hhd4, length_le32, length_be32, length_replicate.
    pose proof (enc_records_relayout skip (entry_list w) start) as E1.
    pose proof (length_enc_records skip (entry_list w) (12 + (if skip then 3 else 4))) as E2.
    fold es' in E1. unfold start, meta_end. unfold len in *. destruct skip; lia. }
  assert (Forall (fun e => exists d, data e = Some d /\ len d = size e)
            (entry_list w)) as Hdat.
  { eapply Forall_impl; [exact Hes|]. by intros e (_ & _ & ?). }
  assert (len out = total) as Hlen_out.
  { rewrite Hout'. unfold len. rewrite length_app, Nat2Z.inj_add, HlenH.
    apply total_payload. exact Hdat. }
  split; [done|]. split; [done|]. split; [exact Hsave|]. split; [done|].
  split; [done|]. split; [done|]. split; [done|]. split.
  { rewrite Hlen_out. exact Hoff. }
  unfold out at 1. rewrite load_serialized; try done.
  - fold out. f_equal. f_equal.
    rewrite <- list_fmap_compose. apply Forall_fmap_ext_1.
    pose proof (payload_slices (entry_list w) start H HlenH Hdat) as Hsl.
    fold es' in Hsl. rewrite <- Hout' in Hsl.
    assert (Forall (fun e => is_Some (data e)) es') as Hmd.
    { apply relayout_Forall; [by intros [] o|].
      eapply Forall_impl; [exact Hes|]. intros e (_ & _ & d & Hd & _).
      rewrite Hd. by eexists. }
    rewrite Forall_forall in Hsl, Hmd. apply Forall_forall. intros e' He'.
    specialize (Hsl e' He'). destruct (Hmd e' He') as [d Hd].
    destruct e' as [o sz p dd m]. cbn in *. subst.
    unfold fill, as_read, FileEntry_init, set_data, set_modified. cbn.
    rewrite Hsl. reflexivity.
  - unfold skip, is_big5. rewrite Hhd. apply bool_decide_ext. split; congruence.
  - lia.
  - unfold es', len. rewrite length_relayout. unfold len in *. lia.
Qed.

Lemma storable_edited_world : storable edited_world.
Proof.
  split.
  { split; vm_compute.
    - apply (@bool_decide_unpack (NoDup [0; 2]%nat) _). vm_compute. exact I.
    - repeat constructor. }
  split; [exists (b_ "BIGF"); by vm_compute|].
  split; [reflexivity|]. split; [|by vm_compute].
  replace (entry_list edited_world) with
    [mkFileEntry 44 5 (py "a.ini") (Some (b_ "hello")) true;
     mkFileEntry 0 4 (py "new.txt") (Some (b_ "data")) true]
    by (vm_compute; reflexivity).
  repeat constructor; cbn [size path data]; try lia;
    try (apply (@bool_decide_unpack _ (Forall_dec _ _)); vm_compute; exact I);
    eexists; split; reflexivity.
Qed.

(** X2: saving a storable archive (any entry order, after any edits) and
    loading the written file gives the same paths, sizes and payloads in
    list order, the same magic, the offsets [save] assigned, and entries
    whose modified flag is clear. *)
Theorem save_load_round_trip (w : World) :
  storable w ->
  exists w2 B' w3,
    save w = (w2, Ok tt) /\ disk w2 = Some B' /\
    load (Some B') (init_world IoOk) = (w3, Ok tt) /\
    contents w3 = contents w /\
    offset <$> entry_list w3 = offset <$> entry_list w2 /\
    header (self w3) = header (self w) /\
    Forall (fun e => modified e = false) (entry_list w3).
Proof.
  intros Hst. destruct (storable_save_load w Hst)
    as (hd & h' & Hhd & _ & Hsave & _ & _ & Hel & _ & _ & Hload).
  cbv zeta in *.
  set (es' := relayout (entry_list w) (meta_end (is_big5 (self w)) (entry_list w))) in *.
  eexists _, _, _. split; [exact Hsave|]. split; [reflexivity|].
  split; [exact Hload|].
  assert (forall a d io, entry_list (mkWorld (set_modified false <$> es')
            (mkBIGArchive (Some hd) a (seq 0 (length es')) d) None io)
          = set_modified false <$> es') as Hel3.
  { intros. unfold entry_list. cbn [heap self entries].
    rewrite <- (length_fmap (set_modified false) es'). apply seq_lookup_total. }
  unfold contents. rewrite Hel3. unfold entry_list at 2. cbn [heap self]. rewrite Hel.
  split.
  { rewrite <- (relayout_fields (entry_list w)
      (meta_end (is_big5 (self w)) (entry_list w))). fold es'.
    rewrite <- list_fmap_compose. apply list_fmap_ext. by intros ? [] ?. }
  split.
  { rewrite <- list_fmap_compose. apply list_fmap_ext. by intros ? [] ?. }
  split; [done|]. apply Forall_fmap. by apply Forall_true.
Qed.

Lemma save_load_round_trip_witness :
  exists w2 B' w3,
    save edited_world = (w2, Ok tt) /\ disk w2 = Some B' /\
    load (Some B') (init_world IoOk) = (w3, Ok tt) /\
    contents w3 = [(py "a.ini", 5, Some (b_ "hello")); (py "new.txt", 4, Some (b_ "data"))].
Proof.
  destruct (save_load_round_trip edited_world storable_edited_world)
    as (w2 & B' & w3 & H1 & H2 & H3 & H4 & _).
  exists w2, B', w3. split; [exact H1|]. split; [exact H2|]. split; [exact H3|].
  rewrite H4. vm_compute. reflexivity.
Defined.

(** X3: the file [save] writes for a storable archive is itself a
    well-formed archive: it starts with the magic, its size field holds
    the actual length of the file, and its count field holds the number
    of entries. *)
Theorem saved_file_fields (w w2 : World) (B' : bytes) :
  storable w -> save w = (w2, Ok tt) -> disk w2 = Some B' ->
  Some (take 4 B') = header (self w) /\
  read_uint32_le (take 4 (drop 4 B')) = Ok (len B') /\
  read_uint32_be (take 4 (drop 8 B')) = Ok (len (entries (self w))) /\
  well_formed B' = true.
Proof.
  intros Hst Hsave HB.
  pose proof Hst as (Hwf & _ & _ & Hes & Htot).
  destruct (storable_save_load w Hst)
    as (hd & h' & Hhd & Hhd4 & Hsave' & _ & _ & Hel & Hlen & Hoff & Hload).
  cbv zeta in *. rewrite Hsave in Hsave'. injection Hsave' as ->.
  cbn [disk] in HB. injection HB as <-.
  set (skip := is_big5 (self w)) in *.
  set (es' := relayout (entry_list w) (meta_end skip (entry_list w))) in *.
  set (out := serialize skip hd (saved_size w) es') in *.
  assert (0 <= saved_size w) as Hpos by (rewrite <- Hlen; unfold len; lia).
  assert (len (entries (self w)) = len es') as Hcount.
  { unfold len, es', entry_list. by rewrite length_relayout, length_fmap. }
  assert (len es' < 2 ^ 32) as Hcnt.
  { pose proof (meta_end_lower skip (entry_list w)) as Hlow.
    assert (Forall (fun e => 0 <= size e) (entry_list w)) as Hsz.
    { eapply Forall_impl; [exact Hes|]. by intros e ([? _] & _). }
    destruct (relayout_bounds (entry_list w) (meta_end skip (entry_list w)) Hsz) as [Hb _].
    rewrite saved_size_entry_list in Htot. fold skip in Htot.
    unfold es', len. rewrite length_relayout. unfold len in *. lia. }
  split; [|split; [|split]].
  - rewrite Hhd. f_equal. unfold out, serialize. by apply take_app_length'.
  - unfold out at 1, serialize. rewrite drop_app_length' by done.
    rewrite take_app_length' by apply (length_le32 (saved_size w)).
    rewrite read_uint32_le_le32 by lia. by rewrite Hlen.
  - unfold out, serialize.
    replace 8%nat with (length (hd ++ le32 (saved_size w)))
      by (rewrite length_app, Hhd4, length_le32; reflexivity).
    rewrite (app_assoc hd), drop_app_length' by done.
    rewrite take_app_length' by apply (length_be32 (len es')).
    rewrite read_uint32_be_be32 by (unfold len in *; lia). by rewrite Hcount.
  - unfold well_formed. rewrite Hload.
    assert (entry_list (mkWorld (set_modified false <$> es')
              (mkBIGArchive (Some hd) (saved_size w) (seq 0 (length es')) (Some out))
              None IoOk) = set_modified false <$> es') as Hel3.
    { unfold entry_list. cbn [heap self entries].
      rewrite <- (length_fmap (set_modified false) es'). apply seq_lookup_total. }
    apply andb_true_intro. split.
    + rewrite Hel3. apply forallb_forall. intros e He. apply Z.leb_le.
      apply list_elem_of_In, list_elem_of_fmap in He as (e' & -> & He').
      rewrite Forall_forall in Hoff. destruct (Hoff e' He') as [_ ?]. by destruct e'.
    + apply Z.ltb_lt. rewrite saved_size_entry_list, Hel3. cbn [self].
      replace (is_big5 (mkBIGArchive (Some hd) (saved_size w) (seq 0 (length es'))
                 (Some out))) with skip
        by (unfold skip, is_big5; by rewrite Hhd).
      assert (path <$> (set_modified false <$> es') = path <$> entry_list w) as Hp.
      { rewrite <- (relayout_path (entry_list w) (meta_end skip (entry_list w))).
        fold es'. rewrite <- list_fmap_compose. apply list_fmap_ext. by intros ? [] ?. }
      assert (size <$> (set_modified false <$> es') = size <$> entry_list w) as Hs.
      { rewrite <- (relayout_size (entry_list w) (meta_end skip (entry_list w))).
        fold es'. rewrite <- list_fmap_compose. apply list_fmap_ext. by intros ? [] ?. }
      rewrite (meta_end_paths _ _ _ Hp), (total_from_sizes _ _ _ Hs).
      by rewrite <- saved_size_entry_list.
Qed.

Lemma saved_file_fields_witness :
  exists w2 B', save edited_world = (w2, Ok tt) /\ disk w2 = Some B' /\
                read_uint32_le (take 4 (drop 4 B')) = Ok 55 /\ len B' = 55.
Proof.
  exists (fst (save edited_world)),
    (default [] (disk (fst (save edited_world)))).
  assert (save edited_world = (fst (save edited_world), Ok tt)) as H1
    by (vm_compute; reflexivity).
  assert (disk (fst (save edited_world))
          = Some (default [] (disk (fst (save edited_world))))) as H2
    by (vm_compute; reflexivity).
  destruct (saved_file_fields _ _ _ storable_edited_world H1 H2) as (_ & H3 & _).
  split; [exact H1|]. split; [exact H2|].
  assert (len (default [] (disk (fst (save edited_world)))) = 55) as E
    by (vm_compute; reflexivity).
  split; [by rewrite H3, E|exact E].
Defined.

Lemma entry_ok_set_offset e o : entry_ok e -> entry_ok (set_offset o e).
Proof. by destruct e. Qed.

(** X4: [save] is idempotent on a storable archive: it leaves a storable
    archive, and saving again changes neither the offsets nor any other
    field of any entry and writes the same bytes. *)
Theorem save_idempotent (w : World) :
  storable w ->
  exists w2, save w = (w2, Ok tt) /\ storable w2 /\ save w2 = (w2, Ok tt).
Proof.
  intros Hst. pose proof Hst as ([Hnd Hlt] & (hd0 & Hhd0 & Hhd04 & Hmagic) & Hio & Hes & Htot).
  destruct (storable_save_load w Hst)
    as (hd & h' & Hhd & Hhd4 & Hsave & Hlen & _ & Hel & _ & _ & _).
  cbv zeta in *.
  set (skip := is_big5 (self w)) in *.
  set (start := meta_end skip (entry_list w)) in *.
  set (es' := relayout (entry_list w) start) in *.
  set (out := serialize skip hd (saved_size w) es') in *.
  set (w2 := mkWorld h' (self w) (Some out) IoOk).
  assert (entry_list w2 = es') as Hel2 by exact Hel.
  assert (meta_end skip es' = start) as Hstart.
  { apply meta_end_paths, relayout_path. }
  assert (saved_size w2 = saved_size w) as Hsize.
  { rewrite !saved_size_entry_list, Hel2. cbn [self w2]. fold skip.
    rewrite Hstart. fold start. apply total_from_sizes, relayout_size. }
  assert (storable w2) as Hst2.
  { split; [split; cbn [w2 heap self]; [done|by rewrite Hlen]|].
    split; [by exists hd0|]. split; [done|]. split; [|by rewrite Hsize].
    rewrite Hel2. apply relayout_Forall; [|done].
    intros e o. apply entry_ok_set_offset. }
  exists w2. split; [exact Hsave|]. split; [exact Hst2|].
  destruct (storable_save_load w2 Hst2)
    as (hd2 & h'' & Hhd2 & _ & Hsave2 & Hlen2 & Hout2 & Hel'' & _).
  cbv zeta in *.
  assert (relayout (entry_list w2) (meta_end (is_big5 (self w2)) (entry_list w2))
          = es') as Hre.
  { rewrite Hel2. change (is_big5 (self w2)) with skip. rewrite Hstart.
    apply relayout_relayout. }
  rewrite Hre in Hsave2, Hel''. rewrite Hsize in Hsave2.
  cbn [w2 self heap] in Hhd2, Hlen2, Hout2, Hel''.
  rewrite Hhd in Hhd2. injection Hhd2 as <-.
  rewrite Hsave2. change (is_big5 (self w2)) with skip. fold out.
  unfold w2. cbn [self]. f_equal. f_equal.
  apply list_eq. intros r.
  destruct (decide (r ∈ entries (self w))) as [Hin|Hin]; [|by apply Hout2].
  apply list_elem_of_lookup in Hin as [i Hi].
  pose proof (f_equal (fun l => l !! i) Hel'') as E1.
  pose proof (f_equal (fun l => l !! i) Hel) as E2.
  cbn beta in E1, E2. rewrite list_lookup_fmap, Hi in E1, E2. simpl in E1, E2.
  rewrite Forall_forall in Hlt.
  pose proof (Hlt r (list_elem_of_lookup_2 _ _ _ Hi)) as Hr.
  destruct (lookup_lt_is_Some_2 h' r) as [e1 He1]; [lia|].
  destruct (lookup_lt_is_Some_2 h'' r) as [e2 He2]; [lia|].
  rewrite (list_lookup_total_correct _ _ _ He1) in E2.
  rewrite (list_lookup_total_correct _ _ _ He2) in E1.
  rewrite He1, He2. congruence.
Qed.

Lemma save_idempotent_witness :
  exists w2, save edited_world = (w2, Ok tt) /\ save w2 = (w2, Ok tt) /\
             offset <$> entry_list w2 = [46; 51].
Proof.
  destruct (save_idempotent edited_world storable_edited_world)
    as (w2 & H1 & _ & H2).
  exists w2. split; [exact H1|]. split; [exact H2|].
  assert (w2 = fst (save edited_world)) as -> by (by rewrite H1).
  vm_compute. reflexivity.
Defined.

(** The archive [load] builds from a well-formed file is storable. *)
Lemma load_storable (B : bytes) (w1 : World) :
  well_formed B = true ->
  load (Some B) (init_world IoOk) = (w1, Ok tt) -> storable w1.
Proof.
  unfold well_formed. intros Hwf Hload. rewrite Hload in Hwf.
  apply andb_prop in Hwf as [Hin Hfit].
  apply Z.ltb_lt in Hfit. rewrite forallb_forall in Hin.
  assert (startswith (take 4 B) (b_ "BIG") = true) as Hmagic.
  { destruct (startswith (take 4 B) (b_ "BIG")) eqn:E; [done|].
    apply load_rejects_iff with (w := init_world IoOk) in E.
    rewrite Hload in E. discriminate. }
  destruct (load_fresh_shape B IoOk w1 Hload)
    as (metas & Hhd & Hhd4 & Hheap & Hent & Hmetas & Hdisk & Hio).
  assert (entries (self w1) = seq 0 (length (heap w1))) as Hcan.
  { by rewrite Hheap, length_fmap. }
  assert (entry_list w1 = heap w1) as Hel1.
  { unfold entry_list. rewrite Hcan. apply seq_lookup_total. }
  split.
  { split; rewrite Hcan; [apply NoDup_seq|].
    apply Forall_forall. intros r Hr%elem_of_seq. lia. }
  split; [by exists (take 4 B)|]. split; [done|]. split; [|done].
  rewrite Hel1. apply Forall_forall. intros e He.
  assert (offset e + size e <= len B) as Hb.
  { apply Z.leb_le, Hin. rewrite Hel1. by apply list_elem_of_In. }
  rewrite Hheap in He. apply list_elem_of_fmap in He as (m & -> & Hm).
  rewrite Forall_forall in Hmetas. destruct (Hmetas m Hm) as ((Ho & Hs & Hp) & _ & _).
  split; [exact Hs|]. split; [exact Hp|]. eexists. split; [reflexivity|].
  cbn [fill set_data size offset] in *.
  unfold len in *. rewrite length_take, length_drop. lia.
Qed.

(** ** Edits keep an archive storable *)

Lemma fold_left_add_sublist {A} (g : A -> Z) (l' l : list A) :
  sublist l' l -> Forall (fun x => 0 <= g x) l ->
  forall s' s, s' <= s ->
  fold_left (fun co x => co + g x) l' s' <= fold_left (fun co x => co + g x) l s.
Proof.
  induction 1 as [|x l1 l2 Hsub IH|x l1 l2 Hsub IH]; intros Hg s' s Hs; simpl.
  - done.
  - apply Forall_cons in Hg as [Hx Hg]. apply IH; [done|lia].
  - apply Forall_cons in Hg as [Hx Hg]. apply IH; [done|lia].
Qed.

Lemma saved_size_sublist skip (l' l : list FileEntry) :
  sublist l' l -> Forall (fun e => 0 <= size e) l ->
  total_from l' (meta_end skip l') <= total_from l (meta_end skip l).
Proof.
  intros Hsub Hsz. unfold total_from.
  apply (fold_left_add_sublist size); [done|done|].
  unfold meta_end.
  pose proof (fold_left_add_sublist
    (fun e => (if skip then 1 else 0) + 8 + (len (path e) + 1)) l' l Hsub) as H.
  etransitivity; [|etransitivity; [apply (H ltac:(apply Forall_forall; intros e _;
    unfold len; destruct skip; lia) (12 + (if skip then 3 else 4))
    (12 + (if skip then 3 else 4)) ltac:(lia))|]];
    apply Z.eq_le_incl, fold_left_ext; intros; lia.
Qed.

Lemma storable_add_file p d w :
  storable w -> path_ok p -> len d < 2 ^ 32 ->
  saved_size (fst (add_file p d w)) < 2 ^ 32 ->
  storable (fst (add_file p d w)) /\
  contents (fst (add_file p d w)) = contents w ++ [(p, len d, Some d)].
Proof.
  intros (Hwf & Hhd & Hio & Hes & _) Hp Hd Hfit.
  assert (entry_list (fst (add_file p d w)) =
          entry_list w ++ [mkFileEntry 0 (len d) p (Some d) true]) as Hel.
  { rewrite add_file_run. unfold entry_list. cbn [fst heap self entries set_entries].
    rewrite fmap_app. f_equal.
    - apply Forall_fmap_ext_1. destruct Hwf as [_ Hlt].
      eapply Forall_impl; [exact Hlt|]. intros r Hr. cbn beta.
      by rewrite lookup_total_app_l.
    - cbn [fmap list_fmap]. by rewrite lookup_total_app_r, Nat.sub_diag. }
  split.
  - split; [by apply wf_add_file|]. split; [by rewrite add_file_run|].
    split; [by rewrite add_file_run|]. split; [|done].
    rewrite Hel. apply Forall_app. split; [done|]. repeat constructor; cbn.
    + unfold len. lia.
    + clear Hfit. unfold len in *. lia.
    + done.
    + by eexists.
  - unfold contents. by rewrite Hel, fmap_app.
Qed.

Lemma storable_update_file e d w :
  storable w -> len d < 2 ^ 32 ->
  saved_size (fst (update_file e d w)) < 2 ^ 32 ->
  storable (fst (update_file e d w)).
Proof.
  intros (Hwf & Hhd & Hio & Hes & _) Hd Hfit.
  split; [by apply wf_update_file|]. rewrite update_file_run in *.
  split; [done|]. split; [done|]. split; [|done].
  unfold entry_list in *. cbn [fst heap self] in *.
  destruct Hwf as [_ Hlt]. rewrite Forall_fmap in Hes. apply Forall_fmap.
  rewrite Forall_forall in Hes, Hlt. apply Forall_forall. intros r Hr. cbn.
  specialize (Hes r Hr). specialize (Hlt r Hr). cbn in Hes.
  rewrite list_lookup_total_alter. destruct (decide _) as [[-> _]|_]; [|done].
  destruct Hes as (_ & Hp & _). split; cbn; [clear Hfit; unfold len in *; lia|].
  split; [done|]. by eexists.
Qed.

Lemma storable_remove_file e w :
  storable w -> e ∈ entries (self w) -> storable (fst (remove_file e w)).
Proof.
  intros (Hwf & Hhd & Hio & Hes & Hfit) Hin.
  split; [by apply wf_remove_file|]. destruct Hwf as [Hnd Hlt].
  rewrite saved_size_entry_list in *. rewrite remove_file_run in * by done.
  unfold entry_list in *. cbn [fst heap self entries set_entries] in *.
  assert (sublist ((fun r => heap w !!! r) <$> filter (fun r => r <> e) (entries (self w)))
                  ((fun r => heap w !!! r) <$> entries (self w))) as Hsub.
  { apply fmap_sublist, sublist_filter. }
  split; [done|]. split; [done|]. split.
  - rewrite Forall_forall in Hes. apply Forall_forall. intros x Hx.
    apply Hes. by eapply elem_of_sublist.
  - assert (is_big5 (set_entries (filter (fun r => r <> e) (entries (self w))) (self w))
            = is_big5 (self w)) as -> by done.
    eapply Z.le_lt_trans; [|exact Hfit]. apply saved_size_sublist; [done|].
    eapply Forall_impl; [exact Hes|]. by intros x ([? _] & _).
Qed.

(** X5: edits keep an archive storable, so that it can be saved and read
    back: [add_file] with an ASCII path without NUL, [update_file] of any
    entry, and [remove_file] of a listed entry, as long as the payload
    and the resulting file stay below 2^32 bytes; [add_file] appends the
    triple of the new entry to the contents. *)
Theorem edits_keep_storable (w : World) :
  storable w ->
  (forall p d, path_ok p -> len d < 2 ^ 32 ->
     saved_size (fst (add_file p d w)) < 2 ^ 32 ->
     storable (fst (add_file p d w)) /\
     contents (fst (add_file p d w)) = contents w ++ [(p, len d, Some d)]) /\
  (forall e d, len d < 2 ^ 32 ->
     saved_size (fst (update_file e d w)) < 2 ^ 32 ->
     storable (fst (update_file e d w))) /\
  (forall e, e ∈ entries (self w) -> storable (fst (remove_file e w))).
Proof.
  intros Hst. split; [|split].
  - intros p d. by apply storable_add_file.
  - intros e d. by apply storable_update_file.
  - intros e. by apply storable_remove_file.
Qed.

Lemma edits_keep_storable_witness :
  storable (fst (add_file (py "c.txt") (b_ "xyz") edited_world)) /\
  contents (fst (add_file (py "c.txt") (b_ "xyz") edited_world)) =
  [(py "a.ini", 5, Some (b_ "hello")); (py "new.txt", 4, Some (b_ "data"));
   (py "c.txt", 3, Some (b_ "xyz"))].
Proof.
  destruct (edits_keep_storable edited_world storable_edited_world) as (Hadd & _).
  destruct (Hadd (py "c.txt") (b_ "xyz")) as [H1 H2].
  - vm_compute. repeat constructor.
  - vm_compute. reflexivity.
  - vm_compute. reflexivity.
  - split; [exact H1|]. rewrite H2. vm_compute. reflexivity.
Defined.

(** ** Paths on the wire *)

Lemma encode_ascii_length s bs : encode_ascii s = Ok bs -> length bs = length s.
Proof.
  revert bs. induction s as [|c s IH]; intros bs; simpl.
  - by intros [= <-].
  - destruct (c <? 128)%N; [|done].
    destruct (encode_ascii s) as [r|e]; simpl; [|done].
    intros [= <-]. simpl. f_equal. by apply IH.
Qed.

Lemma encode_ascii_raises s :
  encode_ascii s = Raise UnicodeEncodeError <-> Exists (fun c => (128 <= c)%N) s.
Proof.
  induction s as [|c s IH]; simpl.
  - split; [done|]. by intros ?%Exists_nil.
  - rewrite Exists_cons. destruct (N.ltb_spec c 128).
    + destruct (encode_ascii s) as [r|e] eqn:E; simpl.
      * split; [done|]. intros [Hc|Hs]; [lia|]. by apply IH in Hs.
      * split; [intros [= ->]; right; by apply IH|].
        intros [Hc|Hs]; [lia|]. by apply IH in Hs.
    + split; [by left|done].
Qed.

Lemma encode_ascii_cases s :
  (exists bs, encode_ascii s = Ok bs) \/ encode_ascii s = Raise UnicodeEncodeError.
Proof.
  induction s as [|c s IH]; simpl; [by left; eexists|].
  destruct (c <? 128)%N; [|by right].
  destruct IH as [[bs ->]| ->]; simpl; [left; by eexists|by right].
Qed.

(** X6: [write_string] and [read_string] are inverse on ASCII paths
    without NUL: the path is written as its octets followed by one NUL,
    and reading at the start of these octets, wherever they lie in a
    buffer, gives the path back and leaves the cursor just after the NUL.
    What [read_string] returns is always such a path, so every path that
    [load] produces can be written by [save]. *)
Theorem string_codec (p : str) (f : BytesIO) :
  (path_ok p ->
   exists bs, write_string p = Ok bs /\ length bs = S (length p) /\
     forall pre rest,
       read_string (mkBytesIO (pre ++ bs ++ rest) (length pre)) =
       (p, mkBytesIO (pre ++ bs ++ rest) (length pre + length bs))) /\
  path_ok (read_string f).1 /\
  (exists bs, write_string (read_string f).1 = Ok bs).
Proof.
  split; [|split].
  - intros Hp. exists (encb p ++ [Byte.x00]). unfold write_string.
    rewrite encode_ascii_ok by done. split; [done|]. split.
    { rewrite length_app, length_encb. simpl. lia. }
    intros pre rest.
    rewrite (read_string_rem _ (encb p) rest).
    + rewrite decode_encb by done. cbn [buf pos]. rewrite length_app. simpl.
      do 2 f_equal. lia.
    + unfold remaining. cbn [buf pos]. rewrite drop_app_length.
      by rewrite <- app_assoc.
    + by apply encb_nonul.
  - unfold read_string. pose proof (read_string_loop_nonul (drop (pos f) (buf f))) as H.
    destruct (read_string_loop _) as [name k]. simpl in *. by apply decode_path_ok.
  - assert (path_ok (read_string f).1) as Hp.
    { unfold read_string.
      pose proof (read_string_loop_nonul (drop (pos f) (buf f))) as H.
      destruct (read_string_loop _) as [name k]. simpl in *. by apply decode_path_ok. }
    unfold write_string. rewrite encode_ascii_ok by done. by eexists.
Qed.

Lemma string_codec_witness :
  read_string (mkBytesIO (b_ "xx" ++ (b_ "a.ini" ++ [Byte.x00]) ++ b_ "yy") 2)
  = (py "a.ini", mkBytesIO (b_ "xx" ++ (b_ "a.ini" ++ [Byte.x00]) ++ b_ "yy") 8).
Proof.
  destruct (string_codec (py "a.ini") (mkBytesIO [] 0)) as (H & _).
  destruct H as (bs & Hw & _ & Hr).
  - vm_compute. repeat constructor.
  - assert (bs = b_ "a.ini" ++ [Byte.x00]) as ->.
    { vm_compute in Hw. by injection Hw as <-. }
    apply (Hr (b_ "xx") (b_ "yy")).
Defined.

(** X7: [write_string] fails exactly on a path with a code point above
    0x7f, with [UnicodeEncodeError]; it accepts every other path (a NUL
    included) and then writes one octet per code point and a final NUL. *)
Theorem write_string_raises (s : str) :
  (write_string s = Raise UnicodeEncodeError <-> Exists (fun c => (128 <= c)%N) s) /\
  (forall e, write_string s = Raise e -> e = UnicodeEncodeError) /\
  (forall bs, write_string s = Ok bs ->
     length bs = S (length s) /\ last bs = Some Byte.x00).
Proof.
  unfold write_string. split; [|split].
  - rewrite <- encode_ascii_raises.
    destruct (encode_ascii s) as [r|e]; simpl; split; congruence.
  - intros e. destruct (encode_ascii_cases s) as [[bs ->]| ->]; simpl; congruence.
  - intros bs. destruct (encode_ascii s) as [r|e] eqn:E; simpl; [|done].
    intros [= <-]. rewrite length_app, (encode_ascii_length _ _ E). simpl.
    split; [lia|]. by rewrite last_snoc.
Qed.

Lemma write_string_raises_witness :
  write_string (py "a" ++ [233%N]) = Raise UnicodeEncodeError /\
  write_string [97%N; 0%N] = Ok [Byte.x61; Byte.x00; Byte.x00].
Proof.
  destruct (write_string_raises (py "a" ++ [233%N])) as ([_ H] & _ & _).
  split; [|reflexivity]. apply H. apply Exists_cons_tl, Exists_cons_hd. done.
Defined.

(** ** Failures of [load] *)

Lemma load_data_loop_length (file : BytesIO) (l : list nat) (w : World) :
  exists h',
    for_each l (fun r =>
      w <~ get_world ;~
      let e := heap w !!! r in
      let file := bio_seek (Z.to_nat (offset e)) file in
      let '(d, _) := bio_read (Z.to_nat (size e)) file in
      with_heap (alter (set_data (Some d)) r)) w
    = (mkWorld h' (self w) (disk w) (io w), Ok tt) /\
    length h' = length (heap w).
Proof.
  destruct (load_data_loop file l w) as (h' & Hrun & Hh).
  exists h'. split; [exact Hrun|].
  destruct (Nat.lt_trichotomy (length h') (length (heap w))) as [Hlt|[Heq|Hlt]]; [|done|].
  - specialize (Hh (length h')). rewrite lookup_ge_None_2 in Hh by lia.
    destruct (lookup_lt_is_Some_2 (heap w) (length h') Hlt) as [e He].
    rewrite He in Hh. by destruct (decide _).
  - specialize (Hh (length (heap w))).
    rewrite (lookup_ge_None_2 (heap w)) in Hh by lia.
    destruct (lookup_lt_is_Some_2 h' (length (heap w)) Hlt) as [e He].
    rewrite He in Hh. by destruct (decide _).
Qed.

Lemma appends_same w w' :
  entries (self w') = entries (self w) -> length (heap w') = length (heap w) ->
  appends w w'.
Proof. intros He Hh. exists 0%nat. simpl. by rewrite app_nil_r, Nat.add_0_r. Qed.

Lemma appends_refl w : appends w w.
Proof. by apply appends_same. Qed.

Lemma read_records_appends skip n : forall file w,
  appends w (fst (read_records skip n file w)).
Proof.
  induction n as [|n IH]; intros file w; [apply appends_refl|].
  cbn [read_records]. destruct (bio_read 4 _) as [d1 f1].
  unfold bind at 1. cbn [lift].
  destruct (read_uint32_be d1) as [o|e]; [|apply appends_refl].
  destruct (bio_read 4 f1) as [d2 f2].
  unfold bind at 1. cbn [lift].
  destruct (read_uint32_be d2) as [sz|e]; [|apply appends_refl].
  destruct (read_string f2) as [p f3].
  unfold bind at 1. cbn [alloc]. unfold bind at 1.
  unfold entries_append, with_self. cbn [heap self disk io].
  match goal with |- appends _ (fst (read_records _ _ ?f ?w1)) =>
    destruct (IH f w1) as (k & Hent & Hlen) end.
  cbn [heap self entries set_entries] in *.
  exists (S k). rewrite Hent, Hlen, length_app. cbn [length seq].
  rewrite <- app_assoc. cbn [app].
  replace (length (heap w) + 1)%nat with (S (length (heap w))) by lia.
  split; [done|lia].
Qed.

Lemma load_appends content w : appends w (fst (load content w)).
Proof.
  destruct content as [B|]; [|apply appends_refl].
  rewrite load_unfold. cbv zeta.
  destruct (startswith _ _); [|by apply appends_same].
  destruct (bio_read 4 _) as [d1 f1].
  unfold bind at 1. cbn [lift].
  destruct (read_uint32_le d1) as [fs|e]; [|by apply appends_same].
  unfold bind at 1. cbn [with_self heap self disk io].
  destruct (bio_read 4 f1) as [d2 f2].
  unfold bind at 1. cbn [lift].
  destruct (read_uint32_be d2) as [n|e]; [|by apply appends_same].
  unfold bind at 1.
  match goal with |- context [(if ?c then read_records ?s1 ?n ?fa else read_records ?s2 _ ?fb) ?w0] =>
    assert (exists s fx, (if c then read_records s1 n fa else read_records s2 n fb) w0
                         = read_records s n fx w0) as (s & fx & ->)
      by (destruct c; eauto);
    pose proof (read_records_appends s n fx w0) as Happ;
    destruct (read_records s n fx w0) as [w1 [file|e]]
  end; [|exact Happ].
  unfold bind at 1. cbn [get_world].
  destruct (load_data_loop_length file (entries (self w1)) w1) as (h' & Hrun & Hlen).
  cbv zeta in Hrun. rewrite Hrun.
  destruct Happ as (k & Hent & Hk). cbn [fst heap self entries set_entries
    set_file_size set_header set_original_data] in *.
  exists k. cbn [heap self]. by rewrite Hlen.
Qed.

(** X8: [load] only ever appends: whatever the content and the outcome,
    the entries listed before are still listed first, in order, followed
    by one fresh object per record read; so the references of the archive
    stay distinct and live. *)
Theorem load_keeps_wf (content : option bytes) (w : World) :
  wf w ->
  appends w (fst (load content w)) /\ wf (fst (load content w)).
Proof.
  intros [Hnd Hlt]. pose proof (load_appends content w) as Happ.
  split; [exact Happ|]. destruct Happ as (k & Hent & Hlen).
  rewrite Forall_forall in Hlt. split; rewrite Hent.
  - apply NoDup_app. split; [done|]. split; [|apply NoDup_seq].
    intros r Hr Hs%elem_of_seq. apply Hlt in Hr. lia.
  - rewrite Hlen. apply Forall_app. split; apply Forall_forall.
    + intros r Hr. apply Hlt in Hr. lia.
    + intros r Hr%elem_of_seq. lia.
Qed.

Lemma load_keeps_wf_witness :
  entries (self (fst (load (Some sample_archive) (one_entry_world IoOk)))) = [0; 1; 2]%nat /\
  wf (fst (load (Some sample_archive) (one_entry_world IoOk))).
Proof.
  destruct (load_keeps_wf (Some sample_archive) (one_entry_world IoOk)) as [_ H].
  - split; vm_compute; [apply NoDup_singleton|repeat constructor].
  - split; [vm_compute; reflexivity|exact H].
Defined.

Lemma read_records_header skip n : forall file w,
  header (self (fst (read_records skip n file w))) = header (self w).
Proof.
  induction n as [|n IH]; intros file w; [done|].
  cbn [read_records]. destruct (bio_read 4 _) as [d1 f1].
  unfold bind at 1. cbn [lift].
  destruct (read_uint32_be d1) as [o|e]; [|done].
  destruct (bio_read 4 f1) as [d2 f2].
  unfold bind at 1. cbn [lift].
  destruct (read_uint32_be d2) as [sz|e]; [|done].
  destruct (read_string f2) as [p f3].
  unfold bind at 1. cbn [alloc]. unfold bind at 1.
  unfold entries_append, with_self. cbn [heap self disk io].
  by rewrite IH.
Qed.

(** X9: the failures of [load]: [IOError] when the file cannot be read,
    [ValueError] on a bad magic, and otherwise only [struct.error], which
    a file whose magic is right but which has fewer than twelve bytes
    always gets.  The header field is overwritten before the magic is
    tested, so it is changed even when [load] fails. *)
Theorem load_failures (B : bytes) (w : World) :
  snd (load None w) = Raise IOError /\
  (forall e, snd (load (Some B) w) = Raise e ->
     (e = ValueError /\ startswith (take 4 B) (b_ "BIG") = false) \/
     (e = StructError /\ startswith (take 4 B) (b_ "BIG") = true)) /\
  (startswith (take 4 B) (b_ "BIG") = true -> (length B < 12)%nat ->
     snd (load (Some B) w) = Raise StructError /\
     entries (self (fst (load (Some B) w))) = entries (self w)) /\
  header (self (fst (load (Some B) w))) = Some (take 4 B).
Proof.
  split; [done|]. split; [|split].
  - intros e He. destruct (startswith (take 4 B) (b_ "BIG")) eqn:E.
    + right. split; [|done]. rewrite load_unfold in He. cbv zeta in He.
      rewrite E in He. by apply load_body_raises in He.
    + left. split; [|done]. rewrite load_unfold in He. cbv zeta in He.
      rewrite E in He. simpl in He. congruence.
  - intros E Hlen. rewrite load_unfold. cbv zeta. rewrite E.
    cbn [bio_read buf pos]. unfold bind at 1. cbn [lift].
    destruct (read_uint32_le _) as [fs|e] eqn:Hrd.
    + apply read_uint32_le_range in Hrd as [_ H4].
      unfold bind at 1. cbn [with_self heap self disk io].
      unfold bind at 1. cbn [lift].
      rewrite read_uint32_be_short; [done|].
      rewrite !length_take, !length_drop in *. lia.
    + by apply read_uint32_le_raises in Hrd as ->.
  - pose proof (load_appends (Some B) w) as _.
    rewrite load_unfold. cbv zeta.
    destruct (startswith _ _); [|done].
    destruct (bio_read 4 _) as [d1 f1].
    unfold bind at 1. cbn [lift].
    destruct (read_uint32_le d1) as [fs|e]; [|done].
    unfold bind at 1. cbn [with_self heap self disk io].
    destruct (bio_read 4 f1) as [d2 f2].
    unfold bind at 1. cbn [lift].
    destruct (read_uint32_be d2) as [n|e]; [|done].
    unfold bind at 1.
    match goal with |- context [(if ?c then read_records ?s1 ?n ?fa else read_records ?s2 _ ?fb) ?w0] =>
      assert (exists s fx, (if c then read_records s1 n fa else read_records s2 n fb) w0
                           = read_records s n fx w0) as (s & fx & ->)
        by (destruct c; eauto);
      pose proof (read_records_header s n fx w0) as Hh;
      destruct (read_records s n fx w0) as [w1 [file|e]]
    end; [|exact Hh].
    unfold bind at 1. cbn [get_world].
    destruct (load_data_loop_length file (entries (self w1)) w1) as (h' & Hrun & Hlen).
    cbv zeta in Hrun. rewrite Hrun. exact Hh.
Qed.

Lemma load_failures_witness :
  snd (load (Some (b_ "BIGF12345")) (init_world IoOk)) = Raise StructError.
Proof.
  destruct (load_failures (b_ "BIGF12345") (init_world IoOk)) as (_ & _ & H & _).
  destruct H as [H _]; [reflexivity|vm_compute; lia|exact H].
Defined.

(** ** Short payloads *)

(** X10: [load] does not check payload regions against the file: when
    it returns, every entry holds the slice of the file that starts at
    its offset and has at most [size] bytes, so the payload is shorter
    than [size] whenever the region runs past the end of the file and
    empty when the offset lies beyond it; [size] itself is kept as read. *)
Theorem load_clips_payload (B : bytes) (env : io_env) (w1 : World) :
  load (Some B) (init_world env) = (w1, Ok tt) ->
  Forall (fun e =>
            data e = Some (take (Z.to_nat (size e)) (drop (Z.to_nat (offset e)) B)) /\
            len (payload e) = Z.min (size e) (Z.max 0 (len B - offset e)))
    (entry_list w1).
Proof.
  intros Hload.
  destruct (load_fresh_shape B env w1 Hload)
    as (metas & _ & _ & Hheap & Hent & Hmetas & _).
  assert (entry_list w1 = heap w1) as ->.
  { unfold entry_list. rewrite Hent, Hheap, <- (length_fmap (fill B) metas).
    apply seq_lookup_total. }
  rewrite Hheap. apply Forall_fmap. eapply Forall_impl; [exact Hmetas|].
  intros m ((Ho & Hs & _) & _ & _). unfold payload, fill, compose.
  cbn [set_data data size offset default from_option id].
  split; [done|]. unfold len. rewrite length_take, length_drop. lia.
Qed.

Lemma load_clips_payload_witness :
  exists w1,
    load (Some short_archive) (init_world IoOk) = (w1, Ok tt) /\
    Forall (fun e => len (payload e) = Z.min (size e) (Z.max 0 (len short_archive - offset e)))
      (entry_list w1) /\
    contents w1 = [(py "a", 10, Some (b_ "xyz"))].
Proof.
  exists (fst (load (Some short_archive) (init_world IoOk))).
  assert (load (Some short_archive) (init_world IoOk) =
          (fst (load (Some short_archive) (init_world IoOk)), Ok tt)) as Hl
    by (vm_compute; reflexivity).
  split; [exact Hl|]. split.
  - eapply Forall_impl; [exact (load_clips_payload _ _ _ Hl)|]. by intros e [_ ?].
  - vm_compute. reflexivity.
Defined.

(** ** Removing an entry that is not listed *)

Lemma list_remove_raises x l :
  (list_remove x l = Raise ValueError <-> x ∉ l) /\
  (forall e, list_remove x l = Raise e -> e = ValueError).
Proof.
  induction l as [|y l [IH1 IH2]]; simpl.
  - split; [|by intros e [= <-]]. split; [intros _; apply not_elem_of_nil|done].
  - rewrite not_elem_of_cons. destruct (decide (y = x)) as [->|Hne].
    + split; [|done]. split; [done|]. by intros [? _].
    + destruct (list_remove x l) as [l'|e] eqn:E; simpl.
      * split; [|done]. split; [done|]. intros [_ H]. by apply IH1 in H.
      * split; [|intros e' [= <-]; by apply IH2].
        split; [intros [= ->]; split; [done|by apply IH1]|].
        intros [_ H]. apply IH1 in H. congruence.
Qed.

(** X11: [remove_file] fails exactly when the entry is not in the list,
    with [ValueError], and then the archive is left as it was. *)
Theorem remove_file_absent (e : nat) (w : World) :
  (snd (remove_file e w) = Raise ValueError <-> e ∉ entries (self w)) /\
  (forall x, snd (remove_file e w) = Raise x -> x = ValueError /\ fst (remove_file e w) = w).
Proof.
  destruct (list_remove_raises e (entries (self w))) as [H1 H2].
  unfold remove_file, bind, get_world, lift, with_self.
  destruct (list_remove e (entries (self w))) as [l|x] eqn:E; simpl.
  - split; [|done]. rewrite <- H1. done.
  - split.
    + rewrite <- H1. split; congruence.
    + intros x' [= <-]. split; [by apply H2|done].
Qed.

Lemma remove_file_absent_witness :
  snd (remove_file 5%nat (one_entry_world IoOk)) = Raise ValueError /\
  fst (remove_file 5%nat (one_entry_world IoOk)) = one_entry_world IoOk.
Proof.
  destruct (remove_file_absent 5%nat (one_entry_world IoOk)) as [[_ H1] H2].
  assert (snd (remove_file 5%nat (one_entry_world IoOk)) = Raise ValueError) as E.
  { apply H1. vm_compute. intros H. apply list_elem_of_singleton in H. discriminate. }
  split; [exact E|]. by destruct (H2 ValueError E).
Defined.

(** ** What a failing [save] leaves in the destination *)

Lemma disk_stays_bind {A B} (m : M A) (k : A -> M B) :
  disk_stays m -> (forall a, disk_stays (k a)) -> disk_stays (bind m k).
Proof.
  intros Hm Hk w Hw. unfold bind. specialize (Hm w Hw).
  destruct (m w) as [w' [a|e]]; simpl in *; [|done]. by apply Hk.
Qed.

Lemma disk_stays_ret {A} (a : A) : disk_stays (ret a).
Proof. by intros w. Qed.
Lemma disk_stays_lift {A} (r : result A) : disk_stays (lift r).
Proof. by intros w. Qed.
Lemma disk_stays_get_world : disk_stays get_world.
Proof. by intros w. Qed.
Lemma disk_stays_fwrite c : disk_stays (fwrite c).
Proof. intros w Hw. unfold fwrite. destruct (io w) as [| |[|n]]; simpl; eauto. Qed.
Lemma disk_stays_fwrite_obj c : disk_stays (fwrite_obj c).
Proof. destruct c; [apply disk_stays_fwrite|by intros w]. Qed.
Lemma disk_stays_for_each {A} (l : list A) body :
  (forall x, disk_stays (body x)) -> disk_stays (for_each l body).
Proof.
  intros Hb. induction l as [|x l IH]; simpl; [apply disk_stays_ret|].
  apply disk_stays_bind; auto.
Qed.
Lemma disk_stays_write_record skip r : disk_stays (write_record skip r).
Proof.
  unfold write_record.
  repeat (first [ apply disk_stays_bind; [|intros ?] | apply disk_stays_fwrite
                | apply disk_stays_lift | apply disk_stays_get_world
                | apply disk_stays_ret | destruct skip ]).
Qed.

(** X12: once the destination could be opened, [save] starts it from
    empty: whatever the destination held before has no influence on the
    outcome or on what the destination holds afterwards, also when [save]
    fails half-way.  In particular an archive whose header was never set
    by [load] cannot be saved: [save] raises [TypeError] and leaves an
    empty destination. *)
Theorem save_overwrites_destination (w : World) (old : option bytes) :
  io w <> IoOpenFails ->
  save (mkWorld (heap w) (self w) old (io w)) = save w /\
  is_Some (disk (fst (save w))) /\
  (header (self w) = None ->
   snd (save w) = Raise TypeError /\ disk (fst (save w)) = Some []).
Proof.
  intros Hio. rewrite !save_unfold. unfold bind.
  cbn [heap self]. rewrite update_offsets_disk.
  destruct (update_offsets_spec (entries (self w)) (metadata_end (self w) (heap w)) w)
    as (h' & -> & _). cbn [fst snd heap self disk io].
  unfold save_write. rewrite !bind_fopen_wb by done. cbn [heap self disk io].
  split; [reflexivity|]. split.
  - apply disk_stays_bind; [apply disk_stays_fwrite_obj|intros _| by eexists].
    apply disk_stays_bind; [apply disk_stays_lift|intros d].
    apply disk_stays_bind; [apply disk_stays_fwrite|intros _].
    apply disk_stays_bind; [apply disk_stays_lift|intros d'].
    apply disk_stays_bind; [apply disk_stays_fwrite|intros _].
    apply disk_stays_bind.
    { destruct (is_big5 _); (apply disk_stays_bind; [apply disk_stays_fwrite|intros _]);
        apply disk_stays_for_each, disk_stays_write_record. }
    intros _. apply disk_stays_for_each. intros r.
    apply disk_stays_bind; [apply disk_stays_get_world|intros w0].
    apply disk_stays_fwrite_obj.
  - intros ->. by unfold bind.
Qed.

Lemma save_overwrites_destination_witness :
  snd (save (one_entry_world IoOk)) = Raise TypeError /\
  disk (fst (save (one_entry_world IoOk))) = Some [].
Proof.
  destruct (save_overwrites_destination (one_entry_world IoOk) None) as (_ & _ & H).
  - vm_compute. discriminate.
  - apply H. reflexivity.
Defined.

(** ** The hex view *)

Lemma hex2_digits (b : Byte.byte) :
  hex2 b = [hexd (Byte.to_N b / 16); hexd (Byte.to_N b mod 16)].
Proof. destruct b; vm_compute; reflexivity. Qed.

Lemma hex_fuel_length fuel : forall n k,
  (n < 16 ^ N.of_nat (S k))%N -> (length (hex_fuel fuel n) <= S k)%nat.
Proof.
  induction fuel as [|fuel IH]; intros n k Hn; simpl; [lia|].
  destruct (N.ltb_spec n 16); [simpl; lia|].
  rewrite length_app. simpl.
  destruct k as [|k].
  { change (16 ^ N.of_nat 1)%N with 16%N in Hn. lia. }
  assert (length (hex_fuel fuel (n / 16)) <= S k)%nat; [|lia].
  apply IH. apply N.Div0.div_lt_upper_bound.
  replace (N.of_nat (S (S k))) with (N.succ (N.of_nat (S k))) in Hn by lia.
  by rewrite N.pow_succ_r' in Hn.
Qed.

Lemma length_zfill8 (i : N) :
  (i < 2 ^ 32)%N -> length (zfill 8 (to_hex i)) = 8%nat.
Proof.
  intros Hi. unfold zfill, to_hex. rewrite length_app, length_replicate.
  pose proof (hex_fuel_length (S (N.to_nat (N.log2 i))) i 7) as H.
  change (16 ^ N.of_nat 8)%N with (2 ^ 32)%N in H. specialize (H Hi). lia.
Qed.

Lemma join_lookup (c : N) (w : nat) (lines : list str) : forall j L p,
  (forall j' L', (j' < j)%nat -> lines !! j' = Some L' -> length L' = w) ->
  lines !! j = Some L -> (p < length L)%nat ->
  join [c] lines !! ((w + 1) * j + p)%nat = L !! p.
Proof.
  induction lines as [|x lines IH]; intros j L p Hw Hj Hp; [done|].
  destruct j as [|j]; simpl in Hj.
  - injection Hj as ->. rewrite Nat.mul_0_r. cbn [join Nat.add].
    destruct lines; [done|]. by rewrite lookup_app_l.
  - pose proof (Hw 0%nat x ltac:(lia) eq_refl) as Hx.
    cbn [join]. destruct lines as [|y lines]; [done|].
    rewrite lookup_app_r by lia. rewrite lookup_app_r by (simpl; lia).
    replace ((w + 1) * S j + p - length x - length [c])%nat
      with ((w + 1) * j + p)%nat by (simpl; lia).
    apply IH; [|done|done]. intros j' L' Hj' HL'. apply (Hw (S j')); [lia|done].
Qed.

Lemma join_hex_lookup (chunk : bytes) : forall t b,
  chunk !! t = Some b ->
  join [32%N] (hex2 <$> chunk) !! (3 * t)%nat = Some (hexd (Byte.to_N b / 16)) /\
  join [32%N] (hex2 <$> chunk) !! (3 * t + 1)%nat = Some (hexd (Byte.to_N b mod 16)).
Proof.
  induction chunk as [|b0 chunk IH]; intros t b Ht; [done|].
  rewrite fmap_cons. cbn [join]. rewrite hex2_digits.
  destruct t as [|t]; simpl in Ht.
  - injection Ht as ->. by destruct (hex2 <$> chunk).
  - destruct chunk as [|b1 chunk]; [done|].
    change (hex2 <$> b1 :: chunk) with (hex2 b1 :: (hex2 <$> chunk)).
    cbv iota. destruct (IH t b Ht) as [H1 H2].
    rewrite fmap_cons in H1, H2.
    replace (3 * S t)%nat with (S (S (S (3 * t)))) by lia.
    replace (3 * S t + 1)%nat with (S (S (S (3 * t + 1)))) by lia.
    split; [exact H1|exact H2].
Qed.

Lemma length_join_hex (chunk : bytes) :
  (length (join [32%N] (hex2 <$> chunk)) <= 3 * length chunk)%nat /\
  (3 * length chunk <= length (join [32%N] (hex2 <$> chunk)) + 1)%nat.
Proof.
  induction chunk as [|b0 chunk IH]; [simpl; lia|].
  rewrite fmap_cons. cbn [join]. rewrite hex2_digits.
  destruct chunk as [|b1 chunk]; [simpl; lia|].
  change (hex2 <$> b1 :: chunk) with (hex2 b1 :: (hex2 <$> chunk)) in *.
  cbv iota. rewrite !length_app. cbn [length] in *. lia.
Qed.

Lemma fmt_line_lookup (i : N) (chunk : bytes) (t : nat) (b : Byte.byte) :
  (i < 2 ^ 32)%N -> (length chunk <= 16)%nat -> chunk !! t = Some b ->
  length (fmt_line i chunk) = (59 + length chunk)%nat /\
  fmt_line i chunk !! (10 + 3 * t)%nat = Some (hexd (Byte.to_N b / 16)) /\
  fmt_line i chunk !! (11 + 3 * t)%nat = Some (hexd (Byte.to_N b mod 16)) /\
  fmt_line i chunk !! (59 + t)%nat = Some (ascii_char b).
Proof.
  intros Hi Hc Ht. unfold fmt_line.
  pose proof (length_zfill8 i Hi) as H8.
  destruct (length_join_hex chunk) as [Hj1 Hj2].
  pose proof (lookup_lt_Some _ _ _ Ht) as Hlt.
  destruct (join_hex_lookup chunk t b Ht) as [Hhi Hlo].
  set (off := zfill 8 (to_hex i)) in *.
  set (hp := join [32%N] (hex2 <$> chunk)) in *.
  assert (length (ljust 48 hp) = 48%nat) as H48.
  { unfold ljust. rewrite length_app, length_replicate. lia. }
  split; [|split; [|split]].
  - rewrite !length_app, H8, H48, length_fmap. simpl. lia.
  - rewrite lookup_app_r by lia. rewrite lookup_app_r by (simpl; lia).
    rewrite lookup_app_l by (simpl; lia).
    unfold ljust. rewrite lookup_app_l by (simpl; lia).
    replace (10 + 3 * t - length off - length [58%N; 32%N])%nat
      with (3 * t)%nat by (simpl; lia). exact Hhi.
  - rewrite lookup_app_r by lia. rewrite lookup_app_r by (simpl; lia).
    rewrite lookup_app_l by (simpl; lia).
    unfold ljust. rewrite lookup_app_l by (simpl; lia).
    replace (11 + 3 * t - length off - length [58%N; 32%N])%nat
      with (3 * t + 1)%nat by (simpl; lia). exact Hlo.
  - rewrite lookup_app_r by lia. rewrite lookup_app_r by (simpl; lia).
    rewrite lookup_app_r by (simpl; lia). rewrite lookup_app_r by (simpl; lia).
    replace (59 + t - length off - length [58%N; 32%N] - length (ljust 48 hp)
             - length [32%N])%nat with t by (simpl; lia).
    by rewrite list_lookup_fmap, Ht.
Qed.

(** X13: the hex view shows every byte at its place.  With the default
    sixteen bytes per line and less than 2^32 bytes of data, byte number
    [k] is written on line [k / 16]; every line before the last has 75
    characters and ends in a newline, so the two hexadecimal digits of
    the byte stand at positions [76 * (k / 16) + 10 + 3 * (k mod 16)] and
    the next one of the text, and its character in the right-hand column
    (the byte itself when printable ASCII, a dot otherwise) stands at
    position [76 * (k / 16) + 59 + k mod 16]. *)
Theorem format_hex_layout (data : bytes) (k : nat) (b : Byte.byte) :
  len data < 2 ^ 32 -> data !! k = Some b ->
  exists out,
    format_hex data 16 = Ok out /\
    out !! (76 * (k / 16) + 10 + 3 * (k mod 16))%nat
      = Some (hexd (Byte.to_N b / 16)) /\
    out !! (76 * (k / 16) + 11 + 3 * (k mod 16))%nat
      = Some (hexd (Byte.to_N b mod 16)) /\
    out !! (76 * (k / 16) + 59 + k mod 16)%nat = Some (ascii_char b).
Proof.
  intros Hlen Hk. unfold format_hex. cbn [Z.eqb Z.ltb Z.compare].
  change (Z.to_nat 16) with 16%nat. eexists. split; [reflexivity|].
  pose proof (lookup_lt_Some _ _ _ Hk) as Hlt.
  set (count := ((length data + 16 - 1) / 16)%nat).
  set (line := fun j : nat => fmt_line (N.of_nat (j * 16))
                                (take 16 (drop (j * 16) data))).
  pose proof (Nat.div_mod_eq k 16) as Hdm.
  pose proof (Nat.mod_upper_bound k 16 ltac:(lia)) as Hmod.
  assert (k / 16 < count)%nat as Hj.
  { unfold count. apply Nat.Div0.div_lt_upper_bound.
    pose proof (Nat.div_mod_eq (length data + 16 - 1) 16) as E.
    pose proof (Nat.mod_upper_bound (length data + 16 - 1) 16 ltac:(lia)). lia. }
  assert (forall j, (N.of_nat (j * 16) < 2 ^ 32)%N \/ (length data < j * 16)%nat) as Hoff.
  { intros j. destruct (decide (j * 16 <= length data)%nat); [left|right; lia].
    unfold len in Hlen. lia. }
  assert ((line <$> seq 0 count) !! (k / 16)%nat = Some (line (k / 16)%nat)) as Hline.
  { rewrite list_lookup_fmap, lookup_seq_lt by done. done. }
  assert (take 16 (drop (k / 16 * 16) data) !! (k mod 16)%nat = Some b) as Hb.
  { rewrite lookup_take, decide_True by lia. rewrite lookup_drop.
    replace (k / 16 * 16 + k mod 16)%nat with k by lia. exact Hk. }
  assert (N.of_nat (k / 16 * 16) < 2 ^ 32)%N as Hi.
  { destruct (Hoff (k / 16)%nat); [done|lia]. }
  destruct (fmt_line_lookup (N.of_nat (k / 16 * 16))
              (take 16 (drop (k / 16 * 16) data)) (k mod 16) b Hi
              ltac:(rewrite length_take; lia) Hb) as (HL & H1 & H2 & H3).
  assert (forall j' L', (j' < k / 16)%nat ->
            (line <$> seq 0 count) !! j' = Some L' -> length L' = 75%nat) as Hfull.
  { intros j' L' Hj' HL'. rewrite list_lookup_fmap, lookup_seq_lt in HL' by lia.
    injection HL' as <-. unfold line.
    assert (length (take 16 (drop (j' * 16) data)) = 16%nat) as Hc.
    { rewrite length_take, length_drop. lia. }
    assert (exists b', take 16 (drop (j' * 16) data) !! 0%nat = Some b') as [b' Hb'].
    { apply lookup_lt_is_Some_2. lia. }
    assert (N.of_nat (j' * 16) < 2 ^ 32)%N as Hi' by (destruct (Hoff j'); [done|lia]).
    destruct (fmt_line_lookup (N.of_nat (j' * 16)) (take 16 (drop (j' * 16) data))
                0 b' Hi' ltac:(lia) Hb') as (E & _).
    lia. }
  pose proof (join_lookup 10%N 75 (line <$> seq 0 count) (k / 16) (line (k / 16)%nat))
    as Hjoin.
  change (fmt_line (N.of_nat (k / 16 * 16)) (take 16 (drop (k / 16 * 16) data)))
    with (line (k / 16)%nat) in HL, H1, H2, H3.
  split; [|split].
  - replace (76 * (k / 16) + 10 + 3 * (k mod 16))%nat
      with ((75 + 1) * (k / 16) + (10 + 3 * (k mod 16)))%nat by lia.
    rewrite Hjoin; [exact H1|exact Hfull|exact Hline|].
    rewrite HL, length_take, length_drop. lia.
  - replace (76 * (k / 16) + 11 + 3 * (k mod 16))%nat
      with ((75 + 1) * (k / 16) + (11 + 3 * (k mod 16)))%nat by lia.
    rewrite Hjoin; [exact H2|exact Hfull|exact Hline|].
    rewrite HL, length_take, length_drop. lia.
  - replace (76 * (k / 16) + 59 + k mod 16)%nat
      with ((75 + 1) * (k / 16) + (59 + k mod 16))%nat by lia.
    rewrite Hjoin; [exact H3|exact Hfull|exact Hline|].
    rewrite HL, length_take, length_drop. lia.
Qed.

Lemma format_hex_layout_witness :
  exists out,
    format_hex (b_ "0123456789abcdef" ++ [Byte.xff; Byte.x41]) 16 = Ok out /\
    take 2 (drop 89 out) = [52; 49]%N /\ out !! 136%nat = Some 65%N.
Proof.
  destruct (format_hex_layout (b_ "0123456789abcdef" ++ [Byte.xff; Byte.x41])
              17 Byte.x41) as (out & H & H1 & H2 & H3).
  - vm_compute. reflexivity.
  - reflexivity.
  - exists out. split; [exact H|].
    vm_compute in H. injection H as <-. split; reflexivity.
Defined.

End BIGFacts.

(** * Properties of the parser and of the graph builder *)

Module INIFacts.
Import INI.

(** ** Lines that make the parser raise *)

(** C4 fails on the code: a line with [=] and [ModuleTag_] whose left
    side is empty makes [parse_ini_content] raise [IndexError]. *)
Theorem parse_raises_on_empty_module_head :
  parse_ini_content empty_module_head_text (py "a.ini") = Raise IndexError.
Proof. vm_compute. reflexivity. Qed.

(** A multi-valued key first assigned with [=] and then repeated without
    makes it raise as well. *)
Lemma parse_raises_on_mixed_forms :
  parse_ini_content show_mixed_text (py "a.ini") = Raise AttributeError.
Proof. vm_compute. reflexivity. Qed.

(** ** Multi-valued keys *)

(** C9 fails on the code: repeated in the [key = value] form, the key
    keeps the last value as a plain string. *)
Theorem repeated_key_with_eq_keeps_last :
  exists d,
    parse_ini_content show_eq_text (py "a.ini") = Ok [(py "T", d)] /\
    dict_get (py "ShowSubObject") (d_properties d) = Some (VStr (py "B")).
Proof. eexists. split; vm_compute; reflexivity. Qed.

(** The [key value] form does accumulate. *)
Lemma repeated_key_plain_accumulates :
  exists d,
    parse_ini_content show_plain_text (py "a.ini") = Ok [(py "T", d)] /\
    dict_get (py "ShowSubObject") (d_properties d)
    = Some (VList [IStr (py "A"); IStr (py "B")]).
Proof. eexists. split; vm_compute; reflexivity. Qed.

(** ** Section nesting *)

Lemma stack_inv_init : stack_inv pstate_init.
Proof. split; [done|]. split; [simpl; lia|]. simpl. discriminate. Qed.

Lemma rbind_ok_inv {A B} (m : result A) (k : A -> result B) (b : B) :
  rbind m k = Ok b -> exists a, m = Ok a /\ k a = Ok b.
Proof. destruct m as [a|e]; [|discriminate]. by exists a. Qed.

Lemma define_object_inv src n l st st' :
  stack_inv st -> define_object src n l st = Ok st' -> stack_inv st'.
Proof.
  intros Hinv. unfold define_object.
  destruct (_parse_object_definition l) as [[t|] [nm|]]; try by intros [= <-].
  destruct (nonempty t && nonempty nm); [|by intros [= <-]].
  intros (x & _ & [= <-])%rbind_ok_inv.
  split; [done|]. split; [simpl; lia|]. simpl. discriminate.
Qed.

Lemma end_statement_closes st st' :
  stack_inv st -> end_statement st = Ok st' ->
  stack_inv st' /\
  (in_section st = true ->
   section_stack st' = [] /\ in_section st' = false /\ current_section st' = None).
Proof.
  intros (Hin & Hlen & Hcur). unfold end_statement.
  destruct (in_section st) eqn:E.
  - destruct (Hcur eq_refl) as [[cs Hcs] Hco]. rewrite Hcs.
    intros ([sh sp] & _ & H)%rbind_ok_inv.
    destruct (section_stack st) as [|r [|r' stack]] eqn:Hst; simpl in *;
      [discriminate| |lia].
    injection H as <-. simpl. split; [|done].
    split; [done|]. split; [simpl; lia|]. simpl. discriminate.
  - intros H. assert (st' = mkPstate (oheap st) (sheap st) (objects st) None
      (current_section st) (section_stack st) false (section_properties st)) as ->.
    { destruct (current_section st); by injection H as <-. }
    split; [|discriminate]. split; [simpl; by rewrite <- Hin|].
    split; [done|]. simpl. discriminate.
Qed.

Lemma object_line_inv co l st st' :
  stack_inv st -> in_section st = false -> current_object st = Some co ->
  object_line co l st = Ok st' -> stack_inv st'.
Proof.
  intros (Hin & Hlen & Hcur) Hno Hco. unfold object_line.
  rewrite Hno in Hin.
  assert (section_stack st = []) as Hnil by (destruct (section_stack st); done).
  assert (forall key sec, stack_inv (open_section co key sec st)) as Hopen.
  { intros key sec. unfold open_section. split; simpl.
    - by rewrite Hnil.
    - rewrite Hnil. simpl. split; [lia|]. intros _. by rewrite Hco. }
  destruct (bool_decide _); [by intros [= <-]|].
  destruct (contains _ _ && contains _ _).
  - intros (p0 & _ & (ty & _ & (tag & _ & [= <-])%rbind_ok_inv)%rbind_ok_inv)%rbind_ok_inv.
    apply Hopen.
  - intros (props & _ & [= <-])%rbind_ok_inv. split; simpl; [by rewrite Hnil, Hno|].
    split; [done|]. by rewrite Hno.
Qed.

Lemma parse_line_inv src st n line st' :
  stack_inv st -> parse_line src st n line = Ok st' -> stack_inv st'.
Proof.
  intros Hinv. unfold parse_line.
  destruct (negb _ || startswith _ _); [by intros [= <-]|].
  destruct (_is_object_definition _); [by apply define_object_inv|].
  destruct (decide _); [intros H; by apply (end_statement_closes st st') in H as [? _]|].
  destruct (current_object st) as [co|] eqn:Hco; [|by intros [= <-]].
  destruct (in_section st) eqn:Hin; [|by apply object_line_inv].
  destruct (current_section st) eqn:Hcs; [|by intros [= <-]].
  intros [= <-]. destruct Hinv as (H1 & H2 & H3). rewrite Hin in H1.
  split; simpl; [done|]. by split.
Qed.

Lemma parse_lines_inv src lines : forall n st st',
  stack_inv st -> parse_lines src lines n st = Ok st' -> stack_inv st'.
Proof.
  induction lines as [|l lines IH]; intros n st st' Hinv; simpl.
  - by intros [= <-].
  - intros (st1 & H1 & H2)%rbind_ok_inv. eapply IH; [|exact H2].
    by eapply parse_line_inv.
Qed.

(** Running over a prefix of the lines gives the state the whole run
    passes through at that point. *)
Lemma parse_lines_app src l1 l2 : forall n st,
  parse_lines src (l1 ++ l2) n st =
  rbind (parse_lines src l1 n st)
        (fun st' => parse_lines src l2 (n + length l1) st').
Proof.
  induction l1 as [|l l1 IH]; intros n st; simpl.
  - by rewrite Nat.add_0_r.
  - destruct (parse_line src st n l) as [st1|e]; simpl; [|done].
    rewrite IH. by replace (S n + length l1) with (n + S (length l1)) by lia.
Qed.

(** ** Splitting at the first [=] *)

Lemma contains_char (c : N) (s : str) : contains [c] s = true <-> c ∈ s.
Proof.
  induction s as [|x s IH]; simpl.
  - split; [done|]. by intros ?%elem_of_nil.
  - unfold startswith. simpl. rewrite orb_true_iff, IH, elem_of_cons.
    rewrite bool_decide_eq_true. split.
    + intros [[= ->]|?]; auto.
    + intros [->|?]; auto.
Qed.

Lemma split_on1_found (c : N) (s : str) :
  c ∈ s -> exists a b, split_on1 c s = [a; b] /\ s = a ++ c :: b /\ c ∉ a.
Proof.
  induction s as [|x s IH]; [by intros ?%elem_of_nil|].
  intros Hin. simpl. destruct (N.eqb_spec x c) as [->|Hne].
  - exists [], s. split; [done|]. split; [done|]. by intros ?%elem_of_nil.
  - apply elem_of_cons in Hin as [->|Hin]; [done|].
    destruct (IH Hin) as (a & b & -> & -> & Ha). exists (x :: a), b.
    split; [done|]. split; [done|]. intros [?|?]%elem_of_cons; congruence.
Qed.

Lemma split_on1_prefix (c : N) (a b : str) :
  c ∉ a -> split_on1 c (a ++ c :: b) = [a; b].
Proof.
  induction a as [|x a IH]; intros Ha; simpl.
  - by rewrite N.eqb_refl.
  - apply not_elem_of_cons in Ha as [Hx Ha].
    destruct (N.eqb_spec x c); [congruence|]. by rewrite IH.
Qed.

Lemma after_eq_ok (prop : str) :
  contains (py "=") prop = true -> exists v, after_eq prop = Ok v.
Proof.
  intros H. apply (contains_char EQ) in H.
  destruct (split_on1_found _ _ H) as (a & b & E & _).
  unfold after_eq. rewrite E. simpl. eauto.
Qed.

Lemma conditions_of_ok (prop : str) : exists c, conditions_of prop = Ok c.
Proof.
  unfold conditions_of. destruct (contains (py "=") prop) eqn:E; [|eauto].
  destruct (after_eq_ok _ E) as [v ->]. simpl. eauto.
Qed.

(** The three typed post-processing loops never raise. *)
Lemma weaponset_loop_ok properties : forall weapons conditions,
  exists ws c, weaponset_loop properties weapons conditions = Ok (ws, c).
Proof.
  induction properties as [|prop rest IH]; intros weapons conditions; simpl; [eauto|].
  destruct (startswith prop (py "Conditions")).
  { destruct (conditions_of_ok prop) as [c ->]. simpl. apply IH. }
  destruct (startswith prop (py "Weapon") && contains (py "=") prop) eqn:E; [|apply IH].
  apply andb_prop in E as [_ E]. destruct (after_eq_ok _ E) as [v ->]. simpl.
  destruct (split_ws v) as [|slot [|name ?]]; try apply IH.
  destruct (contains _ name); apply IH.
Qed.

Lemma armorset_loop_ok properties : forall props armors conditions,
  exists p a c, armorset_loop properties props armors conditions = Ok (p, a, c).
Proof.
  induction properties as [|prop rest IH]; intros props armors conditions; simpl; [eauto|].
  destruct (startswith prop (py "Conditions")).
  { destruct (conditions_of_ok prop) as [c ->]. simpl. apply IH. }
  destruct (startswith prop (py "Armor") && contains (py "=") prop) eqn:E.
  { apply andb_prop in E as [_ E]. destruct (after_eq_ok _ E) as [v ->]. apply IH. }
  destruct (startswith prop (py "DamageFX") && contains (py "=") prop) eqn:E'; [|apply IH].
  apply andb_prop in E' as [_ E']. destruct (after_eq_ok _ E') as [v ->]. apply IH.
Qed.

Lemma prerequisites_loop_ok properties : forall acc,
  exists l, prerequisites_loop properties acc = Ok l.
Proof.
  induction properties as [|prop rest IH]; intros acc; simpl; [eauto|].
  destruct (startswith prop (py "Object") && contains (py "=") prop) eqn:E; [|apply IH].
  apply andb_prop in E as [_ E]. destruct (after_eq_ok _ E) as [v ->]. apply IH.
Qed.

Lemma process_typed_ok (sec : section) (properties : list str) :
  s_type sec ∈ [py "WeaponSet"; py "ArmorSet"; py "Prerequisites"] ->
  exists sec', _process_section_properties sec properties = Ok sec'.
Proof.
  intros Hty. unfold _process_section_properties.
  destruct (decide (s_type sec = py "WeaponSet")).
  { destruct (weaponset_loop_ok properties [] VNone) as (ws & c & ->). simpl. eauto. }
  destruct (decide (s_type sec = py "ArmorSet")).
  { destruct (armorset_loop_ok properties (s_properties sec) [] VNone)
      as (p & a & c & ->). simpl. eauto. }
  destruct (decide (s_type sec = py "Prerequisites")).
  { destruct (prerequisites_loop_ok properties []) as (l & ->). simpl. eauto. }
  repeat (apply elem_of_cons in Hty as [?|Hty]; [done|]). by apply elem_of_nil in Hty.
Qed.

Lemma end_statement_ok st cs :
  in_section st = true -> current_section st = Some cs ->
  section_properties st = [] \/
  s_type (sheap st !!! cs) ∈ [py "WeaponSet"; py "ArmorSet"; py "Prerequisites"] ->
  exists st', end_statement st = Ok st'.
Proof.
  intros Hin Hcs Hcase. unfold end_statement. rewrite Hin, Hcs.
  destruct (nonempty (section_properties st)) eqn:Hne.
  - destruct Hcase as [E|Hty]; [by rewrite E in Hne|].
    edestruct (process_typed_ok
      (set_s_properties
         (dict_set (py "_raw") (VList (IStr <$> section_properties st))
            (s_properties (sheap st !!! cs))) (sheap st !!! cs))
      (section_properties st)) as [sec' ->]; [exact Hty|].
    simpl. destruct (nonempty (section_stack st)); eauto.
  - simpl. destruct (nonempty (section_stack st)); eauto.
Qed.

(** X27: at every point of a run of [parse_ini_content] the stack of open
    sections holds at most one section.  While a section is open, a typed
    section header, or a line with [=] and [ModuleTag_] that is neither a
    comment nor begins with an object keyword, is appended to the open
    section's buffered lines and leaves the stack alone, and [End] empties
    the stack (it returns at least whenever nothing is buffered or the
    open section is a WeaponSet, ArmorSet or Prerequisites). *)
Theorem section_depth_at_most_one (src content : str) (k : nat) (st : pstate) :
  parse_lines src (take k (split_on NEWLINE content)) 0 pstate_init = Ok st ->
  (length (section_stack st) <= 1)%nat /\
  (in_section st = true ->
   (forall n line,
      strip line ∈ typed_sections \/ is_module_line (strip line) = true ->
      parse_line src st n line = Ok (buffer_line (strip line) st)) /\
   (forall n line st',
      strip line = py "End" -> parse_line src st n line = Ok st' ->
      section_stack st' = [] /\ in_section st' = false /\
      current_section st' = None) /\
   (forall n line cs,
      strip line = py "End" -> current_section st = Some cs ->
      section_properties st = [] \/
      s_type (sheap st !!! cs) ∈ [py "WeaponSet"; py "ArmorSet"; py "Prerequisites"] ->
      exists st', parse_line src st n line = Ok st')).
Proof.
  intros Hrun. pose proof (parse_lines_inv _ _ _ _ _ stack_inv_init Hrun) as Hinv.
  split; [apply Hinv|]. intros Hin.
  destruct Hinv as (H1 & H2 & H3). destruct (H3 Hin) as [[cs Hcs] [co Hco]].
  split; [|split].
  - intros n line Hline. unfold parse_line, buffer_line.
    assert (nonempty (strip line) = true /\ startswith (strip line) (py ";") = false /\
            _is_object_definition (strip line) = false /\ strip line <> py "End")
      as (-> & -> & -> & Hne).
    { destruct Hline as [Hty|Hmod].
      - repeat (apply elem_of_cons in Hty as [->|Hty]; [by vm_compute|]).
        by apply elem_of_nil in Hty.
      - unfold is_module_line in Hmod.
        apply andb_prop in Hmod as [[[Hc Hd]%andb_prop He]%andb_prop _].
        apply negb_true_iff in Hc, Hd. repeat split; try done.
        + destruct (strip line); [by vm_compute in He|done].
        + intros E. rewrite E in He. by vm_compute in He. }
    simpl. destruct (decide _); [done|]. by rewrite Hco, Hin, Hcs.
  - intros n line st' Hend. unfold parse_line. rewrite Hend.
    change (negb (nonempty (py "End")) || startswith (py "End") (py ";")) with false.
    change (_is_object_definition (py "End")) with false. cbv iota.
    destruct (decide _); [|done]. intros Hst'.
    apply (end_statement_closes st st') in Hst' as [_ Hcl]; [by apply Hcl|done].
  - intros n line cs' Hend Hcs' Hcase. unfold parse_line. rewrite Hend.
    change (negb (nonempty (py "End")) || startswith (py "End") (py ";")) with false.
    change (_is_object_definition (py "End")) with false. cbv iota.
    destruct (decide _); [|done]. by eapply end_statement_ok.
Qed.

Lemma section_depth_witness :
  exists st,
    parse_lines (py "a.ini") (take 2 (split_on NEWLINE unit_text)) 0 pstate_init
    = Ok st /\
    length (section_stack st) = 1%nat /\
    parse_line (py "a.ini") st 2 (py "  ArmorSet")
    = Ok (buffer_line (py "ArmorSet") st).
Proof.
  destruct (parse_lines (py "a.ini") (take 2 (split_on NEWLINE unit_text)) 0
              pstate_init) as [st|e] eqn:Hrun; [|by vm_compute in Hrun].
  exists st. split; [reflexivity|].
  destruct (section_depth_at_most_one (py "a.ini") unit_text 2 st Hrun)
    as [_ Hopen].
  vm_compute in Hrun. injection Hrun as <-.
  destruct (Hopen eq_refl) as (Hbuf & _ & _).
  split; [reflexivity|]. apply (Hbuf 2%nat (py "  ArmorSet")).
  left. vm_compute. right. left.
Defined.

(** C10 fails on the code: with the WeaponSet of Tank open, the line
    [Upgrade = Foo ModuleTag_01] is not appended to the buffered lines.
    The test for an object keyword followed by a space comes before the
    test for an open section, so the line opens a definition named Foo
    and empties the stack; the WeaponSet is left behind with its one
    buffered line never post-processed, and the [End] that follows does
    not close it. *)
Theorem keyword_module_line_leaves_section :
  exists st st' tank foo sec,
    parse_lines (py "a.ini") (take 3 (split_on NEWLINE keyword_module_text))
      0 pstate_init = Ok st /\
    in_section st = true /\
    section_properties st = [py "Conditions = None"] /\
    contains (py "=") (py "Upgrade = Foo ModuleTag_01") = true /\
    contains (py "ModuleTag_") (py "Upgrade = Foo ModuleTag_01") = true /\
    parse_line (py "a.ini") st 3 (py "    Upgrade = Foo ModuleTag_01") = Ok st' /\
    st' <> buffer_line (py "Upgrade = Foo ModuleTag_01") st /\
    section_properties st' = [py "Conditions = None"] /\
    in_section st' = false /\ section_stack st' = [] /\
    parse_ini_content keyword_module_text (py "a.ini")
    = Ok [(py "Tank", tank); (py "Foo", foo)] /\
    d_type foo = py "Upgrade" /\
    d_sections tank = [(py "WeaponSet", sec)] /\
    s_properties sec = [].
Proof.
  do 5 eexists. split; [vm_compute; reflexivity|].
  do 4 (split; [vm_compute; reflexivity|]).
  split; [vm_compute; reflexivity|].
  split; [vm_compute; discriminate|].
  do 3 (split; [reflexivity|]).
  split; [vm_compute; reflexivity|]. by repeat split.
Qed.

(** ** Dictionaries *)

Lemma dict_get_set_eq {K V} `{EqDecision K} (k : K) (v : V) d :
  dict_get k (dict_set k v d) = Some v.
Proof.
  induction d as [|[k' v'] d IH]; simpl.
  - by rewrite decide_True.
  - destruct (decide (k' = k)); simpl.
    + by rewrite decide_True.
    + by rewrite decide_False.
Qed.

Lemma dict_get_set_ne {K V} `{EqDecision K} (k k' : K) (v : V) d :
  k <> k' -> dict_get k' (dict_set k v d) = dict_get k' d.
Proof.
  intros Hne. induction d as [|[k0 v0] d IH]; simpl.
  - by rewrite decide_False.
  - destruct (decide (k0 = k)) as [->|]; simpl.
    + by rewrite !decide_False.
    + destruct (decide (k0 = k')); [done|]. exact IH.
Qed.

(** ** WeaponSet post-processing *)

(** Closed decidable facts, by evaluation. *)
Ltac by_decide :=
  match goal with
  | |- ?P => apply (@bool_decide_unpack P _); vm_compute; exact I
  end.

Lemma lstrip_nonspace c s : is_space c = false -> lstrip (c :: s) = c :: s.
Proof. intros H. simpl. by rewrite H. Qed.

Lemma rstrip_token_end (a t : str) : token t -> rstrip (a ++ t) = a ++ t.
Proof.
  intros [Hne Hsp]. unfold rstrip. rewrite rev_app_distr.
  destruct (rev t) as [|c r] eqn:E.
  { apply (f_equal (@rev N)) in E. rewrite rev_involutive in E. by subst. }
  assert (is_space c = false) as Hc.
  { rewrite Forall_forall in Hsp. apply Hsp. apply list_elem_of_In, in_rev.
    rewrite E. by left. }
  cbn [app]. rewrite lstrip_nonspace by done.
  change (c :: r ++ rev a) with ((c :: r) ++ rev a).
  by rewrite <- E, <- rev_app_distr, rev_involutive.
Qed.

Lemma token_head (t : str) :
  token t -> exists c t', t = c :: t' /\ is_space c = false.
Proof.
  intros [Hne Hsp]. destruct t as [|c t']; [done|].
  apply Forall_cons in Hsp as [Hc _]. eauto.
Qed.

Lemma split_ws_token (t : str) : token t -> split_ws t = [t].
Proof.
  intros [Hne Hsp]. induction t as [|c t IH]; [done|].
  apply Forall_cons in Hsp as [Hc Hsp]. simpl. rewrite Hc.
  destruct t as [|c' t]; [done|].
  pose proof Hsp as Hsp'. apply Forall_cons in Hsp' as [Hc' _]. rewrite Hc'.
  by rewrite IH.
Qed.

Lemma split_ws_token_space (t rest : str) :
  token t -> split_ws (t ++ SPACE :: rest) = t :: split_ws rest.
Proof.
  intros [Hne Hsp]. induction t as [|c t IH]; [done|].
  apply Forall_cons in Hsp as [Hc Hsp]. cbn [app split_ws]. rewrite Hc.
  destruct t as [|c' t]; [done|].
  pose proof Hsp as Hsp'. apply Forall_cons in Hsp' as [Hc' _].
  cbn [app]. rewrite Hc'. cbn [app] in IH. by rewrite IH.
Qed.

Lemma after_eq_weapon_line slot name :
  token slot -> token name ->
  after_eq (weapon_line slot name) = Ok (slot ++ SPACE :: name).
Proof.
  intros Hs Hn. unfold after_eq, weapon_line.
  change (py "Weapon = " ++ slot ++ py " " ++ name)
    with (py "Weapon " ++ EQ :: SPACE :: slot ++ SPACE :: name).
  rewrite split_on1_prefix by by_decide.
  cbn [index lookup list_lookup rbind]. f_equal.
  unfold strip. destruct (token_head slot Hs) as (c & t' & -> & Hc).
  cbn [lstrip app]. change (is_space SPACE) with true. cbv iota.
  rewrite Hc.
  replace (c :: t' ++ SPACE :: name) with ((c :: t' ++ [SPACE]) ++ name)
    by (cbn [app]; by rewrite <- app_assoc).
  by apply rstrip_token_end.
Qed.

Lemma weaponset_loop_weapon_line slot name rest weapons conditions :
  token slot -> token name ->
  weaponset_loop (weapon_line slot name :: rest) weapons conditions =
  weaponset_loop rest (weapons ++ weapon_entry slot name) conditions.
Proof.
  intros Hs Hn. cbn [weaponset_loop].
  assert (startswith (weapon_line slot name) (py "Conditions") = false) as ->
    by reflexivity.
  assert (startswith (weapon_line slot name) (py "Weapon") = true) as ->
    by reflexivity.
  assert (contains (py "=") (weapon_line slot name) = true) as ->.
  { apply (contains_char EQ). unfold weapon_line. apply elem_of_app. left.
    by_decide. }
  cbn [andb]. rewrite after_eq_weapon_line by done. cbn [rbind].
  rewrite split_ws_token_space, split_ws_token by done.
  unfold weapon_entry. destruct (contains (py "FX") name); [|done].
  by rewrite app_nil_r.
Qed.

Lemma weaponset_loop_app l1 l2 : forall weapons conditions,
  weaponset_loop (l1 ++ l2) weapons conditions =
  rbind (weaponset_loop l1 weapons conditions)
        (fun '(ws, c) => weaponset_loop l2 ws c).
Proof.
  induction l1 as [|prop l1 IH]; intros weapons conditions; [done|].
  cbn [app weaponset_loop].
  destruct (startswith prop (py "Conditions")).
  { destruct (conditions_of prop); [apply IH|done]. }
  destruct (startswith prop (py "Weapon") && contains (py "=") prop); [|apply IH].
  destruct (after_eq prop) as [v|]; [|done]. cbn [rbind].
  destruct (split_ws v) as [|slot [|name ?]]; try apply IH.
  destruct (contains _ name); apply IH.
Qed.

(** The entries a buffer adds do not depend on what was collected
    before. *)
Lemma weaponset_loop_frame l : forall ws c ws' c' ws0 c0,
  weaponset_loop l ws c = Ok (ws', c') ->
  exists c0', weaponset_loop l (ws0 ++ ws) c0 = Ok (ws0 ++ ws', c0').
Proof.
  induction l as [|prop l IH]; intros ws c ws' c' ws0 c0; cbn [weaponset_loop].
  { intros [= <- <-]. eauto. }
  destruct (startswith prop (py "Conditions")).
  { destruct (conditions_of prop) as [c1|]; [|done]. cbn [rbind]. apply IH. }
  destruct (startswith prop (py "Weapon") && contains (py "=") prop); [|apply IH].
  destruct (after_eq prop) as [v|]; [|done]. cbn [rbind].
  destruct (split_ws v) as [|slot [|name ?]]; try apply IH.
  destruct (contains _ name); [apply IH|]. rewrite <- app_assoc. apply IH.
Qed.

Lemma weapons_of_processed props ws c sec :
  weapons_of (set_s_properties
                (dict_set (py "conditions") c
                   (dict_set (py "weapons") (VList ws) props)) sec)
  = Some (VList ws).
Proof.
  unfold weapons_of. simpl.
  rewrite dict_get_set_ne by (by vm_compute). apply dict_get_set_eq.
Qed.

(** The post-processing taken alone filters as intended: in a WeaponSet
    section each buffered line [Weapon = <SLOT> <name>] adds exactly the
    entry [{slot, weapon}] to the [weapons] list, in buffer order, unless
    the name contains "FX", in which case it adds nothing; given the two
    lines of the Crusader example as its buffer it leaves only the PRIMARY
    entry. *)
Lemma weaponset_fx_filter :
  (forall sec l1 l2 slot name,
     s_type sec = py "WeaponSet" -> token slot -> token name ->
     exists sec1 sec2 sec' ws1 ws2,
       _process_section_properties sec l1 = Ok sec1 /\
       weapons_of sec1 = Some (VList ws1) /\
       _process_section_properties sec l2 = Ok sec2 /\
       weapons_of sec2 = Some (VList ws2) /\
       _process_section_properties sec (l1 ++ [weapon_line slot name] ++ l2)
       = Ok sec' /\
       weapons_of sec' =
       Some (VList (ws1 ++ (if contains (py "FX") name then []
                            else [IWeapon (mkWeapon slot name)]) ++ ws2)))
  /\ (exists sec',
        _process_section_properties (mkSection (py "WeaponSet") None [] None)
          [py "Weapon = PRIMARY CrusaderTankGun";
           py "Weapon = SECONDARY CrusaderTankGunFX"] = Ok sec' /\
        weapons_of sec' =
        Some (VList [IWeapon (mkWeapon (py "PRIMARY") (py "CrusaderTankGun"))])).
Proof.
  split.
  - intros sec l1 l2 slot name Hty Hs Hn.
    destruct (weaponset_loop_ok l1 [] VNone) as (ws1 & c1 & H1).
    destruct (weaponset_loop_ok l2 [] VNone) as (ws2 & c2 & H2).
    destruct (weaponset_loop_frame l2 [] VNone ws2 c2
                (ws1 ++ weapon_entry slot name) c1 H2) as (c3 & H3).
    rewrite app_nil_r in H3.
    unfold _process_section_properties. rewrite Hty.
    rewrite decide_True by done.
    rewrite weaponset_loop_app, H1, H2. cbn [rbind app].
    rewrite weaponset_loop_weapon_line, H3 by done. cbn [rbind].
    do 3 eexists. exists ws1, ws2.
    split; [reflexivity|]. split; [apply weapons_of_processed|].
    split; [reflexivity|]. split; [apply weapons_of_processed|].
    split; [reflexivity|]. rewrite weapons_of_processed.
    by rewrite <- app_assoc.
  - eexists. split; vm_compute; reflexivity.
Qed.

Lemma weaponset_fx_filter_instance :
  exists sec',
    _process_section_properties (mkSection (py "WeaponSet") None [] None)
      ([py "Conditions = None"] ++ [weapon_line (py "PRIMARY") (py "Gun")]
       ++ [py "Weapon = SECONDARY GunFX"]) = Ok sec' /\
    weapons_of sec' = Some (VList [IWeapon (mkWeapon (py "PRIMARY") (py "Gun"))]).
Proof.
  destruct weaponset_fx_filter as [H _].
  destruct (H (mkSection (py "WeaponSet") None [] None) [py "Conditions = None"]
              [py "Weapon = SECONDARY GunFX"] (py "PRIMARY") (py "Gun"))
    as (sec1 & sec2 & sec' & ws1 & ws2 & H1 & H2 & H3 & H4 & H5 & H6).
  - reflexivity.
  - split; [by vm_compute|]. vm_compute. repeat constructor.
  - split; [by vm_compute|]. vm_compute. repeat constructor.
  - exists sec'. split; [exact H5|]. rewrite H6.
    vm_compute in H1. injection H1 as <-. vm_compute in H2. injection H2 as <-.
    vm_compute in H3. injection H3 as <-. vm_compute in H4. injection H4 as <-.
    reflexivity.
Defined.

(** C6 fails on the code: a unit whose WeaponSet holds
    [Weapon = PRIMARY CrusaderTankGun] and
    [Weapon = SECONDARY CrusaderTankGunFX] gets no [weapons] list at all.
    [parse_ini_content] tests for an object keyword followed by a space
    before it looks at the open section, so both lines open definitions
    named PRIMARY and SECONDARY, nothing is buffered, and the WeaponSet of
    Tank is never post-processed. *)
Theorem unit_weapon_lines_open_definitions :
  exists tank primary secondary sec,
    parse_ini_content unit_text (py "a.ini")
    = Ok [(py "Tank", tank); (py "PRIMARY", primary); (py "SECONDARY", secondary)] /\
    d_type primary = py "Weapon" /\ d_type secondary = py "Weapon" /\
    d_sections tank = [(py "WeaponSet", sec)] /\
    s_properties sec = [] /\ weapons_of sec = None.
Proof. do 4 eexists. split; [vm_compute; reflexivity|]. by repeat split. Qed.

(** The same unit with the separator written as a tab is buffered and
    filtered. *)
Lemma unit_with_tabs_is_filtered :
  exists tank sec,
    parse_ini_content
      (text ["Object Tank"%string; "  WeaponSet"%string]
       ++ [NEWLINE] ++ py "    Weapon" ++ [9%N] ++ py "= PRIMARY CrusaderTankGun"
       ++ [NEWLINE] ++ py "    Weapon" ++ [9%N] ++ py "= SECONDARY CrusaderTankGunFX"
       ++ [NEWLINE] ++ text ["  End"%string; "End"%string])
      (py "a.ini")
    = Ok [(py "Tank", tank)] /\
    d_sections tank = [(py "WeaponSet", sec)] /\
    weapons_of sec
    = Some (VList [IWeapon (mkWeapon (py "PRIMARY") (py "CrusaderTankGun"))]).
Proof. do 2 eexists. split; [vm_compute; reflexivity|]. by split. Qed.

(** ** The relationship graph *)

Lemma dict_get_append_eq {K V} `{EqDecision K} (k : K) (x : V) d :
  dict_get k (dict_append k x d) = Some (default [] (dict_get k d) ++ [x]).
Proof. apply dict_get_set_eq. Qed.

Lemma dict_get_append_ne {K V} `{EqDecision K} (k k' : K) (x : V) d :
  k <> k' -> dict_get k' (dict_append k x d) = dict_get k' d.
Proof. apply dict_get_set_ne. Qed.

Lemma grows_refl d : grows d d.
Proof. intros k l H. eauto. Qed.

Lemma grows_trans d1 d2 d3 : grows d1 d2 -> grows d2 d3 -> grows d1 d3.
Proof.
  intros H12 H23 k l H. destruct (H12 k l H) as (l2 & H2 & Hsub).
  destruct (H23 k l2 H2) as (l3 & H3 & Hsub'). eauto.
Qed.

Lemma grows_append k x d : grows d (dict_append k x d).
Proof.
  intros k' l H. destruct (decide (k = k')) as [->|Hne].
  - rewrite dict_get_append_eq, H. simpl. eexists. split; [done|].
    intros y Hy. apply elem_of_app. by left.
  - rewrite dict_get_append_ne by done. eauto.
Qed.

Lemma dict_append_has k x (d : list (str * list str)) :
  exists l, dict_get k (dict_append k x d) = Some l /\ x ∈ l.
Proof.
  rewrite dict_get_append_eq. eexists. split; [done|].
  apply elem_of_app. right. by left.
Qed.

Lemma weapons_loop_spec obj weapons : forall names wu names' wu',
  weapons_loop obj weapons names wu = Ok (names', wu') ->
  (forall w, w ∈ names -> exists us, dict_get w wu = Some us /\ obj ∈ us) ->
  grows wu wu' /\
  (forall w, w ∈ names' -> exists us, dict_get w wu' = Some us /\ obj ∈ us) /\
  (forall w, w ∈ names -> w ∈ names') /\
  (forall wi, IWeapon wi ∈ weapons -> weapon wi <> [] -> weapon wi ∈ names').
Proof.
  induction weapons as [|x weapons IH]; intros names wu names' wu'; simpl.
  - intros [= <- <-] Hn. split; [apply grows_refl|]. split; [done|].
    split; [done|]. by intros wi ?%elem_of_nil.
  - destruct x as [s0|wi0]; [discriminate|].
    destruct (nonempty (weapon wi0)) eqn:Hne.
    + intros Hrun Hn. apply IH in Hrun as (Hg & Hin & Hsub & Hall).
      * split; [eapply grows_trans; [apply grows_append|exact Hg]|].
        split; [done|]. split.
        { intros w Hw. apply Hsub, elem_of_app. by left. }
        intros wi [[= ->]|Hwi]%elem_of_cons Hwne.
        -- apply Hsub, elem_of_app. right. by left.
        -- by apply Hall.
      * intros w [Hw|Hw]%elem_of_app.
        -- destruct (Hn w Hw) as (us & Hus & Hobj).
           destruct (grows_append (weapon wi0) obj wu w us Hus) as (l' & ? & Hsub).
           eauto.
        -- apply list_elem_of_singleton in Hw as ->. apply dict_append_has.
    + intros Hrun Hn. apply IH in Hrun as (Hg & Hin & Hsub & Hall); [|done].
      split; [done|]. split; [done|]. split; [done|].
      intros wi [[= ->]|Hwi]%elem_of_cons Hwne.
      * by destruct (weapon wi0).
      * by apply Hall.
Qed.

Lemma prereqs_loop_spec obj items : forall en en',
  prereqs_loop obj items en = Ok en' ->
  grows en en' /\
  (forall p, IStr p ∈ items -> exists os, dict_get p en' = Some os /\ obj ∈ os).
Proof.
  induction items as [|x items IH]; intros en en'; simpl.
  - intros [= <-]. split; [apply grows_refl|]. by intros p ?%elem_of_nil.
  - destruct x as [p0|w0]; [|discriminate].
    intros Hrun. apply IH in Hrun as (Hg & Hall). split.
    + eapply grows_trans; [apply grows_append|exact Hg].
    + intros p [[= ->]|Hp]%elem_of_cons; [|by apply Hall].
      destruct (dict_append_has p0 obj en) as (l & Hl & Hobj).
      destruct (Hg p0 l Hl) as (l' & ? & Hsub). eauto.
Qed.

Lemma build_one_inv name d r r' :
  build_one name d r = Ok r' ->
  exists uw wu pr en uu upu,
    weapons_block name d r = Ok (uw, wu) /\
    prerequisites_block name d r = Ok (pr, en) /\
    upgrades_loop name (d_sections d) (unit_upgrades r) (upgrade_units r)
    = Ok (uu, upu) /\
    r' = mkRel uw wu (armor_block name d r) (locomotor_block name d r)
           (general_block name d r).1 (general_block name d r).2
           upu uu pr en.
Proof.
  unfold build_one.
  intros ([uw wu] & Hw & H)%rbind_ok_inv.
  apply rbind_ok_inv in H as ([pr en] & Hp & H).
  destruct (general_block name d r) as [ug gu].
  apply rbind_ok_inv in H as ([uu upu] & Hu & [= <-]).
  by exists uw, wu, pr, en, uu, upu.
Qed.

Lemma weapons_block_spec name d r uw wu :
  weapons_block name d r = Ok (uw, wu) ->
  grows (weapon_units r) wu /\
  (uw = unit_weapons r \/
   exists names, uw = dict_set name names (unit_weapons r) /\
     forall w, w ∈ names -> exists us, dict_get w wu = Some us /\ name ∈ us).
Proof.
  unfold weapons_block.
  destruct (dict_get (py "WeaponSet") (d_sections d)) as [sec|].
  - intros (ws & _ & ([names wu'] & Hloop & H)%rbind_ok_inv)%rbind_ok_inv.
    apply weapons_loop_spec in Hloop as (Hg & Hin & _); [|by intros w ?%elem_of_nil].
    destruct (nonempty names); injection H as <- <-; split; eauto.
  - intros [= <- <-]. split; [apply grows_refl|by left].
Qed.

Lemma prerequisites_block_spec name d r pr en :
  prerequisites_block name d r = Ok (pr, en) ->
  grows (enables r) en /\
  (pr = prerequisites r \/
   exists v, pr = dict_set name v (prerequisites r) /\
     forall items p, iter v = Ok items -> IStr p ∈ items ->
       exists os, dict_get p en = Some os /\ name ∈ os).
Proof.
  unfold prerequisites_block.
  destruct (dict_get (py "Prerequisites") (d_sections d)) as [sec|].
  - destruct (truthy _).
    + intros (items & Hit & (en' & Hloop & [= <- <-])%rbind_ok_inv)%rbind_ok_inv.
      apply prereqs_loop_spec in Hloop as (Hg & Hall). split; [done|]. right.
      eexists. split; [done|]. intros items' p Hit' Hp.
      rewrite Hit in Hit'. injection Hit' as <-. by apply Hall.
    + intros [= <- <-]. split; [apply grows_refl|by left].
  - intros [= <- <-]. split; [apply grows_refl|by left].
Qed.

Lemma build_one_symmetric name d r r' :
  symmetric r -> build_one name d r = Ok r' -> symmetric r'.
Proof.
  intros [Hw Hp] (uw & wu & pr & en & uu & upu & Hwb & Hpb & _ & ->)%build_one_inv.
  apply weapons_block_spec in Hwb as (Hgw & Huw).
  apply prerequisites_block_spec in Hpb as (Hge & Hpr).
  split; simpl.
  - intros u ws w Hu Hin.
    assert (dict_get u (unit_weapons r) = Some ws ->
            exists us, dict_get w wu = Some us /\ u ∈ us) as Hold.
    { intros Hu'. destruct (Hw u ws w Hu' Hin) as (us & Hus & Huin).
      destruct (Hgw w us Hus) as (us' & ? & Hsub). eauto. }
    destruct Huw as [->|(names & -> & Hnames)]; [by apply Hold|].
    destruct (decide (name = u)) as [->|Hne].
    + rewrite dict_get_set_eq in Hu. injection Hu as <-. by apply Hnames.
    + rewrite dict_get_set_ne in Hu by done. by apply Hold.
  - intros o v items p Ho Hit Hin.
    assert (dict_get o (prerequisites r) = Some v ->
            exists os, dict_get p en = Some os /\ o ∈ os) as Hold.
    { intros Ho'. destruct (Hp o v items p Ho' Hit Hin) as (os & Hos & Hoin).
      destruct (Hge p os Hos) as (os' & ? & Hsub). eauto. }
    destruct Hpr as [->|(v' & -> & Hitems)]; [by apply Hold|].
    destruct (decide (name = o)) as [->|Hne].
    + rewrite dict_get_set_eq in Ho. injection Ho as <-. by eapply Hitems.
    + rewrite dict_get_set_ne in Ho by done. by apply Hold.
Qed.

Lemma build_loop_symmetric items : forall r r',
  symmetric r -> build_loop items r = Ok r' -> symmetric r'.
Proof.
  induction items as [|[name d] items IH]; intros r r' Hs; simpl.
  - by intros [= <-].
  - intros (r1 & H1 & H2)%rbind_ok_inv. eapply IH; [|exact H2].
    by eapply build_one_symmetric.
Qed.

Lemma symmetric_init : symmetric relationships_init.
Proof. split; intros; discriminate. Qed.

(** A well-shaped definition cannot make the loop body raise. *)
Lemma weapons_loop_ok obj weapons : forall names wu,
  forallb is_weapon weapons = true ->
  exists names' wu', weapons_loop obj weapons names wu = Ok (names', wu').
Proof.
  induction weapons as [|x weapons IH]; intros names wu; simpl; [eauto|].
  intros [Hx Hrest]%andb_prop. destruct x as [|w]; [done|].
  destruct (nonempty (weapon w)); by apply IH.
Qed.

Lemma prereqs_loop_ok obj items : forall en,
  forallb is_str items = true -> exists en', prereqs_loop obj items en = Ok en'.
Proof.
  induction items as [|x items IH]; intros en; simpl; [eauto|].
  intros [Hx Hrest]%andb_prop. destruct x as [p|]; [|done]. by apply IH.
Qed.

Lemma upgrades_loop_ok obj sections : forall uu upu,
  forallb (fun ks =>
    match dict_get (py "TriggeredBy") (s_properties ks.2) with
    | Some (VList _) => false
    | _ => true
    end) sections = true ->
  exists uu' upu', upgrades_loop obj sections uu upu = Ok (uu', upu').
Proof.
  induction sections as [|[k sec] sections IH]; intros uu upu; simpl; [eauto|].
  intros [Hx Hrest]%andb_prop. destruct (decide _); [|by apply IH].
  destruct (dict_get (py "TriggeredBy") (s_properties sec)) as [[| |]|];
    try done; by apply IH.
Qed.

Lemma fmap_is_str (s : str) : forallb is_str ((fun c => IStr [c]) <$> s) = true.
Proof. induction s as [|c s IH]; [done|]. exact IH. Qed.

Lemma build_one_ok name d r :
  def_ok d = true -> exists r', build_one name d r = Ok r'.
Proof.
  unfold def_ok. intros [[Hw Hp]%andb_prop Hu]%andb_prop.
  assert (exists uw wu, weapons_block name d r = Ok (uw, wu)) as (uw & wu & Hwb).
  { unfold weapons_block.
    destruct (dict_get (py "WeaponSet") (d_sections d)) as [sec|]; [|eauto].
    destruct (get_or_empty (py "weapons") (s_properties sec)) as [|s|l]; [done| |].
    - destruct s; [|done]. simpl. eauto.
    - simpl. destruct (weapons_loop_ok name l [] (weapon_units r) Hw)
        as (names & wu & ->). simpl. destruct (nonempty names); eauto. }
  assert (exists pr en, prerequisites_block name d r = Ok (pr, en)) as (pr & en & Hpb).
  { unfold prerequisites_block.
    destruct (dict_get (py "Prerequisites") (d_sections d)) as [sec|]; [|eauto].
    destruct (get_or_empty (py "prerequisites") (s_properties sec)) as [|s|l];
      simpl; [eauto| |].
    - destruct (nonempty s); [|eauto].
      destruct (prereqs_loop_ok name _ (enables r) (fmap_is_str s)) as (en & ->).
      simpl. eauto.
    - destruct (nonempty l); [|eauto].
      destruct (prereqs_loop_ok name l (enables r) Hp) as (en & ->). simpl. eauto. }
  destruct (upgrades_loop_ok name (d_sections d) (unit_upgrades r)
              (upgrade_units r) Hu) as (uu & upu & Hub).
  unfold build_one. rewrite Hwb, Hpb. simpl.
  destruct (general_block name d r). rewrite Hub. simpl. eauto.
Qed.

Lemma build_loop_ok items : forall r,
  forallb (fun kd => def_ok kd.2) items = true ->
  exists r', build_loop items r = Ok r'.
Proof.
  induction items as [|[name d] items IH]; intros r; simpl; [eauto|].
  intros [Hd Hrest]%andb_prop. destruct (build_one_ok name d r Hd) as [r1 ->].
  simpl. by apply IH.
Qed.

(** C7: when [_build_relationships] returns, every weapon listed for a
    unit in [unit_weapons] has that unit in its [weapon_units] list, and
    every prerequisite iterated from [prerequisites[o]] has [o] in its
    [enables] list; and it does return on every map of well-shaped
    definitions. *)
Theorem relationship_symmetry (all_objects : list (str * definition)) :
  (forall r, _build_relationships all_objects = Ok r -> symmetric r) /\
  (forallb (fun kd => def_ok kd.2) all_objects = true ->
   exists r, _build_relationships all_objects = Ok r).
Proof.
  split.
  - intros r. apply build_loop_symmetric, symmetric_init.
  - apply build_loop_ok.
Qed.

Lemma relationship_symmetry_witness :
  exists r,
    _build_relationships dangling_objects = Ok r /\
    (exists us, dict_get (py "Gun") (weapon_units r) = Some us /\ py "Tank" ∈ us) /\
    (exists os, dict_get (py "Factory") (enables r) = Some os /\ py "Tank" ∈ os).
Proof.
  destruct (relationship_symmetry dangling_objects) as [Hsym Hok].
  destruct (Hok eq_refl) as [r Hr]. exists r. split; [exact Hr|].
  destruct (Hsym r Hr) as [Hw Hp].
  pose proof Hr as Hr'. vm_compute in Hr'. injection Hr' as <-. split.
  - apply (Hw (py "Tank") [py "Gun"] (py "Gun")); [reflexivity|by left].
  - apply (Hp (py "Tank") (VList [IStr (py "Factory")]) [IStr (py "Factory")]
              (py "Factory")); [reflexivity|reflexivity|by left].
Defined.

(** ** Dangling targets *)

Lemma same_at_refl k r : same_at k r r.
Proof. by repeat split. Qed.

Lemma same_at_trans k r1 r2 r3 : same_at k r1 r2 -> same_at k r2 r3 -> same_at k r1 r3.
Proof.
  intros (A1 & A2 & A3 & A4 & A5 & A6) (B1 & B2 & B3 & B4 & B5 & B6).
  repeat split; congruence.
Qed.

Lemma upgrades_loop_other obj k sections : forall uu upu uu' upu',
  upgrades_loop obj sections uu upu = Ok (uu', upu') -> k <> obj ->
  dict_get k uu' = dict_get k uu.
Proof.
  induction sections as [|[sn sec] sections IH]; intros uu upu uu' upu'; simpl.
  - by intros [= <- <-].
  - destruct (decide _); [|apply IH].
    destruct (dict_get (py "TriggeredBy") (s_properties sec)) as [v|]; [|apply IH].
    destruct v; try done; intros Hrun Hne; apply IH in Hrun; try done;
      by rewrite Hrun, dict_get_append_ne.
Qed.

Lemma build_one_other name d r r' k :
  build_one name d r = Ok r' -> k <> name -> same_at k r r'.
Proof.
  intros (uw & wu & pr & en & uu & upu & Hwb & Hpb & Hub & ->)%build_one_inv Hne.
  apply weapons_block_spec in Hwb as (_ & Huw).
  apply prerequisites_block_spec in Hpb as (_ & Hpr).
  apply (upgrades_loop_other _ k) in Hub; [|done].
  repeat split; simpl.
  - destruct Huw as [->|(names & -> & _)]; [done|]. by rewrite dict_get_set_ne.
  - unfold armor_block. destruct (dict_get _ (d_sections d)); [|done].
    destruct (get_or_empty _ _) as [|[|]|[|]]; try done; by rewrite dict_get_set_ne.
  - unfold locomotor_block.
    destruct (dict_get _ (d_properties d)) as [[|lv|]|]; try done.
    destruct (contains _ lv); [|done].
    cbv zeta. destruct (2 <=? _)%nat; [|done].
    destruct (last _); [|done]. by rewrite dict_get_set_ne.
  - unfold general_block. destruct (startswith _ _); [|done].
    destruct (_extract_general_from_path _) as [g|]; [|done].
    destruct (nonempty g); [|done]. simpl. by rewrite dict_get_set_ne.
  - exact Hub.
  - destruct Hpr as [->|(v & -> & _)]; [done|]. by rewrite dict_get_set_ne.
Qed.

(** A value of two words: the locomotor is the second. *)
Lemma locomotor_two_words name r :
  locomotor_block name
    (mkDefinition (py "Object") name (py "a.ini")
       [(py "Locomotor", VStr (py "SET_NORMAL TankLocomotor"))] [] 0) r
  = dict_set name (py "TankLocomotor") (unit_locomotor r).
Proof. reflexivity. Qed.

Lemma build_loop_other items k : forall r r',
  build_loop items r = Ok r' -> k ∉ (fst <$> items) -> same_at k r r'.
Proof.
  induction items as [|[name d] items IH]; intros r r'; simpl.
  - intros [= <-] _. apply same_at_refl.
  - intros (r1 & H1 & H2)%rbind_ok_inv [Hne Hk]%not_elem_of_cons.
    eapply same_at_trans; [by eapply build_one_other|by eapply IH].
Qed.

Lemma build_loop_app l1 l2 r :
  build_loop (l1 ++ l2) r = rbind (build_loop l1 r) (build_loop l2).
Proof.
  revert r. induction l1 as [|[name d] l1 IH]; intros r; simpl; [done|].
  destruct (build_one name d r); simpl; [apply IH|done].
Qed.

Lemma dict_get_None {V} (k : str) (d : list (str * V)) :
  dict_get k d = None <-> k ∉ (fst <$> d).
Proof.
  induction d as [|[k' v] d IH]; cbn [dict_get].
  - split; [intros _ ?%elem_of_nil; done|done].
  - rewrite fmap_cons, not_elem_of_cons. cbn [fst]. destruct (decide (k' = k)).
    + split; [done|]. intros [? _]. congruence.
    + rewrite IH. split; [intros ?; split; congruence|by intros [_ ?]].
Qed.

Lemma dict_get_split {V} (k : str) (v : V) (d : list (str * V)) :
  dict_get k d = Some v ->
  exists d1 d2, d = d1 ++ (k, v) :: d2 /\ k ∉ (fst <$> d1).
Proof.
  induction d as [|[k' v'] d IH]; [done|]. simpl.
  destruct (decide (k' = k)) as [->|Hne].
  - intros [= ->]. exists [], d. split; [done|]. by intros ?%elem_of_nil.
  - intros (d1 & d2 & -> & Hk)%IH. exists ((k', v') :: d1), d2.
    split; [done|]. rewrite fmap_cons. apply not_elem_of_cons.
    split; [simpl; congruence|done].
Qed.

Lemma build_one_forward u d r r' sec ws wi :
  build_one u d r = Ok r' ->
  dict_get (py "WeaponSet") (d_sections d) = Some sec ->
  dict_get (py "weapons") (s_properties sec) = Some (VList ws) ->
  IWeapon wi ∈ ws -> weapon wi <> [] ->
  exists names, dict_get u (unit_weapons r') = Some names /\ weapon wi ∈ names.
Proof.
  intros (uw & wu & pr & en & uu & upu & Hwb & _ & _ & ->)%build_one_inv
    Hsec Hws Hin Hne. simpl.
  unfold weapons_block, get_or_empty in Hwb. rewrite Hsec, Hws in Hwb. simpl in Hwb.
  apply rbind_ok_inv in Hwb as ([names wu'] & Hloop & H).
  apply weapons_loop_spec in Hloop as (_ & _ & _ & Hall); [|by intros w ?%elem_of_nil].
  specialize (Hall wi Hin Hne).
  destruct names as [|n names]; [by apply elem_of_nil in Hall|].
  injection H as <- <-. exists (n :: names). by rewrite dict_get_set_eq.
Qed.

(** C8, as the code has it: on a map of definitions shaped as the typed
    post-processing leaves them ([def_ok]) in which the WeaponSet of [u]
    names a weapon that no definition provides,
    [_build_relationships] returns; the forward edge is in
    [unit_weapons[u]] (and [u] is in [weapon_units] of the missing name);
    in every map keyed by the referring definition the missing name has
    no entry, so looking it up there gives nothing. *)
Theorem dangling_weapon_tolerated
    (all_objects : list (str * definition)) u d sec ws wi :
  NoDup (fst <$> all_objects) ->
  forallb (fun kd => def_ok kd.2) all_objects = true ->
  dict_get u all_objects = Some d ->
  dict_get (py "WeaponSet") (d_sections d) = Some sec ->
  dict_get (py "weapons") (s_properties sec) = Some (VList ws) ->
  IWeapon wi ∈ ws -> weapon wi <> [] ->
  dict_get (weapon wi) all_objects = None ->
  exists r,
    _build_relationships all_objects = Ok r /\
    (exists names, dict_get u (unit_weapons r) = Some names /\ weapon wi ∈ names) /\
    (exists us, dict_get (weapon wi) (weapon_units r) = Some us /\ u ∈ us) /\
    absent (weapon wi) r.
Proof.
  intros Hnd Hok Hu Hsec Hws Hin Hne Hmiss.
  destruct (build_loop_ok all_objects relationships_init Hok) as [r Hr].
  exists r. split; [exact Hr|].
  assert (exists names, dict_get u (unit_weapons r) = Some names /\
                        weapon wi ∈ names) as (names & Hnames & Hw).
  { destruct (dict_get_split _ _ _ Hu) as (l1 & l2 & -> & Hl1).
    rewrite fmap_app, fmap_cons in Hnd. apply NoDup_app in Hnd as (_ & _ & Hnd2).
    apply NoDup_cons in Hnd2 as [Hl2 _]. simpl in Hl2.
    unfold _build_relationships in Hr. rewrite build_loop_app in Hr.
    apply rbind_ok_inv in Hr as (r1 & _ & Hr). simpl in Hr.
    apply rbind_ok_inv in Hr as (r2 & Hone & Hr).
    destruct (build_one_forward _ _ _ _ _ _ _ Hone Hsec Hws Hin Hne)
      as (names & Hnames & Hw).
    exists names. split; [|done].
    destruct (build_loop_other _ u _ _ Hr Hl2) as [-> _]. exact Hnames. }
  split; [eauto|]. split.
  { destruct (build_loop_symmetric _ _ _ symmetric_init Hr) as [Hsym _]. eauto. }
  apply dict_get_None in Hmiss.
  destruct (build_loop_other _ _ _ _ Hr Hmiss) as (A1 & A2 & A3 & A4 & A5 & A6).
  by repeat split.
Qed.

Lemma dangling_weapon_tolerated_witness :
  exists r,
    _build_relationships dangling_objects = Ok r /\
    (exists names, dict_get (py "Tank") (unit_weapons r) = Some names /\
                   py "Gun" ∈ names) /\
    absent (py "Gun") r.
Proof.
  destruct (dangling_weapon_tolerated dangling_objects (py "Tank")
    (mkDefinition (py "Object") (py "Tank") (py "a.ini") []
      [(py "WeaponSet",
        mkSection (py "WeaponSet") None
          [(py "weapons", VList [IWeapon (mkWeapon (py "PRIMARY") (py "Gun"))]);
           (py "conditions", VNone)] None);
       (py "Prerequisites",
        mkSection (py "Prerequisites") None
          [(py "prerequisites", VList [IStr (py "Factory")])] None)] 0)
    (mkSection (py "WeaponSet") None
          [(py "weapons", VList [IWeapon (mkWeapon (py "PRIMARY") (py "Gun"))]);
           (py "conditions", VNone)] None)
    [IWeapon (mkWeapon (py "PRIMARY") (py "Gun"))]
    (mkWeapon (py "PRIMARY") (py "Gun")))
    as (r & Hr & Hfwd & _ & Habs).
  - vm_compute. apply NoDup_singleton.
  - reflexivity.
  - reflexivity.
  - reflexivity.
  - reflexivity.
  - by left.
  - by vm_compute.
  - reflexivity.
  - exists r. split; [exact Hr|]. split; [exact Hfwd|exact Habs].
Defined.

(** C8 as stated fails: in the map parsed from [string_weapons_text] the
    WeaponSet of Tank names Gun, which no definition provides, and
    [_build_relationships] raises [AttributeError].  The section that
    Jeep stores under the key WeaponSet holds [weapons] as the string
    abc, and the builder calls [.get] on each character of it. *)
Lemma dangling_map_with_string_weapons_raises :
  exists m tank sec,
    parse_ini_content string_weapons_text (py "a.ini") = Ok m /\
    m.*1 = [py "Tank"; py "Jeep"] /\
    dict_get (py "Tank") m = Some tank /\
    dict_get (py "WeaponSet") (d_sections tank) = Some sec /\
    dict_get (py "weapons") (s_properties sec)
    = Some (VList [IWeapon (mkWeapon (py "PRIMARY") (py "Gun"))]) /\
    dict_get (py "Gun") m = None /\
    _build_relationships m = Raise AttributeError.
Proof.
  do 3 eexists. split; [vm_compute; reflexivity|].
  split; [reflexivity|]. split; [vm_compute; reflexivity|].
  split; [vm_compute; reflexivity|]. split; [vm_compute; reflexivity|].
  split; vm_compute; reflexivity.
Qed.

(** ** Property lines *)

(** X14: a property line with [=] never raises: it is cut at its first
    [=], and the stripped left part becomes a key holding the stripped
    right part as a string; a value the key had before is replaced and no
    other key changes. *)
Theorem parse_property_eq_form (line : str) (props : list (str * value)) :
  contains (py "=") line = true ->
  exists a b props',
    line = a ++ EQ :: b /\ (EQ ∉ a) /\
    _parse_property line props = Ok props' /\
    dict_get (strip a) props' = Some (VStr (strip b)) /\
    forall k, k <> strip a -> dict_get k props' = dict_get k props.
Proof.
  intros H. unfold _parse_property. rewrite H.
  apply (contains_char EQ) in H.
  destruct (split_on1_found _ _ H) as (a & b & E & Hl & Ha).
  exists a, b, (dict_set (strip a) (VStr (strip b)) props).
  rewrite E. cbn [index lookup list_lookup rbind].
  split; [done|]. split; [done|]. split; [done|].
  split; [apply dict_get_set_eq|]. intros k Hk. by apply dict_get_set_ne.
Qed.

Lemma parse_property_eq_form_witness :
  _parse_property (py "Speed = 30 = x ") [(py "Speed", VStr (py "old"))]
  = Ok [(py "Speed", VStr (py "30 = x"))].
Proof.
  destruct (parse_property_eq_form (py "Speed = 30 = x ")
              [(py "Speed", VStr (py "old"))]) as (a & b & props' & _ & _ & H & _).
  - vm_compute. reflexivity.
  - rewrite H. vm_compute in H. by injection H as <-.
Defined.

Lemma parse_property_raises_only (line : str) (props : list (str * value)) e :
  _parse_property line props = Raise e -> e = AttributeError.
Proof.
  unfold _parse_property. destruct (contains (py "=") line) eqn:Hc.
  { apply (contains_char EQ) in Hc.
    by destruct (split_on1_found _ _ Hc) as (a & b & -> & _ & _). }
  destruct (split_ws1 line) as [|key rest]; [done|].
  destruct (bool_decide (key ∈ multi_valued)); [|done].
  unfold dict_mem. destruct (dict_get key props) as [v|] eqn:Hg.
  - rewrite Hg. destruct v; by intros [= <-].
  - by rewrite dict_get_set_eq.
Qed.

(** X15: [_parse_property] fails in one situation only: the line has no
    [=], its first word is one of the two accumulating keys, and that key
    already holds something that is not a list (it was set by a line with
    [=]); the exception is [AttributeError]. *)
Theorem parse_property_failures (line : str) (props : list (str * value)) :
  (_parse_property line props = Raise AttributeError <->
   contains (py "=") line = false /\
   exists key rest v,
     split_ws1 line = key :: rest /\ key ∈ multi_valued /\
     dict_get key props = Some v /\ forall l, v <> VList l) /\
  (forall e, _parse_property line props = Raise e -> e = AttributeError).
Proof.
  unfold _parse_property. destruct (contains (py "=") line) eqn:Hc.
  { apply (contains_char EQ) in Hc.
    destruct (split_on1_found _ _ Hc) as (a & b & -> & _ & _).
    cbn [index lookup list_lookup rbind]. split; [|done].
    split; [done|]. by intros [? _]. }
  destruct (split_ws1 line) as [|key rest] eqn:Hs.
  { split; [|done]. split; [done|]. by intros (_ & ? & ? & ? & ? & _). }
  destruct (bool_decide (key ∈ multi_valued)) eqn:Hm.
  - apply bool_decide_eq_true in Hm. unfold dict_mem.
    destruct (dict_get key props) as [v|] eqn:Hg.
    + rewrite Hg. destruct v as [|s|l].
      * split; [|by intros e [= <-]]. split; [|done]. intros _. split; [done|].
        exists key, rest, VNone. by repeat split.
      * split; [|by intros e [= <-]]. split; [|done]. intros _. split; [done|].
        exists key, rest, (VStr s). by repeat split.
      * split; [|done]. split; [done|].
        intros (_ & k & r & v & [= <- <-] & _ & Hv & Hl).
        rewrite Hg in Hv. injection Hv as <-. by destruct (Hl l).
    + rewrite dict_get_set_eq. split; [|done]. split; [done|].
      intros (_ & k & r & v & [= <- <-] & _ & Hv & _). congruence.
  - apply bool_decide_eq_false in Hm. split; [|done]. split; [done|].
    intros (_ & k & r & v & [= <- <-] & Hk & _). done.
Qed.

Lemma parse_property_failures_witness :
  _parse_property (py "ShowSubObject B")
    [(py "ShowSubObject", VStr (py "A"))] = Raise AttributeError.
Proof.
  destruct (parse_property_failures (py "ShowSubObject B")
              [(py "ShowSubObject", VStr (py "A"))]) as [[_ H] _].
  apply H. split; [reflexivity|].
  exists (py "ShowSubObject"), [py "B"], (VStr (py "A")).
  split; [reflexivity|]. split; [by_decide|]. split; [reflexivity|done].
Defined.

(** ** What the returned map looks like *)

Lemma dict_set_spec {K V} `{EqDecision K} (k : K) (v : V) d :
  NoDup d.*1 ->
  NoDup (dict_set k v d).*1 /\
  forall kv, kv ∈ dict_set k v d -> kv = (k, v) \/ (kv ∈ d /\ kv.1 <> k).
Proof.
  induction d as [|[k' v'] d IH]; simpl.
  - intros _. split; [apply NoDup_singleton|].
    intros kv ->%list_elem_of_singleton. by left.
  - intros [Hk' Hnd]%NoDup_cons. destruct (IH Hnd) as [IH1 IH2].
    destruct (decide (k' = k)) as [->|Hne]; simpl.
    + split; [by apply NoDup_cons|].
      intros kv [->|Hin]%elem_of_cons; [by left|]. right. split; [by right|].
      intros E. apply Hk'. rewrite <- E. by apply list_elem_of_fmap_2.
    + split.
      * apply NoDup_cons. split; [|done].
        intros (kv & Hkv & Hin)%list_elem_of_fmap.
        destruct (IH2 kv Hin) as [->|[Hd _]]; [done|].
        apply Hk'. rewrite Hkv. by apply list_elem_of_fmap_2.
      * intros kv [->|Hin]%elem_of_cons; [right; split; [by left|done]|].
        destruct (IH2 kv Hin) as [->|[Hd Hk]]; [by left|].
        right. split; [by right|done].
Qed.

Lemma split_on_elem (sep : N) (s : str) : forall x c,
  x ∈ split_on sep s -> c ∈ x -> c ∈ s.
Proof.
  induction s as [|y s IH]; intros x c; simpl.
  - intros ->%list_elem_of_singleton. by intros ?%elem_of_nil.
  - destruct (y =? sep)%N.
    + intros [->|Hx]%elem_of_cons; [by intros ?%elem_of_nil|].
      intros Hc. right. by eapply IH.
    + destruct (split_on sep s) as [|w ws] eqn:E.
      * intros ->%list_elem_of_singleton. intros ->%list_elem_of_singleton. by left.
      * intros [->|Hx]%elem_of_cons.
        -- intros [->|Hc]%elem_of_cons; [by left|]. right.
           apply (IH w c); [by left|done].
        -- intros Hc. right. apply (IH x c); [by right|done].
Qed.

Lemma first_token_token (t rest : str) :
  token t -> first_token (t ++ SPACE :: rest) = (t, SPACE :: rest).
Proof.
  intros [_ Hsp]. induction Hsp as [|c t Hc Hsp IH]; [done|].
  cbn [app first_token]. by rewrite Hc, IH.
Qed.

Lemma keywords_tokens : Forall token keywords.
Proof. unfold token. by_decide. Qed.

Lemma object_definition_type (line : str) t n :
  _is_object_definition line = true ->
  _parse_object_definition line = (Some t, Some n) -> t ∈ keywords.
Proof.
  unfold _is_object_definition. rewrite existsb_exists.
  intros (kw & Hkw%list_elem_of_In & Hst).
  unfold startswith in Hst. apply bool_decide_eq_true in Hst.
  pose proof keywords_tokens as Htok. rewrite Forall_forall in Htok.
  specialize (Htok kw Hkw).
  assert (line = kw ++ SPACE :: drop (length (kw ++ py " ")) line) as Hl.
  { rewrite <- (take_drop (length (kw ++ py " ")) line) at 1. rewrite Hst.
    by rewrite <- app_assoc. }
  unfold _parse_object_definition, split_ws1. rewrite Hl.
  destruct (token_head kw Htok) as (c & t' & -> & Hc).
  cbn [app]. rewrite lstrip_nonspace by done.
  change (c :: t' ++ SPACE :: ?r) with ((c :: t') ++ SPACE :: r).
  rewrite first_token_token by done.
  destruct (lstrip _) as [|? ?]; [done|]. by intros [= <- _].
Qed.

Lemma define_object_names src n l st st' :
  _is_object_definition l = true ->
  objs_inv src st -> define_object src n l st = Ok st' -> objs_inv src st'.
Proof.
  intros Hdef [Hnd Hall]. unfold define_object.
  destruct (_parse_object_definition l) as [[t|] [nm|]] eqn:Hp; try by intros [= <-].
  destruct (nonempty t && nonempty nm); [|by intros [= <-]].
  pose proof (object_definition_type l t nm Hdef Hp) as Ht.
  set (nm1 := if contains (py "=") nm then remove_char EQ nm else nm).
  assert (EQ ∉ nm1) as Hnm1.
  { unfold nm1. destruct (contains (py "=") nm) eqn:E.
    - unfold remove_char. rewrite list_elem_of_filter. by intros [? _].
    - intros Hin. apply (contains_char EQ) in Hin.
      change (py "=") with [EQ] in E. congruence. }
  intros (nm2 & Hnm2 & [= <-])%rbind_ok_inv.
  assert (EQ ∉ nm2) as Hnm.
  { destruct (startswith nm1 (py " ")); [|by injection Hnm2 as <-].
    unfold index in Hnm2.
    destruct (split_on SPACE nm1 !! 1%nat) as [x|] eqn:E; [|done].
    injection Hnm2 as <-. intros Hin. apply Hnm1.
    eapply split_on_elem; [|exact Hin]. by eapply list_elem_of_lookup_2. }
  destruct (dict_set_spec nm2 (length (oheap st)) (objects st) Hnd) as [Hnd' Hel].
  split; [exact Hnd'|]. cbn [objects oheap].
  rewrite Forall_forall in Hall. apply Forall_forall. intros [k r] Hin.
  rewrite length_app. cbn [length fst snd].
  destruct (Hel _ Hin) as [[= -> ->]|[Hold _]].
  - split; [lia|]. rewrite lookup_total_app_r, Nat.sub_diag by lia.
    by repeat split.
  - destruct (Hall _ Hold) as [Hr Hok]. cbn [fst snd] in *.
    split; [lia|]. by rewrite lookup_total_app_l.
Qed.

Lemma objs_inv_alter src st (f : object -> object) co oh' :
  (forall o, o_name (f o) = o_name o /\ o_type (f o) = o_type o /\
             o_source_file (f o) = o_source_file o) ->
  oh' = alter f co (oheap st) ->
  objs_inv src st ->
  forall sh cs stack ins sp,
    objs_inv src (mkPstate oh' sh (objects st) (current_object st) cs stack ins sp).
Proof.
  intros Hf -> [Hnd Hall] sh cs stack ins sp. split; [done|].
  cbn [objects oheap]. rewrite length_alter.
  eapply Forall_impl; [exact Hall|]. intros [k r] [Hr (H1 & H2 & H3 & H4)].
  cbn [fst snd] in *. split; [done|].
  rewrite list_lookup_total_alter. destruct (decide _) as [[-> _]|_]; [|done].
  destruct (Hf (oheap st !!! r)) as (E1 & E2 & E3).
  unfold named_ok. by rewrite E1, E2, E3.
Qed.

Lemma objs_inv_same src st :
  objs_inv src st ->
  forall sh co cs stack ins sp,
    objs_inv src (mkPstate (oheap st) sh (objects st) co cs stack ins sp).
Proof. by intros [Hnd Hall]. Qed.

Lemma parse_line_names src st n line st' :
  objs_inv src st -> parse_line src st n line = Ok st' -> objs_inv src st'.
Proof.
  intros Hinv. unfold parse_line.
  destruct (negb _ || startswith _ _); [by intros [= <-]|].
  destruct (_is_object_definition _) eqn:Hdef; [by apply define_object_names|].
  destruct (decide _).
  { unfold end_statement.
    destruct (in_section st), (current_section st);
      try (intros [= <-]; by apply objs_inv_same).
    intros ([sh sp] & _ & H)%rbind_ok_inv.
    destruct (nonempty (section_stack st)); injection H as <-;
      by apply objs_inv_same. }
  destruct (current_object st) as [co|] eqn:Hco; [|by intros [= <-]].
  destruct (in_section st) eqn:Hin.
  { destruct (current_section st); intros [= <-]; [|done].
    rewrite <- Hco. by apply objs_inv_same. }
  unfold object_line.
  destruct (bool_decide _).
  { intros [= <-]. unfold open_section.
    eapply objs_inv_alter; [|reflexivity|exact Hinv]. by intros []. }
  destruct (contains _ _ && contains _ _).
  - intros (p0 & _ & (ty & _ & (tag & _ & [= <-])%rbind_ok_inv)%rbind_ok_inv)%rbind_ok_inv.
    unfold open_section. eapply objs_inv_alter; [|reflexivity|exact Hinv]. by intros [].
  - intros (props & _ & [= <-])%rbind_ok_inv.
    eapply objs_inv_alter; [|reflexivity|exact Hinv]. by intros [].
Qed.

Lemma parse_lines_names src lines : forall n st st',
  objs_inv src st -> parse_lines src lines n st = Ok st' -> objs_inv src st'.
Proof.
  induction lines as [|l lines IH]; intros n st st' Hinv; simpl.
  - by intros [= <-].
  - intros (st1 & H1 & H2)%rbind_ok_inv. eapply IH; [|exact H2].
    by eapply parse_line_names.
Qed.

Lemma parse_result_inv content src objs :
  parse_ini_content content src = Ok objs ->
  NoDup objs.*1 /\ Forall (def_named src) objs.
Proof.
  unfold parse_ini_content. intros (st & Hrun & [= <-])%rbind_ok_inv.
  apply (parse_lines_names src) in Hrun as [Hnd Hall];
    [|split; [constructor|constructor]].
  unfold resolve. split.
  - rewrite <- list_fmap_compose.
    erewrite list_fmap_ext; [exact Hnd|]. by intros ? [] ?.
  - apply Forall_fmap. eapply Forall_impl; [exact Hall|].
    by intros [k r] [_ ?].
Qed.

(** X16: the map [parse_ini_content] returns is keyed by definition
    name: the keys are distinct, every definition is stored under its own
    name, its type is one of the twelve keywords, its source file is the
    label that was passed in, and no name contains [=]. *)
Theorem parse_result_names (content src : str) (objs : list (str * definition)) :
  parse_ini_content content src = Ok objs ->
  NoDup objs.*1 /\ Forall (def_named src) objs.
Proof. apply parse_result_inv. Qed.

Lemma parse_result_names_witness :
  exists objs, parse_ini_content unit_text (py "a.ini") = Ok objs /\
               objs.*1 = [py "Tank"; py "PRIMARY"; py "SECONDARY"] /\
               Forall (def_named (py "a.ini")) objs.
Proof.
  destruct (parse_ini_content unit_text (py "a.ini")) as [objs|e0] eqn:E;
    [|vm_compute in E; discriminate].
  exists objs. split; [reflexivity|].
  destruct (parse_result_names _ _ _ E) as [_ H]. split; [|exact H].
  vm_compute in E. injection E as <-. reflexivity.
Defined.

(** ** Lines outside every definition *)

Lemma parse_line_outside src st n line :
  current_object st = None -> in_section st = false ->
  _is_object_definition (strip line) = false ->
  parse_line src st n line = Ok st.
Proof.
  intros Hco Hin Hdef. unfold parse_line. rewrite Hdef.
  destruct (negb _ || startswith _ _); [done|].
  destruct (decide _).
  - unfold end_statement. rewrite Hin. destruct st; simpl in *. by subst.
  - by rewrite Hco.
Qed.

(** X17: lines that belong to no definition are dropped without an
    error: in a content where no line starts with a keyword followed by
    a space, every property, section header and [End] is ignored, and the
    call returns the empty map. *)
Theorem no_keyword_no_definition (content src : str) :
  Forall (fun l => _is_object_definition (strip l) = false)
    (split_on NEWLINE content) ->
  parse_ini_content content src = Ok [].
Proof.
  intros H. unfold parse_ini_content.
  assert (forall n, parse_lines src (split_on NEWLINE content) n pstate_init
                    = Ok pstate_init) as ->; [|done].
  induction H as [|l ls Hl Hls IH]; intros n; simpl; [done|].
  rewrite parse_line_outside by done. simpl. apply IH.
Qed.

Lemma no_keyword_no_definition_witness :
  parse_ini_content
    (text ["Speed = 30"%string; "WeaponSet"%string; "= ModuleTag_01"%string;
           "End"%string; "ShowSubObject A"%string]) (py "a.ini") = Ok [].
Proof.
  apply no_keyword_no_definition. by_decide.
Defined.

(** ** Which exceptions the parser can raise *)

Lemma split_on_cons_nonempty sep s : split_on sep s <> [].
Proof.
  destruct s as [|c s]; simpl; [done|].
  destruct (c =? sep)%N; [done|]. by destruct (split_on sep s).
Qed.

Lemma define_object_ok src n l st : exists st', define_object src n l st = Ok st'.
Proof.
  unfold define_object.
  destruct (_parse_object_definition l) as [[t|] [nm|]]; eauto.
  destruct (nonempty t && nonempty nm); eauto.
  set (nm1 := if contains (py "=") nm then remove_char EQ nm else nm).
  destruct (startswith nm1 (py " ")) eqn:E; simpl; eauto.
  unfold startswith in E. apply bool_decide_eq_true in E.
  destruct nm1 as [|c nm1]; [done|]. injection E as ->.
  cbn [split_on]. change (SPACE =? SPACE)%N with true. cbv iota.
  pose proof (split_on_cons_nonempty SPACE nm1) as Hne.
  destruct (split_on SPACE nm1) as [|x xs]; [done|]. simpl. eauto.
Qed.

Lemma generic_loop_raises properties : forall props e,
  generic_loop properties props = Raise e -> e = AttributeError.
Proof.
  induction properties as [|prop rest IH]; intros props e; simpl; [done|].
  destruct (contains (py "=") prop) eqn:Hc.
  - apply (contains_char EQ) in Hc.
    destruct (split_on1_found _ _ Hc) as (a & b & -> & _ & _). apply IH.
  - unfold props_append, dict_mem.
    destruct (dict_get (py "_lines") props) as [v|] eqn:Hg.
    + rewrite Hg. destruct v; simpl; try by intros [= <-]. apply IH.
    + rewrite dict_get_set_eq. simpl. apply IH.
Qed.

Lemma process_section_raises sec properties e :
  _process_section_properties sec properties = Raise e -> e = AttributeError.
Proof.
  unfold _process_section_properties.
  destruct (decide (s_type sec = py "WeaponSet")).
  { by destruct (weaponset_loop_ok properties [] VNone) as (ws & c & ->). }
  destruct (decide (s_type sec = py "ArmorSet")).
  { by destruct (armorset_loop_ok properties (s_properties sec) [] VNone)
      as (p & a & c & ->). }
  destruct (decide (s_type sec = py "Prerequisites")).
  { by destruct (prerequisites_loop_ok properties []) as (l & ->). }
  destruct (generic_loop properties (s_properties sec)) as [p|e'] eqn:E; [done|].
  intros [= <-]. by apply generic_loop_raises in E.
Qed.

Lemma parse_property_raises_cause (line : str) (props : list (str * value)) e :
  _parse_property line props = Raise e ->
  e = AttributeError /\ contains (py "=") line = false /\
  exists key rest, split_ws1 line = key :: rest /\ key ∈ multi_valued.
Proof.
  intros H. split; [by eapply parse_property_raises_only|].
  unfold _parse_property in H. destruct (contains (py "=") line) eqn:Hc.
  { apply (contains_char EQ) in Hc.
    by destruct (split_on1_found _ _ Hc) as (a & b & E & _ & _); rewrite E in H. }
  split; [done|]. destruct (split_ws1 line) as [|key rest]; [done|].
  destruct (bool_decide (key ∈ multi_valued)) eqn:Hm; [|done].
  apply bool_decide_eq_true in Hm. eauto.
Qed.

Lemma parse_line_raises src st n line e :
  parse_line src st n line = Raise e ->
  (e = IndexError /\ blank_module_head (strip line)) \/
  (e = AttributeError /\ appends_to_key (strip line)).
Proof.
  unfold parse_line.
  destruct (negb _ || startswith _ _); [done|].
  destruct (_is_object_definition _).
  { by destruct (define_object_ok src n (strip line) st) as [st' ->]. }
  destruct (decide _) as [Hend|_].
  { unfold end_statement.
    destruct (in_section st), (current_section st); try done.
    destruct (nonempty (section_properties st)); simpl.
    - destruct (_process_section_properties _ _) as [sec|e'] eqn:E; simpl.
      + by destruct (nonempty (section_stack st)).
      + intros [= <-]. right. split; [by apply process_section_raises in E|by left].
    - by destruct (nonempty (section_stack st)). }
  destruct (current_object st) as [co|]; [|done].
  destruct (in_section st); [by destruct (current_section st)|].
  unfold object_line. destruct (bool_decide _); [done|].
  destruct (contains _ _ && contains _ _) eqn:Hmod.
  - apply andb_prop in Hmod as [Hc Htag]. unfold index, index_last.
    pose proof (split_on_cons_nonempty EQ (strip line)) as Hne.
    destruct (split_on EQ (strip line)) as [|p0 rest] eqn:Hs; [done|].
    cbn [lookup list_lookup rbind].
    destruct (split_ws (strip p0)) as [|t ts] eqn:Ht; cbn [lookup list_lookup rbind].
    + intros [= <-]. left. split; [done|]. split; [done|]. split; [done|]. eauto.
    + destruct (last (t :: ts)) eqn:Hl; [done|]. by apply last_None in Hl.
  - destruct (_parse_property _ _) as [p|e'] eqn:E; simpl; [done|].
    intros [= <-]. right.
    apply parse_property_raises_cause in E as (-> & Hc & Hk).
    split; [done|]. by right.
Qed.

(** X18: [parse_ini_content] can fail in two ways only.  It raises
    [IndexError] at a module header (a line with [=] and [ModuleTag_])
    whose part before the first [=] is blank, and [AttributeError] at an
    [End] or at a line without [=] whose first word is one of the two
    accumulating keys; nothing else escapes, whatever the content. *)
Theorem parse_failures (content src : str) (e : exn) :
  parse_ini_content content src = Raise e ->
  exists l, l ∈ split_on NEWLINE content /\
    ((e = IndexError /\ blank_module_head (strip l)) \/
     (e = AttributeError /\ appends_to_key (strip l))).
Proof.
  unfold parse_ini_content.
  generalize (split_on NEWLINE content) 0%nat pstate_init.
  intros lines. induction lines as [|l lines IH]; intros n st; simpl; [done|].
  destruct (parse_line src st n l) as [st1|e'] eqn:E; simpl.
  - intros H. destruct (IH _ _ H) as (l' & Hl' & Hc). exists l'. split; [by right|done].
  - intros [= <-]. exists l. split; [by left|]. by apply parse_line_raises in E.
Qed.

Lemma parse_failures_witness :
  parse_ini_content
    (text ["Object T"%string; "Draw = X ModuleTag_01"%string;
           "_lines = a"%string; "b"%string; "End"%string]) (py "a.ini")
  = Raise AttributeError.
Proof.
  destruct (parse_ini_content
    (text ["Object T"%string; "Draw = X ModuleTag_01"%string;
           "_lines = a"%string; "b"%string; "End"%string]) (py "a.ini"))
    as [objs|e] eqn:E; [vm_compute in E; discriminate|].
  destruct (parse_failures _ _ _ E) as (l & _ & [[-> _]|[-> _]]); [|reflexivity].
  vm_compute in E. discriminate.
Defined.

(** ** Module headers *)





(** ** The general of a source file *)

Lemma split_on_absent (c : N) (s : str) : c ∉ s -> split_on c s = [s].
Proof.
  induction s as [|x s IH]; intros Hs; simpl; [done|].
  apply not_elem_of_cons in Hs as [Hx Hs].
  destruct (N.eqb_spec x c); [congruence|]. by rewrite IH.
Qed.

Lemma split_on_last (c : N) (a b : str) :
  last (split_on c (a ++ c :: b)) = last (split_on c b).
Proof.
  assert (exists w ws, split_on c (a ++ c :: b) = (w :: ws) ++ split_on c b)
    as (w & ws & ->).
  { induction a as [|x a (w & ws & IH)]; simpl.
    - rewrite N.eqb_refl. by exists [], [].
    - destruct (x =? c)%N.
      + exists [], (w :: ws). by rewrite IH.
      + rewrite IH. by exists (x :: w), ws. }
  rewrite last_app. pose proof (split_on_cons_nonempty c b) as Hne.
  destruct (last (split_on c b)) eqn:E; [done|].
  by apply last_None in E.
Qed.

(** X20: the general of a definition is looked up by the part of its
    source path after the last backslash, compared exactly with the
    seventeen file names of the table; directories before it play no
    role in the lookup, and a path without backslash is taken whole. *)
Theorem extract_general_last_component (dir file : str) :
  BACKSLASH ∉ file ->
  _extract_general_from_path (dir ++ BACKSLASH :: file)
  = dict_get file general_mapping /\
  _extract_general_from_path file = dict_get file general_mapping.
Proof.
  intros Hf. unfold _extract_general_from_path.
  by rewrite split_on_last, split_on_absent.
Qed.

Lemma extract_general_last_component_witness :
  _extract_general_from_path (py "Object\ChinaAir.ini") = Some (py "China") /\
  _extract_general_from_path (py "Object/ChinaAir.ini") = None.
Proof.
  destruct (extract_general_last_component (py "Object") (py "ChinaAir.ini")) as [H1 _];
    [by_decide|].
  destruct (extract_general_last_component [] (py "Object/ChinaAir.ini")) as [_ H2];
    [by_decide|].
  split; [exact H1|exact H2].
Defined.

(** ** Generals and upgrades in the relationship graph *)

Lemma dict_append_keeps {K V} `{EqDecision K} (k0 : K) (x : V) d k l :
  dict_get k d = Some l ->
  exists l', dict_get k (dict_append k0 x d) = Some l' /\ forall y, y ∈ l -> y ∈ l'.
Proof.
  intros H0. destruct (decide (k0 = k)) as [->|Hne].
  - rewrite dict_get_append_eq, H0. simpl. eexists. split; [done|].
    intros y Hy. apply elem_of_app. by left.
  - rewrite dict_get_append_ne by done. eauto.
Qed.

Lemma dict_get_elem {K V} `{EqDecision K} (k : K) (v : V) d :
  dict_get k d = Some v -> v ∈ d.*2.
Proof.
  induction d as [|[k' v'] d IH]; simpl; [done|].
  destruct (decide (k' = k)).
  - intros [= ->]. by left.
  - intros Hd. right. by apply IH.
Qed.

Lemma upgrades_loop_sym obj sections : forall uu upu uu' upu',
  upgrades_loop obj sections uu upu = Ok (uu', upu') ->
  (forall u ups v, dict_get u uu = Some ups -> v ∈ ups ->
     exists us, dict_get v upu = Some us /\ u ∈ us) ->
  (forall u ups v, dict_get u uu' = Some ups -> v ∈ ups ->
     exists us, dict_get v upu' = Some us /\ u ∈ us).
Proof.
  induction sections as [|[sn sec] sections IH]; intros uu upu uu' upu'; simpl.
  - by intros [= <- <-].
  - destruct (decide _); [|apply IH].
    destruct (dict_get (py "TriggeredBy") (s_properties sec)) as [v0|]; [|apply IH].
    assert (forall u ups v,
      dict_get u (dict_append obj v0 uu) = Some ups -> v ∈ ups ->
      (forall u ups v, dict_get u uu = Some ups -> v ∈ ups ->
         exists us, dict_get v upu = Some us /\ u ∈ us) ->
      exists us, dict_get v (dict_append v0 obj upu) = Some us /\ u ∈ us) as Hstep.
    { intros u ups v Hu Hv Hinv. destruct (decide (obj = u)) as [->|Hne].
      - rewrite dict_get_append_eq in Hu. injection Hu as <-.
        apply elem_of_app in Hv as [Hv|Hv].
        + destruct (dict_get u uu) as [old|] eqn:Hold; [|by apply elem_of_nil in Hv].
          destruct (Hinv u old v Hold Hv) as (us & Hus & Hin).
          destruct (dict_append_keeps v0 u upu v us Hus) as (us' & Hus' & Hsub).
          eauto.
        + apply list_elem_of_singleton in Hv as ->.
          rewrite dict_get_append_eq. eexists. split; [done|].
          apply elem_of_app. right. by left.
      - rewrite dict_get_append_ne in Hu by done.
        destruct (Hinv u ups v Hu Hv) as (us & Hus & Hin).
        destruct (dict_append_keeps v0 obj upu v us Hus) as (us' & Hus' & Hsub).
        eauto. }
    destruct v0; try done; intros Hrun Hinv; eapply IH; try exact Hrun;
      intros u ups v Hu Hv; by eapply Hstep.
Qed.

Lemma build_one_symmetric_more name d r r' :
  symmetric_more r -> build_one name d r = Ok r' -> symmetric_more r'.
Proof.
  intros [Hg Hu] (uw & wu & pr & en & uu & upu & _ & _ & Hub & ->)%build_one_inv.
  split; simpl.
  - unfold general_block. destruct (startswith _ _); [|exact Hg].
    destruct (_extract_general_from_path _) as [g|] eqn:Hex; [|exact Hg].
    destruct (nonempty g); [|exact Hg]. simpl.
    intros u g' Hu'. destruct (decide (name = u)) as [->|Hne].
    + rewrite dict_get_set_eq in Hu'. injection Hu' as <-. split.
      * unfold _extract_general_from_path in Hex.
        destruct (last _); [|done]. exact (dict_get_elem _ _ _ Hex).
      * rewrite dict_get_append_eq. eexists. split; [done|].
        apply elem_of_app. right. by left.
    + rewrite dict_get_set_ne in Hu' by done.
      destruct (Hg u g' Hu') as (Hin & us & Hus & Hmem). split; [done|].
      destruct (dict_append_keeps g name (general_units r) g' us Hus)
        as (us' & Hus' & Hsub). eauto.
  - by eapply upgrades_loop_sym.
Qed.

Lemma build_loop_symmetric_more items : forall r r',
  symmetric_more r -> build_loop items r = Ok r' -> symmetric_more r'.
Proof.
  induction items as [|[name d] items IH]; intros r r' Hs; simpl.
  - by intros [= <-].
  - intros (r1 & H1 & H2)%rbind_ok_inv. eapply IH; [|exact H2].
    by eapply build_one_symmetric_more.
Qed.

(** X21: in the maps a returning [_build_relationships] leaves, the
    general edges and the upgrade edges are symmetric too: a unit mapped
    to a general is in the unit list of that general, and the general is
    one of the values of the file-name table; a unit whose upgrade list
    holds an upgrade is in the unit list of that upgrade. *)
Theorem general_upgrade_symmetry (all_objects : list (str * definition))
    (r : relationships) :
  _build_relationships all_objects = Ok r -> symmetric_more r.
Proof.
  intros H. eapply build_loop_symmetric_more; [|exact H]. split; by intros.
Qed.

Lemma general_upgrade_symmetry_witness :
  exists r, _build_relationships general_objects = Ok r /\
            dict_get (py "Ranger") (unit_general r) = Some (py "America") /\
            dict_get (py "America") (general_units r) = Some [py "Ranger"] /\
            symmetric_more r.
Proof.
  destruct (_build_relationships general_objects) as [r|e0] eqn:E;
    [|vm_compute in E; discriminate].
  exists r. split; [reflexivity|].
  pose proof (general_upgrade_symmetry _ _ E) as H.
  vm_compute in E. injection E as <-.
  split; [reflexivity|]. split; [reflexivity|exact H].
Defined.

(** ** Parsing every config file of an archive *)

Lemma dict_update_get {V} (acc new : list (str * V)) k :
  NoDup new.*1 ->
  dict_get k (dict_update acc new) =
  match dict_get k new with Some v => Some v | None => dict_get k acc end.
Proof.
  unfold dict_update. revert acc.
  induction new as [|[k' v'] new IH]; intros acc Hnd; simpl; [done|].
  apply NoDup_cons in Hnd as [Hk' Hnd]. rewrite IH by done. cbn [fst snd] in *.
  destruct (decide (k' = k)) as [->|Hne].
  - apply dict_get_None in Hk'. rewrite Hk'. apply dict_get_set_eq.
  - destruct (dict_get k new); [done|]. by apply dict_get_set_ne.
Qed.

Lemma dict_update_elem {V} (new : list (str * V)) : forall acc,
  NoDup acc.*1 ->
  NoDup (dict_update acc new).*1 /\
  (forall kv, kv ∈ dict_update acc new -> kv ∈ acc \/ kv ∈ new).
Proof.
  unfold dict_update.
  induction new as [|[k' v'] new IH]; intros acc Hnd; simpl.
  - split; [done|]. intros kv. by left.
  - destruct (dict_set_spec k' v' acc Hnd) as [Hnd' Hel].
    destruct (IH (dict_set k' v' acc) Hnd') as [H1 H2]. split; [done|].
    intros kv Hin. destruct (H2 kv Hin) as [Hacc|Hnew]; [|right; by right].
    destruct (Hel kv Hacc) as [->|[Hold _]]; [right; by left|by left].
Qed.

Section ParseAllFacts.

Variable lower : str -> str.
Variable decode_utf8_ignore : bytes -> str.

Lemma collect_app l1 l2 acc :
  collect lower decode_utf8_ignore (l1 ++ l2) acc =
  collect lower decode_utf8_ignore l2 (collect lower decode_utf8_ignore l1 acc).
Proof.
  revert acc. induction l1 as [|e l1 IH]; intros acc; simpl; [done|].
  destruct (endswith _ _); [|apply IH].
  destruct (parse_entry decode_utf8_ignore e); apply IH.
Qed.

Lemma collect_inv (P : str * definition -> Prop) l :
  (forall e objs kd, e ∈ l ->
     endswith (lower (BIG.path e)) (py ".ini") = true ->
     parse_entry decode_utf8_ignore e = Ok objs -> kd ∈ objs -> P kd) ->
  forall acc, NoDup acc.*1 -> Forall P acc ->
  NoDup (collect lower decode_utf8_ignore l acc).*1 /\
  Forall P (collect lower decode_utf8_ignore l acc).
Proof.
  induction l as [|e l IH]; intros HP acc Hnd Hall; simpl; [done|].
  assert (forall e0 objs kd, e0 ∈ l ->
     endswith (lower (BIG.path e0)) (py ".ini") = true ->
     parse_entry decode_utf8_ignore e0 = Ok objs -> kd ∈ objs -> P kd) as HP'.
  { intros e0 objs kd He0. apply HP. by right. }
  destruct (endswith _ _) eqn:Hini; [|by apply IH].
  destruct (parse_entry decode_utf8_ignore e) as [objs|x] eqn:Hp; [|by apply IH].
  destruct (dict_update_elem objs acc Hnd) as [Hnd' Hel].
  apply IH; [done|done|]. apply Forall_forall. intros kd Hin.
  destruct (Hel kd Hin) as [Hacc|Hnew].
  - rewrite Forall_forall in Hall. by apply Hall.
  - apply (HP e objs kd); [by left|done|done|done].
Qed.

(** X22: a file contributes nothing when its path does not end in
    [.ini] (ignoring case), when it has no payload, or when parsing it
    raises: the result is the same as if the entry were not in the
    archive, so one line that makes the parser raise loses every
    definition of its file, silently. *)
Theorem parse_all_skips_failed_file (l1 l2 : list BIG.FileEntry)
    (entry : BIG.FileEntry) :
  endswith (lower (BIG.path entry)) (py ".ini") = false \/
  (exists e, parse_entry decode_utf8_ignore entry = Raise e) ->
  parse_all_ini_files lower decode_utf8_ignore (l1 ++ entry :: l2) =
  parse_all_ini_files lower decode_utf8_ignore (l1 ++ l2).
Proof.
  intros H. unfold parse_all_ini_files.
  assert (collect lower decode_utf8_ignore (l1 ++ entry :: l2) [] =
          collect lower decode_utf8_ignore (l1 ++ l2) []) as ->; [|done].
  rewrite !collect_app. cbn [collect].
  destruct H as [->|[e ->]]; [done|]. by destruct (endswith _ _).
Qed.

(** X23: when two files define the same name the later file wins: after
    a config file that parses, a name it defines maps to its definition,
    and every other name maps to what the files before it gave. *)
Theorem parse_all_later_file_wins (l : list BIG.FileEntry)
    (entry : BIG.FileEntry) (objects : list (str * definition)) (k : str) :
  endswith (lower (BIG.path entry)) (py ".ini") = true ->
  parse_entry decode_utf8_ignore entry = Ok objects ->
  dict_get k (collect lower decode_utf8_ignore (l ++ [entry]) []) =
  match dict_get k objects with
  | Some d => Some d
  | None => dict_get k (collect lower decode_utf8_ignore l [])
  end.
Proof.
  intros Hini Hp. rewrite collect_app. cbn [collect]. rewrite Hini, Hp.
  apply dict_update_get. unfold parse_entry in Hp.
  destruct (BIG.data entry); [|done]. by apply parse_result_inv in Hp as [? _].
Qed.

(** X24: the map [parse_all_ini_files] returns has distinct keys, and
    every definition in it comes from an entry of the archive whose path
    ends in [.ini] (ignoring case): it is stored under its own name, its
    type is an object keyword, and its source file is the path of that
    entry. *)
Theorem parse_all_provenance (entries : list BIG.FileEntry)
    (all_objects : list (str * definition)) (r : relationships) :
  parse_all_ini_files lower decode_utf8_ignore entries = Ok (all_objects, r) ->
  NoDup all_objects.*1 /\
  Forall (fun kd => exists e, e ∈ entries /\
            endswith (lower (BIG.path e)) (py ".ini") = true /\
            def_named (BIG.path e) kd) all_objects.
Proof.
  unfold parse_all_ini_files. cbv zeta.
  intros (r' & Hb & [= <- <-])%rbind_ok_inv.
  destruct (collect_inv
    (fun kd => exists e, e ∈ entries /\
       endswith (lower (BIG.path e)) (py ".ini") = true /\
       def_named (BIG.path e) kd) entries) with (acc := @nil (str * definition))
    as [H1 H2]; [|constructor|constructor|done].
  intros e objs kd He Hini Hp Hkd. exists e. split; [done|]. split; [done|].
  unfold parse_entry in Hp. destruct (BIG.data e); [|done].
  apply parse_result_inv in Hp as [_ Hall]. rewrite Forall_forall in Hall.
  by apply Hall.
Qed.

End ParseAllFacts.

Lemma parse_all_skips_failed_file_witness :
  parse_all_ini_files ascii_lower BIG.decode_ascii_ignore ini_entries =
  parse_all_ini_files ascii_lower BIG.decode_ascii_ignore
    (take 1 ini_entries ++ drop 2 ini_entries).
Proof.
  apply (parse_all_skips_failed_file ascii_lower BIG.decode_ascii_ignore
           (take 1 ini_entries) (drop 2 ini_entries)
           (BIG.mkFileEntry 0 0 (py "Data\b.ini")
              (Some (b_ "Object Jeep" ++ [Byte.x0a] ++ b_ "= ModuleTag_01"
                     ++ [Byte.x0a] ++ b_ "End")) false)).
  right. exists IndexError. vm_compute. reflexivity.
Defined.

Lemma parse_all_later_file_wins_witness :
  (fun d => dict_get (py "Speed") (d_properties d)) <$>
    dict_get (py "Tank")
      (collect ascii_lower BIG.decode_ascii_ignore ini_entries [])
  = Some (Some (VStr (py "2"))).
Proof.
  pose proof (parse_all_later_file_wins ascii_lower BIG.decode_ascii_ignore
    (take 2 ini_entries)
    (BIG.mkFileEntry 0 0 (py "Data\c.ini")
       (Some (b_ "Object Tank" ++ [Byte.x0a] ++ b_ "  Speed = 2" ++ [Byte.x0a]
              ++ b_ "End")) false)
    [(py "Tank", mkDefinition (py "Object") (py "Tank") (py "Data\c.ini")
                   [(py "Speed", VStr (py "2"))] [] 0)]
    (py "Tank")) as H.
  change (take 2 ini_entries ++ _) with ini_entries in H.
  rewrite H; [reflexivity|vm_compute; reflexivity|vm_compute; reflexivity].
Defined.

Lemma parse_all_provenance_witness :
  exists all_objects r,
    parse_all_ini_files ascii_lower BIG.decode_ascii_ignore ini_entries
    = Ok (all_objects, r) /\
    all_objects.*1 = [py "Tank"] /\
    NoDup all_objects.*1.
Proof.
  destruct (parse_all_ini_files ascii_lower BIG.decode_ascii_ignore ini_entries)
    as [[all_objects r]|e0] eqn:E; [|vm_compute in E; discriminate].
  exists all_objects, r. split; [reflexivity|].
  destruct (parse_all_provenance _ _ _ _ _ E) as [H Hall]. split; [|exact H].
  vm_compute in E. injection E as <- _. reflexivity.
Defined.

(** ** Reverse edges *)

Lemma dict_append_inv {K V} `{EqDecision K} (k0 : K) (x : V) d k l y :
  dict_get k (dict_append k0 x d) = Some l -> y ∈ l ->
  (exists l0, dict_get k d = Some l0 /\ y ∈ l0) \/ (k = k0 /\ y = x).
Proof.
  intros Hl Hy. destruct (decide (k0 = k)) as [->|Hne].
  - rewrite dict_get_append_eq in Hl. injection Hl as <-.
    apply elem_of_app in Hy as [Hy|Hy].
    + destruct (dict_get k d) as [l0|]; [|by apply elem_of_nil in Hy]. left. eauto.
    + apply list_elem_of_singleton in Hy. by right.
  - rewrite dict_get_append_ne in Hl by done. left. eauto.
Qed.

Lemma weapons_loop_rev obj weapons : forall names wu names' wu',
  weapons_loop obj weapons names wu = Ok (names', wu') ->
  (forall x, x ∈ names -> x ∈ names') /\
  (forall w us u, dict_get w wu' = Some us -> u ∈ us ->
     (exists us0, dict_get w wu = Some us0 /\ u ∈ us0) \/ (u = obj /\ w ∈ names')).
Proof.
  induction weapons as [|x weapons IH]; intros names wu names' wu'; simpl.
  - intros [= <- <-]. split; [done|]. intros w us u Hw Hu. left. eauto.
  - destruct x as [s0|wi0]; [discriminate|].
    destruct (nonempty (weapon wi0)).
    + intros Hrun. apply IH in Hrun as [Hsub Hrev]. split.
      { intros y Hy. apply Hsub, elem_of_app. by left. }
      intros w us u Hw Hu. destruct (Hrev w us u Hw Hu) as [(us0 & Hus0 & Hu0)|?];
        [|by right].
      destruct (dict_append_inv _ _ _ _ _ _ Hus0 Hu0) as [?|[-> ->]]; [by left|].
      right. split; [done|]. apply Hsub, elem_of_app. right. by left.
    + apply IH.
Qed.

Lemma prereqs_loop_rev obj items : forall en en',
  prereqs_loop obj items en = Ok en' ->
  forall p os o, dict_get p en' = Some os -> o ∈ os ->
    (exists os0, dict_get p en = Some os0 /\ o ∈ os0) \/ (o = obj /\ IStr p ∈ items).
Proof.
  induction items as [|x items IH]; intros en en'; simpl.
  - intros [= <-] p os o Hp Ho. left. eauto.
  - destruct x as [p0|w0]; [|discriminate].
    intros Hrun p os o Hp Ho.
    destruct (IH _ _ Hrun p os o Hp Ho) as [(os0 & Hos0 & Ho0)|[-> Hin]].
    + destruct (dict_append_inv _ _ _ _ _ _ Hos0 Ho0) as [?|[-> ->]]; [by left|].
      right. split; [done|]. by left.
    + right. split; [done|]. by right.
Qed.

Lemma upgrades_loop_rev obj sections : forall uu upu uu' upu',
  upgrades_loop obj sections uu upu = Ok (uu', upu') ->
  (forall ups, dict_get obj uu = Some ups ->
     exists ups', dict_get obj uu' = Some ups' /\ forall y, y ∈ ups -> y ∈ ups') /\
  (forall v us u, dict_get v upu' = Some us -> u ∈ us ->
     (exists us0, dict_get v upu = Some us0 /\ u ∈ us0) \/
     (u = obj /\ exists ups, dict_get obj uu' = Some ups /\ v ∈ ups)).
Proof.
  induction sections as [|[sn sec] sections IH]; intros uu upu uu' upu'; simpl.
  - intros [= <- <-]. split; [eauto|]. intros v us u Hv Hu. left. eauto.
  - destruct (decide _); [|apply IH].
    destruct (dict_get (py "TriggeredBy") (s_properties sec)) as [v0|]; [|apply IH].
    assert (forall uu1 upu1,
      upgrades_loop obj sections (dict_append obj v0 uu) (dict_append v0 obj upu)
      = Ok (uu1, upu1) ->
      (forall ups, dict_get obj uu = Some ups ->
         exists ups', dict_get obj uu1 = Some ups' /\ forall y, y ∈ ups -> y ∈ ups') /\
      (forall v us u, dict_get v upu1 = Some us -> u ∈ us ->
         (exists us0, dict_get v upu = Some us0 /\ u ∈ us0) \/
         (u = obj /\ exists ups, dict_get obj uu1 = Some ups /\ v ∈ ups))) as Hstep.
    { intros uu1 upu1 Hrun. apply IH in Hrun as [Hmono Hrev].
      assert (exists l1, dict_get obj uu1 = Some l1 /\ v0 ∈ l1) as (l1 & Hl1 & Hv0).
      { destruct (Hmono _ (dict_get_append_eq obj v0 uu)) as (l1 & Hl1 & Hsub).
        exists l1. split; [done|]. apply Hsub, elem_of_app. right. by left. }
      split.
      - intros ups Hups.
        destruct (dict_append_keeps obj v0 uu obj ups Hups) as (l & Hl & Hsub).
        destruct (Hmono l Hl) as (l' & Hl' & Hsub'). eauto.
      - intros v us u Hv Hu.
        destruct (Hrev v us u Hv Hu) as [(us0 & Hus0 & Hu0)|?]; [|by right].
        destruct (dict_append_inv _ _ _ _ _ _ Hus0 Hu0) as [?|[-> ->]]; [by left|].
        right. split; [done|]. eauto. }
    destruct v0; try done; apply Hstep.
Qed.

Lemma build_one_reverse S name d r r' :
  reverse_sound S r -> name ∉ S -> build_one name d r = Ok r' ->
  reverse_sound (name :: S) r'.
Proof.
  intros (Hw & Hp & Hg & Hu) Hname
    (uw & wu & pr & en & uu & upu & Hwb & Hpb & Hub & ->)%build_one_inv.
  assert (forall k, k <> name ->
            dict_get k uu = dict_get k (unit_upgrades r)) as Huo.
  { intros k Hk. by eapply upgrades_loop_other. }
  apply upgrades_loop_rev in Hub as [Hmono Hurev].
  split; [|split; [|split]]; simpl.
  - (* weapons *)
    unfold weapons_block in Hwb.
    destruct (dict_get (py "WeaponSet") (d_sections d)) as [sec|].
    + apply rbind_ok_inv in Hwb as (ws & _ & Hwb).
      apply rbind_ok_inv in Hwb as ([names wu'] & Hloop & Hwb).
      apply weapons_loop_rev in Hloop as [_ Hrev].
      assert (wu = wu' /\ forall u', u' <> name ->
                dict_get u' uw = dict_get u' (unit_weapons r)) as [-> Hother].
      { destruct (nonempty names); injection Hwb as <- <-; split; try done.
        intros u' Hne. by rewrite dict_get_set_ne. }
      intros w us u Hus Hin. destruct (Hrev w us u Hus Hin) as [(us0 & Hus0 & Hu0)|[-> Hn]].
      * destruct (Hw w us0 u Hus0 Hu0) as (HuS & ws' & Hws' & Hwin).
        split; [by right|]. exists ws'. split; [|done].
        rewrite Hother; [done|]. intros ->. done.
      * split; [by left|]. exists names. split; [|done].
        destruct names as [|n names]; [by apply elem_of_nil in Hn|].
        cbn [nonempty] in Hwb.
        assert (uw = dict_set name (n :: names) (unit_weapons r)) as ->
          by congruence.
        apply dict_get_set_eq.
    + injection Hwb as <- <-. intros w us u Hus Hin.
      destruct (Hw w us u Hus Hin) as (HuS & ?). split; [by right|done].
  - (* prerequisites *)
    unfold prerequisites_block in Hpb.
    destruct (dict_get (py "Prerequisites") (d_sections d)) as [sec|].
    + destruct (truthy _).
      * apply rbind_ok_inv in Hpb as (items & Hit & Hpb).
        apply rbind_ok_inv in Hpb as (en' & Hloop & [= <- <-]).
        intros p os o Hos Hin.
        destruct (prereqs_loop_rev _ _ _ _ Hloop p os o Hos Hin)
          as [(os0 & Hos0 & Ho0)|[-> Hitem]].
        -- destruct (Hp p os0 o Hos0 Ho0) as (HoS & v & its & Hv & Hits & Hpin).
           split; [by right|]. exists v, its. split; [|done].
           rewrite dict_get_set_ne; [done|]. intros ->. done.
        -- split; [by left|]. eexists _, items. split; [apply dict_get_set_eq|done].
      * injection Hpb as <- <-. intros p os o Hos Hin.
        destruct (Hp p os o Hos Hin) as (HoS & ?). split; [by right|done].
    + injection Hpb as <- <-. intros p os o Hos Hin.
      destruct (Hp p os o Hos Hin) as (HoS & ?). split; [by right|done].
  - (* generals *)
    unfold general_block.
    assert (forall g us u, dict_get g (general_units r) = Some us -> u ∈ us ->
              u ∈ name :: S /\ dict_get u (unit_general r) = Some g) as Hg'.
    { intros g us u Hus Hin. destruct (Hg g us u Hus Hin). split; [by right|done]. }
    destruct (startswith _ _); [|exact Hg'].
    destruct (_extract_general_from_path _) as [g0|]; [|exact Hg'].
    destruct (nonempty g0); [|exact Hg']. simpl.
    intros g us u Hus Hin.
    destruct (dict_append_inv _ _ _ _ _ _ Hus Hin) as [(us0 & Hus0 & Hu0)|[-> ->]].
    + destruct (Hg g us0 u Hus0 Hu0) as [HuS Hug]. split; [by right|].
      rewrite dict_get_set_ne; [done|]. intros ->. done.
    + split; [by left|]. apply dict_get_set_eq.
  - (* upgrades *)
    intros v us u Hus Hin.
    destruct (Hurev v us u Hus Hin) as [(us0 & Hus0 & Hu0)|[-> ?]]; [|split; [by left|done]].
    destruct (Hu v us0 u Hus0 Hu0) as (HuS & ups & Hups & Hv).
    split; [by right|]. destruct (decide (u = name)) as [->|Hne]; [done|].
    exists ups. split; [|done]. by rewrite Huo.
Qed.

Lemma build_loop_reverse items : forall S r r',
  reverse_sound S r -> NoDup (items.*1 ++ S) ->
  build_loop items r = Ok r' ->
  reverse_sound (rev items.*1 ++ S) r'.
Proof.
  induction items as [|[name d] items IH]; intros S r r' Hinv Hnd; simpl.
  - by intros [= <-].
  - intros (r1 & H1 & H2)%rbind_ok_inv.
    cbn [fmap list_fmap fst app] in Hnd. apply NoDup_cons in Hnd as [Hname Hnd].
    rewrite <- app_assoc. cbn [app]. apply (IH (name :: S) r1 r'); [| |done].
    + eapply build_one_reverse; [done| |done].
      intros Hin. apply Hname, elem_of_app. by right.
    + apply NoDup_app. apply NoDup_app in Hnd as (Hn1 & Hdis & Hn2).
      split; [done|]. split.
      * intros x Hx [->|HxS]%elem_of_cons.
        -- apply Hname, elem_of_app. by left.
        -- by apply (Hdis x).
      * apply NoDup_cons. split; [|done].
        intros Hin. apply Hname, elem_of_app. by right.
Qed.

(** X25: with distinct keys, the reverse maps a returning
    [_build_relationships] leaves hold nothing but reverse edges: a unit
    in the list of a weapon has that weapon in its weapon list, an object
    in the list an entry of [enables] has that entry among its
    prerequisites, a unit in the list of a general is mapped to that
    general, a unit in the list of an upgrade has that upgrade in its
    upgrade list; and every member of these lists is a key of the input. *)
Theorem reverse_edges_sound (all_objects : list (str * definition))
    (r : relationships) :
  NoDup all_objects.*1 ->
  _build_relationships all_objects = Ok r ->
  reverse_sound all_objects.*1 r.
Proof.
  intros Hnd Hr.
  assert (reverse_sound (rev all_objects.*1 ++ []) r) as (H1 & H2 & H3 & H4).
  { apply (build_loop_reverse all_objects [] relationships_init); [|by rewrite app_nil_r|done].
    repeat split; intros; done. }
  rewrite app_nil_r in *.
  assert (forall x, x ∈ rev all_objects.*1 -> x ∈ all_objects.*1) as Hrev.
  { intros x Hx. apply list_elem_of_In, in_rev. by apply list_elem_of_In. }
  split; [|split; [|split]]; intros a l b Hl Hb.
  - destruct (H1 a l b Hl Hb) as [Hin ?]. split; [by apply Hrev|done].
  - destruct (H2 a l b Hl Hb) as [Hin ?]. split; [by apply Hrev|done].
  - destruct (H3 a l b Hl Hb) as [Hin ?]. split; [by apply Hrev|done].
  - destruct (H4 a l b Hl Hb) as [Hin ?]. split; [by apply Hrev|done].
Qed.

Lemma reverse_edges_sound_witness :
  exists r, _build_relationships dangling_objects = Ok r /\
            dict_get (py "Gun") (weapon_units r) = Some [py "Tank"] /\
            reverse_sound [py "Tank"] r.
Proof.
  destruct (_build_relationships dangling_objects) as [r|e0] eqn:E;
    [|vm_compute in E; discriminate].
  exists r. split; [reflexivity|].
  pose proof (reverse_edges_sound dangling_objects r) as H.
  split.
  - vm_compute in E. injection E as <-. reflexivity.
  - apply H; [|exact E]. vm_compute. apply NoDup_singleton.
Defined.

(** ** What a name maps to depends on its own definition only *)

Lemma same_at_sym k r r' : same_at k r r' -> same_at k r' r.
Proof. intros (A1 & A2 & A3 & A4 & A5 & A6). by repeat split. Qed.

Lemma weapons_loop_indep obj weapons : forall names wu names' wu' wu0,
  weapons_loop obj weapons names wu = Ok (names', wu') ->
  exists wu0', weapons_loop obj weapons names wu0 = Ok (names', wu0').
Proof.
  induction weapons as [|x weapons IH]; intros names wu names' wu' wu0; simpl.
  - intros [= <- <-]. eauto.
  - destruct x as [s0|wi0]; [discriminate|].
    destruct (nonempty (weapon wi0)); apply IH.
Qed.

Lemma prereqs_loop_indep obj items : forall en en' en0,
  prereqs_loop obj items en = Ok en' ->
  exists en0', prereqs_loop obj items en0 = Ok en0'.
Proof.
  induction items as [|x items IH]; intros en en' en0; simpl; [eauto|].
  destruct x as [p0|w0]; [|discriminate]. apply IH.
Qed.

Lemma upgrades_loop_indep obj sections : forall uu upu uu' upu' uu0 upu0,
  upgrades_loop obj sections uu upu = Ok (uu', upu') ->
  dict_get obj uu0 = dict_get obj uu ->
  exists uu0' upu0',
    upgrades_loop obj sections uu0 upu0 = Ok (uu0', upu0') /\
    dict_get obj uu0' = dict_get obj uu'.
Proof.
  induction sections as [|[sn sec] sections IH];
    intros uu upu uu' upu' uu0 upu0; simpl.
  - intros [= <- <-] H. eauto.
  - destruct (decide _); [|apply IH].
    destruct (dict_get (py "TriggeredBy") (s_properties sec)) as [v0|]; [|apply IH].
    destruct v0; try done; intros Hrun Heq; eapply IH; try exact Hrun;
      by rewrite !dict_get_append_eq, Heq.
Qed.

Lemma weapons_block_local name d r r0 uw wu :
  weapons_block name d r = Ok (uw, wu) ->
  dict_get name (unit_weapons r0) = dict_get name (unit_weapons r) ->
  exists uw0 wu0, weapons_block name d r0 = Ok (uw0, wu0) /\
                  dict_get name uw0 = dict_get name uw.
Proof.
  unfold weapons_block. intros Hwb Heq.
  destruct (dict_get (py "WeaponSet") (d_sections d)) as [sec|].
  - apply rbind_ok_inv in Hwb as (ws & -> & Hwb). cbn [rbind].
    apply rbind_ok_inv in Hwb as ([names wu'] & Hloop & Hwb).
    destruct (weapons_loop_indep _ _ _ _ _ _ (weapon_units r0) Hloop) as [wu0 ->].
    cbn [rbind]. destruct (nonempty names); injection Hwb as <- <-.
    + eexists _, _. split; [reflexivity|]. by rewrite !dict_get_set_eq.
    + eexists _, _. split; [reflexivity|done].
  - injection Hwb as <- <-. eauto.
Qed.

Lemma prerequisites_block_local name d r r0 pr en :
  prerequisites_block name d r = Ok (pr, en) ->
  dict_get name (prerequisites r0) = dict_get name (prerequisites r) ->
  exists pr0 en0, prerequisites_block name d r0 = Ok (pr0, en0) /\
                  dict_get name pr0 = dict_get name pr.
Proof.
  unfold prerequisites_block. intros Hpb Heq.
  destruct (dict_get (py "Prerequisites") (d_sections d)) as [sec|].
  - destruct (truthy _).
    + apply rbind_ok_inv in Hpb as (items & -> & Hpb). cbn [rbind].
      apply rbind_ok_inv in Hpb as (en' & Hloop & [= <- <-]).
      destruct (prereqs_loop_indep _ _ _ _ (enables r0) Hloop) as [en0 ->].
      cbn [rbind]. eexists _, _. split; [reflexivity|].
      by rewrite !dict_get_set_eq.
    + injection Hpb as <- <-. eauto.
  - injection Hpb as <- <-. eauto.
Qed.

Lemma build_one_local name d r r' r0 :
  build_one name d r = Ok r' -> same_at name r r0 ->
  exists r0', build_one name d r0 = Ok r0' /\ same_at name r' r0'.
Proof.
  intros (uw & wu & pr & en & uu & upu & Hwb & Hpb & Hub & ->)%build_one_inv
    (E1 & E2 & E3 & E4 & E5 & E6).
  destruct (weapons_block_local _ _ _ r0 _ _ Hwb E1) as (uw0 & wu0 & Hwb0 & Huw).
  destruct (prerequisites_block_local _ _ _ r0 _ _ Hpb E6) as (pr0 & en0 & Hpb0 & Hpr).
  destruct (upgrades_loop_indep _ _ _ _ _ _ (unit_upgrades r0) (upgrade_units r0)
              Hub E5) as (uu0 & upu0 & Hub0 & Huu).
  unfold build_one. rewrite Hwb0. cbn [rbind]. rewrite Hpb0. cbn [rbind].
  destruct (general_block name d r0) as [ug0 gu0] eqn:Hg0.
  rewrite Hub0. cbn [rbind]. eexists. split; [reflexivity|].
  repeat split; simpl.
  - exact Huw.
  - unfold armor_block. destruct (dict_get _ (d_sections d)); [|done].
    destruct (get_or_empty _ _) as [|[|]|[|]]; try done;
      by rewrite !dict_get_set_eq.
  - unfold locomotor_block.
    destruct (dict_get _ (d_properties d)) as [[|lv|]|]; try done.
    destruct (contains _ lv); [|done].
    cbv zeta. destruct (2 <=? _)%nat; [|done].
    destruct (last _); [|done]. by rewrite !dict_get_set_eq.
  - unfold general_block in *. destruct (startswith _ _).
    + destruct (_extract_general_from_path _) as [g|].
      * destruct (nonempty g); injection Hg0 as <- <-; simpl; [|done].
        by rewrite !dict_get_set_eq.
      * by injection Hg0 as <- <-.
    + by injection Hg0 as <- <-.
  - exact Huu.
  - exact Hpr.
Qed.

(** X26: with distinct keys, what the six maps keyed by the referring
    definition hold for a name is determined by the definition of that
    name alone: it is what the body of the loop gives when it is run on
    that one definition from empty maps, whatever else the input holds
    and wherever the definition stands in it. *)
Theorem entries_depend_on_own_definition
    (all_objects : list (str * definition)) (r : relationships) u d :
  NoDup all_objects.*1 ->
  _build_relationships all_objects = Ok r ->
  dict_get u all_objects = Some d ->
  exists r1, build_one u d relationships_init = Ok r1 /\ same_at u r1 r.
Proof.
  intros Hnd Hr Hu.
  destruct (dict_get_split _ _ _ Hu) as (l1 & l2 & -> & Hl1).
  rewrite fmap_app, fmap_cons in Hnd. apply NoDup_app in Hnd as (_ & _ & Hnd2).
  apply NoDup_cons in Hnd2 as [Hl2 _]. simpl in Hl2.
  unfold _build_relationships in Hr. rewrite build_loop_app in Hr.
  apply rbind_ok_inv in Hr as (ra & Hra & Hr). simpl in Hr.
  apply rbind_ok_inv in Hr as (rb & Hone & Hr).
  pose proof (build_loop_other _ u _ _ Hra Hl1) as Ha.
  destruct (build_one_local _ _ _ _ relationships_init Hone (same_at_sym _ _ _ Ha))
    as (r1 & Hr1 & Hsame).
  exists r1. split; [exact Hr1|].
  eapply same_at_trans; [apply same_at_sym, Hsame|].
  by eapply build_loop_other.
Qed.

Lemma entries_depend_on_own_definition_witness :
  exists r r1,
    _build_relationships (general_objects ++ dangling_objects) = Ok r /\
    build_one (py "Tank")
      (mkDefinition (py "Object") (py "Tank") (py "a.ini") []
         [(py "WeaponSet",
           mkSection (py "WeaponSet") None
             [(py "weapons", VList [IWeapon (mkWeapon (py "PRIMARY") (py "Gun"))]);
              (py "conditions", VNone)] None);
          (py "Prerequisites",
           mkSection (py "Prerequisites") None
             [(py "prerequisites", VList [IStr (py "Factory")])] None)] 0)
      relationships_init = Ok r1 /\
    same_at (py "Tank") r1 r.
Proof.
  destruct (_build_relationships (general_objects ++ dangling_objects))
    as [r|e0] eqn:E; [|vm_compute in E; discriminate].
  destruct (entries_depend_on_own_definition
              (general_objects ++ dangling_objects) r (py "Tank")
              (mkDefinition (py "Object") (py "Tank") (py "a.ini") []
                 [(py "WeaponSet",
                   mkSection (py "WeaponSet") None
                     [(py "weapons",
                       VList [IWeapon (mkWeapon (py "PRIMARY") (py "Gun"))]);
                      (py "conditions", VNone)] None);
                  (py "Prerequisites",
                   mkSection (py "Prerequisites") None
                     [(py "prerequisites", VList [IStr (py "Factory")])] None)] 0))
    as (r1 & H1 & H2).
  - by_decide.
  - exact E.
  - vm_compute. reflexivity.
  - exists r, r1. split; [reflexivity|]. split; [exact H1|exact H2].
Defined.

End INIFacts.
